(** * The simulation control panel ([visuals.py]) and its exports

    A shallow embedding of the session code of [visuals.py]: the module-level
    globals ([running], [t], [models], the input widgets), the button and timer
    callbacks ([step_once], [tick], [start_animation], [stop_animation],
    [apply_settings], [reset_model], [export_csv_raw_runs], [batch_export]),
    the ensemble factory [create_models] and the statistics routine
    [plot_states].

    The simulation engine itself ([network_model.NetworkModel]) is imported by
    [visuals.py] and is not part of the files at hand.  The session code is
    therefore written over an arbitrary engine (a constructor, a [step] and the
    [states_per_time] accessor), and module [Engine] below gives one engine
    modelled from the written specification.

    What the embedding takes from the libraries the code calls:
    - the fields hold numbers: reading a field whose text is not a number
      raises [TclError] in Tk, and such sessions are left out;
    - the calls into the file system ([mkdir], [open], the CSV writer) and
      the drawing calls of matplotlib and networkx return;
    - [window.update()] runs the callbacks of the events that are pending.
      Section [Session] is the code when nothing is pending at those calls;
      module [Live] is the same code with the pending events dispatched, and
      the statements that depend on what may be dispatched are made there. *)

From Stdlib Require Import ZArith Ascii String Floats.PrimFloat Floats.FloatOps Floats.SpecFloat.
From stdpp Require Import gmap strings pretty list.

Set Warnings "-inexact-float".

Local Open Scope Z_scope.

(** ** Python values *)

(** The exceptions the session code can meet.  [ValueError] is the one class
    [batch_export] catches. *)
Inductive exn :=
| ValueError (msg : string)
| IndexError (msg : string)
| OverflowError (msg : string)
| OtherError (cls msg : string).

Definition is_ValueError (e : exn) : bool :=
  match e with ValueError _ => true | _ => false end.

(** A result of a call that may raise. *)
Definition result (A : Type) : Type := exn + A.

Definition is_ok {A} (r : result A) : bool :=
  match r with inr _ => true | inl _ => false end.

(** [int(x)] on a Python float (an IEEE binary64 number): truncation towards
    zero; NaN raises [ValueError], an infinity raises [OverflowError]. *)
Definition int_of_float (x : float) : result Z :=
  match Prim2SF x with
  | S754_nan => inl (ValueError "cannot convert float NaN to integer")
  | S754_infinity _ => inl (OverflowError "cannot convert float infinity to integer")
  | S754_zero _ => inr 0
  | S754_finite sign m e =>
      let mag := match e with
                 | Z0 => Zpos m
                 | Zpos k => Z.shiftl (Zpos m) (Zpos k)
                 | Zneg k => Z.shiftr (Zpos m) (Zpos k)
                 end in
      inr (if sign then - mag else mag)
  end.

(** [l[i]] for a list and a non-negative index. *)
Definition list_index {A} (l : list A) (i : nat) : result A :=
  match l !! i with
  | Some x => inr x
  | None => inl (IndexError "list index out of range")
  end.

(** A snapshot of [states_per_time]: a dict from state name to count. *)
Abbreviation Snapshot := (gmap string Z).

(** [d.get(k, 0)] *)
Definition dict_get (d : Snapshot) (k : string) : Z := default 0 (d !! k).

(** A value written into a CSV row. *)
Inductive cell :=
| CInt (n : Z)
| CStr (s : string)
| CFloat (x : float).

(** ** The input widgets *)

Inductive view := network | stats.

Record Inputs := {
  num_nodes_input : Z;
  delay_input : Z;
  initial_outbreak_prop_input : float;
  seed_input : Z;
  use_seed_var : bool;
  network_seed_input : Z;
  max_t_input : Z;
  iterations_input : Z;
  steps_per_update_input : Z;
  prep_amount_input : float;
  mode_var : string
}.

(** The defaults given to [add_variable_block], [use_seed_var] and [mode_var]. *)
Definition default_inputs : Inputs := {|
  num_nodes_input := 1000;
  delay_input := 50;
  initial_outbreak_prop_input := 0.11%float;
  seed_input := 42;
  use_seed_var := false;
  network_seed_input := 67;
  max_t_input := 520;
  iterations_input := 3;
  steps_per_update_input := 10;
  prep_amount_input := 0.1%float;
  mode_var := "standard"
|}.

(** [for name, var, default in settings: var.set(default)] followed by
    [use_seed_var.set(False)]: every numeric input returns to its default, the
    mode menu is not in [settings] and keeps its value. *)
Definition restore_defaults (i : Inputs) : Inputs := {|
  num_nodes_input := num_nodes_input default_inputs;
  delay_input := delay_input default_inputs;
  initial_outbreak_prop_input := initial_outbreak_prop_input default_inputs;
  seed_input := seed_input default_inputs;
  use_seed_var := false;
  network_seed_input := network_seed_input default_inputs;
  max_t_input := max_t_input default_inputs;
  iterations_input := iterations_input default_inputs;
  steps_per_update_input := steps_per_update_input default_inputs;
  prep_amount_input := prep_amount_input default_inputs;
  mode_var := mode_var i
|}.

Definition set_mode_var (v : string) (i : Inputs) : Inputs := {|
  num_nodes_input := num_nodes_input i;
  delay_input := delay_input i;
  initial_outbreak_prop_input := initial_outbreak_prop_input i;
  seed_input := seed_input i;
  use_seed_var := use_seed_var i;
  network_seed_input := network_seed_input i;
  max_t_input := max_t_input i;
  iterations_input := iterations_input i;
  steps_per_update_input := steps_per_update_input i;
  prep_amount_input := prep_amount_input i;
  mode_var := v
|}.

Definition set_prep_amount_input (v : float) (i : Inputs) : Inputs := {|
  num_nodes_input := num_nodes_input i;
  delay_input := delay_input i;
  initial_outbreak_prop_input := initial_outbreak_prop_input i;
  seed_input := seed_input i;
  use_seed_var := use_seed_var i;
  network_seed_input := network_seed_input i;
  max_t_input := max_t_input i;
  iterations_input := iterations_input i;
  steps_per_update_input := steps_per_update_input i;
  prep_amount_input := v;
  mode_var := mode_var i
|}.

(** The four [.set] calls at the head of [batch_export]. *)
Definition set_batch_inputs (max_t iterations num_nodes network_seed : Z)
    (i : Inputs) : Inputs := {|
  num_nodes_input := num_nodes;
  delay_input := delay_input i;
  initial_outbreak_prop_input := initial_outbreak_prop_input i;
  seed_input := seed_input i;
  use_seed_var := use_seed_var i;
  network_seed_input := network_seed;
  max_t_input := max_t;
  iterations_input := iterations;
  steps_per_update_input := steps_per_update_input i;
  prep_amount_input := prep_amount_input i;
  mode_var := mode_var i
|}.

(** The keyword arguments of one [NetworkModel(...)] call. *)
Record ModelArgs := {
  seed : option Z;
  network_seed : Z;
  num_nodes : Z;
  initial_outbreak_proportion : float;
  mode : string;
  prep_amount : float
}.

(** ** What the session does to the outside world

    Calls into Tk, matplotlib, the file system and [print] are recorded, in
    order, in the session's [trace]; they do not feed back into the globals. *)

Inductive title :=
| TitleWeek (week : nat)
| TitleCreating (i k : Z)
| TitleReady (k : Z)
| TitleBatch (job total : nat) (mode : string) (prep_val : float)
| TitleBatchDone.

Inductive message :=
| Exported (filepath : string)
| Skipping (mode : string) (prep_val : float) (reason : exn).

Inductive effect :=
| SetTitle (ttl : title)
| Update
| UpdateIdletasks
| Redraw
| RedrawStats
| After (ms : Z)
| Mkdir (dir : string)
| WriteCsv (filepath : string) (header : list string) (rows : list (list cell))
| Printed (msg : message).

Definition is_skip (e : effect) : bool :=
  match e with Printed (Skipping _ _ _) => true | _ => false end.

Definition written_path (e : effect) : option string :=
  match e with WriteCsv p _ _ => Some p | _ => None end.

(** The paths of the files written so far, oldest first. *)
Definition written_paths (tr : list effect) : list string :=
  omap written_path tr.

Definition KEYS : list string :=
  ["susceptible"; "acute"; "chronic"; "aids"; "dead"].

(** [str.capitalize()] on ASCII text: first letter upper case, the rest lower. *)
Definition upper (c : ascii) : ascii :=
  let n := nat_of_ascii c in
  if ((97 <=? n) && (n <=? 122))%nat then ascii_of_nat (n - 32) else c.

Definition lower (c : ascii) : ascii :=
  let n := nat_of_ascii c in
  if ((65 <=? n) && (n <=? 90))%nat then ascii_of_nat (n + 32) else c.

Fixpoint lower_all (s : string) : string :=
  match s with
  | EmptyString => EmptyString
  | String c r => String (lower c) (lower_all r)
  end.

Definition capitalize (s : string) : string :=
  match s with
  | EmptyString => EmptyString
  | String c r => String (upper c) (lower_all r)
  end.

(** ** The engine, from the written specification *)

Module Engine.

Inductive State := Susceptible | Acute | Chronic | AIDS | Dead.

Global Instance State_eq_dec : EqDecision State.
Proof. solve_decision. Defined.

Definition state_name (st : State) : string :=
  match st with
  | Susceptible => "susceptible"
  | Acute => "acute"
  | Chronic => "chronic"
  | AIDS => "aids"
  | Dead => "dead"
  end.

Definition STATES : list State := [Susceptible; Acute; Chronic; AIDS; Dead].

(** The stage that follows a stage; [Dead] is absorbing. *)
Definition next_state (st : State) : State :=
  match st with
  | Susceptible => Acute
  | Acute => Chronic
  | Chronic => AIDS
  | AIDS => Dead
  | Dead => Dead
  end.

(** A node.  Sex and orientation are fixed at creation and only decide the
    coverage flag, so the flag alone is kept. *)
Record Person := {
  state : State;
  prep_covered : bool;
  time_in_state : nat
}.

(** One week for one node: [fire] says whether its transition happens this
    week (an infection for a susceptible node, the end of the dwell time for
    the later stages).  A transition resets [time_in_state]. *)
Definition advance (p : Person) (fire : bool) : Person :=
  match state p with
  | Dead => {| state := Dead; prep_covered := prep_covered p;
               time_in_state := S (time_in_state p) |}
  | st =>
      if fire
      then {| state := next_state st; prep_covered := prep_covered p; time_in_state := 0 |}
      else {| state := st; prep_covered := prep_covered p;
              time_in_state := S (time_in_state p) |}
  end.

(** The number of nodes in state [st]. *)
Definition count_state (st : State) (nodes : list Person) : Z :=
  Z.of_nat (length (filter (fun p => state p = st) nodes)).

(** The snapshot of a population: counts by state name. *)
Definition count_states (nodes : list Person) : Snapshot :=
  list_to_map (map (fun st => (state_name st, count_state st nodes)) STATES).

(** The modes of the specification's Intervention Assigner. *)
Definition MODES : list string :=
  ["standard"; "random";
   "targeted_m_homo"; "targeted_m_hetero"; "targeted_m_bi";
   "targeted_f_homo"; "targeted_f_hetero"; "targeted_f_bi";
   "targeted_homosexual"; "targeted_heterosexual"; "targeted_bisexual";
   "targeted_male"; "targeted_female"].

(** One run: the arguments it was built with, the nodes (node [i] at index
    [i]), the week counter and the recorded snapshots. *)
Record Run := {
  args : ModelArgs;
  nodes : list Person;
  time : nat;
  states_per_time : list Snapshot
}.

Section Process.

(** The chance part of a run, as functions of the construction arguments (the
    two seeds among them): which nodes the Intervention Assigner covers, which
    nodes the initial outbreak marks Acute, and for a week, the node states
    before it and a node, whether that node's transition happens. *)
Variable covered : ModelArgs -> nat -> bool.
Variable outbreak : ModelArgs -> nat -> bool.
Variable fires : ModelArgs -> nat -> list Person -> nat -> bool.

Definition initial_person (a : ModelArgs) (i : nat) : Person :=
  {| state := if outbreak a i then Acute else Susceptible;
     prep_covered := covered a i;
     time_in_state := 0 |}.

(** Modelled from the spec: the constructor of [network_model.NetworkModel],
    which the files at hand import but do not contain.  It builds [num_nodes]
    nodes, marks the initial outbreak and the coverage, and records the week-0
    snapshot; it fails (section 7's [InvalidTopology] and [UnknownMode], raised
    as the [ValueError] the batch exporter catches) when [num_nodes < 1] or the
    mode is none of the Intervention Assigner's. *)
Definition new (a : ModelArgs) : result Run :=
  if num_nodes a <? 1 then inl (ValueError "InvalidTopology")
  else if negb (bool_decide (mode a ∈ MODES)) then inl (ValueError "UnknownMode")
  else
    let nodes := map (initial_person a) (seq 0 (Z.to_nat (num_nodes a))) in
    inr {| args := a; nodes := nodes; time := 0;
           states_per_time := [count_states nodes] |}.

(** Modelled from the spec: [NetworkModel.step], absent like the constructor.
    Every node advances from the states of the week before (no same-step
    cascade), [time] grows by one and exactly one snapshot is appended;
    a step never fails. *)
Definition step (r : Run) : result Run :=
  let nodes' := imap (fun i p => advance p (fires (args r) (time r) (nodes r) i)) (nodes r) in
  inr {| args := args r; nodes := nodes'; time := S (time r);
         states_per_time := states_per_time r ++ [count_states nodes'] |}.

End Process.

End Engine.

(** ** [plot_states] *)

(** What [plot_states] receives as [data]: the snapshots of one run, or a list
    of runs ([isinstance(data[0], dict)] tells them apart). *)
Inductive plot_data :=
| OneRun (r : list Snapshot)
| Runs (rs : list (list Snapshot)).

Section Plotting.

(** numpy's float arrays are lists of [num]; [median] and [quantile q] are
    [np.median] and [np.quantile(_, q)] on one column of counts. *)
Variable num : Type.
Variable median : list Z -> num.
Variable quantile : float -> list Z -> num.

(** The calls made on the axes object. *)
Inductive draw :=
| Clear
| Plot (timesteps : list nat) (ys : list num) (label : string) (color : option string)
| FillBetween (timesteps : list nat) (lo hi : list num) (alpha : float) (color : option string)
| Legend.

(** [d[key]] *)
Definition dict_index (d : Snapshot) (key : string) : result Z :=
  match d !! key with
  | Some v => inr v
  | None => inl (OtherError "KeyError" key)
  end.

(** [[f(x) for x in xs]] where [f] may raise. *)
Fixpoint comprehension {X Y} (f : X -> result Y) (xs : list X) : result (list Y) :=
  match xs with
  | [] => inr []
  | x :: rest =>
      match f x with
      | inl e => inl e
      | inr y =>
          match comprehension f rest with
          | inl e => inl e
          | inr ys => inr (y :: ys)
          end
      end
  end.

(** [[[r[t][key] for t in range(T)] for r in runs]]: one row per run. *)
Definition vals_of (runs : list (list Snapshot)) (T : nat) (key : string)
    : result (list (list Z)) :=
  comprehension (fun r =>
    comprehension (fun week =>
      match list_index r week with
      | inl e => inl e
      | inr d => dict_index d key
      end) (seq 0 T)) runs.

(** Column [week] of a two-dimensional array. *)
Definition column (vals : list (list Z)) (week : nat) : list Z :=
  map (fun row => nth week row 0) vals.

(** A reduction along [axis=0] of an array with [T] columns. *)
Definition along_axis0 (f : list Z -> num) (vals : list (list Z)) (T : nat) : list num :=
  map (fun week => f (column vals week)) (seq 0 T).

(** [min(len(r) for r in runs)] for a non-empty [runs]. *)
Definition min_len (runs : list (list Snapshot)) : nat :=
  match runs with
  | [] => 0%nat
  | r :: rest => foldr (fun r' acc => Nat.min (length r') acc) (length r) rest
  end.

(** [colors.get(key) if colors else None] *)
Definition color_of (colors : option (gmap string string)) (key : string) : option string :=
  match colors with
  | Some c => if bool_decide (c = ∅) then None else c !! key
  | None => None
  end.

(** The loop over [keys]: the calls made so far, and the exception if one of
    the subscripts raised. *)
Fixpoint plot_keys (runs : list (list Snapshot)) (T : nat)
    (colors : option (gmap string string)) (keys : list string) : list draw * result unit :=
  match keys with
  | [] => ([], inr tt)
  | key :: rest =>
      match vals_of runs T key with
      | inl e => ([], inl e)
      | inr vals =>
          let median := along_axis0 median vals T in
          let q1 := along_axis0 (quantile 0.25%float) vals T in
          let q3 := along_axis0 (quantile 0.75%float) vals T in
          let color := color_of colors key in
          let (ds, r) := plot_keys runs T colors rest in
          (Plot (seq 0 T) median (capitalize key +:+ " (median)") color
             :: FillBetween (seq 0 T) q1 q3 0.2%float color :: ds, r)
      end
  end.

Definition is_empty_data (data : plot_data) : bool :=
  match data with
  | OneRun [] | Runs [] => true
  | _ => false
  end.

Definition plot_states (data : plot_data) (keys : list string)
    (colors : option (gmap string string)) : list draw * result unit :=
  if is_empty_data data then ([Clear], inr tt)
  else
    let runs := match data with OneRun r => [r] | Runs rs => rs end in
    let T := min_len runs in
    if (T =? 0)%nat then ([Clear], inr tt)
    else
      let (ds, r) := plot_keys runs T colors keys in
      match r with
      | inl e => (Clear :: ds, inl e)
      | inr _ => (Clear :: ds ++ [Legend], inr tt)
      end.

End Plotting.

Arguments Clear {num}.
Arguments Legend {num}.
Arguments Plot {num} _ _ _ _.
Arguments FillBetween {num} _ _ _ _ _.

Definition PLOT_1_KEYS : list string := ["susceptible"].
Definition PLOT_2_KEYS : list string := ["acute"].
Definition PLOT_3_KEYS : list string := ["chronic"; "acute"].
Definition PLOT_4_KEYS : list string := ["aids"; "dead"].

Definition state_colors : gmap string string :=
  list_to_map [("susceptible", "lightgray"); ("acute", "red"); ("chronic", "orange");
               ("aids", "purple"); ("dead", "black")].

(** ** The session over an arbitrary engine *)

(** The values of the block of [batch_export] marked for editing. *)
Module Batch.
Record Config := {
  prep_values : list float;
  modes : list string;
  max_t : Z;
  iterations : Z;
  num_nodes : Z;
  network_seed : Z
}.
End Batch.

(** The block as it stands in the file. *)
Definition batch_config : Batch.Config := {|
  Batch.prep_values := [0.1; 0.2; 0.3; 0.4; 0.5; 0.6; 0.7; 0.8; 0.9; 1.0]%float;
  Batch.modes := ["standard"];
  Batch.max_t := 520;
  Batch.iterations := 50;
  Batch.num_nodes := 1000;
  Batch.network_seed := 67
|}.

(** The name of an exported file. *)
Definition filename (mode : string) (prep_pct : Z) (max_week : nat)
    (nodes net_seed iters : Z) (timestamp : string) : string :=
  mode +:+ "_prep" +:+ pretty prep_pct +:+ "_weeks" +:+ pretty max_week
    +:+ "_nodes" +:+ pretty nodes +:+ "_netseed" +:+ pretty net_seed
    +:+ "_iters" +:+ pretty iters +:+ "_RAW__" +:+ timestamp +:+ ".csv".

(** [dir / name] *)
Definition path_join (dir name : string) : string := dir +:+ "/" +:+ name.

Arguments filename : simpl never.
Arguments path_join : simpl never.
Arguments int_of_float : simpl never.

(** The header row for [num_runs] runs. *)
Definition header_of (num_runs : nat) : list string :=
  ["week"; "mode"; "prep"]
    ++ flat_map (fun run_idx : nat => map (fun k => k +:+ "_" +:+ pretty (run_idx + 1)%nat) KEYS)
         (seq 0 num_runs).

(** [{k: 0 for k in KEYS}] *)
Definition zero_snapshot : Snapshot := list_to_map (map (fun k => (k, 0)) KEYS).

Section Session.

(** The engine: the class [NetworkModel] imported from [network_model].
    [NetworkModel a] is the constructor call with keyword arguments [a],
    [step m] is [m.step()], which updates the object in place (here: returns
    the updated object), and [states_per_time m] reads the attribute of that
    name.  What a [step] that raises has done to its object cannot be read off
    the files at hand; the object is taken to be as it was. *)
Context {Model : Type}.
Variable NetworkModel : ModelArgs -> result Model.
Variable step : Model -> result Model.
Variable states_per_time : Model -> list Snapshot.

(** [datetime.now().strftime(...)]: the [n]-th reading of the clock taken by
    the session, already formatted. *)
Variable now : nat -> string.

(** The module-level globals.  [model] and [pos] only feed the drawing
    routines and are left out; [clock_reads] counts the readings of the clock
    taken so far. *)
Record Session := {
  running : bool;
  t : nat;
  models : list Model;
  current_view : view;
  inputs : Inputs;
  trace : list effect;
  clock_reads : nat
}.

Definition set_running (b : bool) (s : Session) : Session :=
  {| running := b; t := t s; models := models s; current_view := current_view s;
     inputs := inputs s; trace := trace s; clock_reads := clock_reads s |}.

Definition set_t (n : nat) (s : Session) : Session :=
  {| running := running s; t := n; models := models s; current_view := current_view s;
     inputs := inputs s; trace := trace s; clock_reads := clock_reads s |}.

Definition set_models (ms : list Model) (s : Session) : Session :=
  {| running := running s; t := t s; models := ms; current_view := current_view s;
     inputs := inputs s; trace := trace s; clock_reads := clock_reads s |}.

Definition set_current_view (v : view) (s : Session) : Session :=
  {| running := running s; t := t s; models := models s; current_view := v;
     inputs := inputs s; trace := trace s; clock_reads := clock_reads s |}.

Definition set_inputs (i : Inputs) (s : Session) : Session :=
  {| running := running s; t := t s; models := models s; current_view := current_view s;
     inputs := i; trace := trace s; clock_reads := clock_reads s |}.

Definition add_effect (e : effect) (s : Session) : Session :=
  {| running := running s; t := t s; models := models s; current_view := current_view s;
     inputs := inputs s; trace := trace s ++ [e]; clock_reads := clock_reads s |}.

Definition count_clock_read (s : Session) : Session :=
  {| running := running s; t := t s; models := models s; current_view := current_view s;
     inputs := inputs s; trace := trace s; clock_reads := S (clock_reads s) |}.

(** *** Statements: state passing with exceptions

    A statement maps the globals to the updated globals and either a value or
    the exception it raised; an exception keeps the updates made before it. *)
Definition M (A : Type) : Type := Session -> Session * result A.

Definition ret {A} (a : A) : M A := fun s => (s, inr a).
Definition raise {A} (e : exn) : M A := fun s => (s, inl e).
Definition bind {A B} (m : M A) (k : A -> M B) : M B :=
  fun s => match m s with
           | (s', inl e) => (s', inl e)
           | (s', inr a) => k a s'
           end.
Definition get : M Session := fun s => (s, inr s).
Definition modify (f : Session -> Session) : M unit := fun s => (f s, inr tt).
Definition lift {A} (r : result A) : M A := fun s => (s, r).
Definition emit (e : effect) : M unit := modify (add_effect e).

(** [try: body except ValueError as e: handler(e)] *)
Definition try_except_ValueError {A} (body : M A) (handler : exn -> M A) : M A :=
  fun s => match body s with
           | (s', inl e) => if is_ValueError e then handler e s' else (s', inl e)
           | (s', inr a) => (s', inr a)
           end.

Notation "'let*' x ':=' m 'in' k" := (bind m (fun x => k))
  (at level 10, x name, m at level 100, k at level 200).
Notation "m >> k" := (bind m (fun _ => k))
  (at level 90, right associativity).

(** [for x in xs: body(x)] *)
Fixpoint for_each {X} (xs : list X) (body : X -> M unit) : M unit :=
  match xs with
  | [] => ret tt
  | x :: rest => body x >> for_each rest body
  end.

(** A loop that appends one value per element to a fresh list. *)
Fixpoint collect {X Y} (xs : list X) (body : X -> M Y) : M (list Y) :=
  match xs with
  | [] => ret []
  | x :: rest =>
      let* y := body x in
      let* ys := collect rest body in
      ret (y :: ys)
  end.

(** *** Drawing *)

(** [redraw()]: the network plot, and the statistics too when they are shown. *)
Definition redraw : M unit :=
  emit Redraw >>
  let* s := get in
  match current_view s with
  | stats => emit RedrawStats
  | network => ret tt
  end.

(** [redraw_stats()], recorded as one call that returns.  What it draws on
    each of the four axes is [plot_states] on [stats_data], embedded on its own
    above; [plot_states] raises [KeyError] when a snapshot lacks a key, which
    the histories of an engine with the five states do not. *)
Definition redraw_stats : M unit := emit RedrawStats.

Definition redraw_current : M unit :=
  let* s := get in
  match current_view s with
  | network => redraw
  | stats => redraw_stats
  end.

(** What [redraw_stats] hands to [plot_states] for the four axes. *)
Definition stats_data (s : Session) : plot_data := Runs (map states_per_time (models s)).

(** *** [create_models] *)

(** The keyword arguments [create_models] passes for run [i]. *)
Definition model_args (inp : Inputs) (i : Z) : ModelArgs := {|
  seed := if use_seed_var inp then Some (seed_input inp + i) else None;
  network_seed := network_seed_input inp;
  num_nodes := num_nodes_input inp;
  initial_outbreak_proportion := initial_outbreak_prop_input inp;
  mode := mode_var inp;
  prep_amount := prep_amount_input inp
|}.

(** [range(k)] *)
Definition range (k : Z) : list Z := seqZ 0 k.

(** [create_models()] when nothing is pending at its [window.update()] calls,
    which are recorded in the trace.  The fields are read anew for every run,
    as in the source.  [Live.create_models] is the same loop with the pending
    events dispatched. *)
Definition create_models : M (list Model) :=
  let* s0 := get in
  let k := iterations_input (inputs s0) in
  let* ms := collect (range k) (fun i =>
    emit (SetTitle (TitleCreating (i + 1) k)) >>
    emit Update >>
    let* s := get in
    lift (NetworkModel (model_args (inputs s) i))) in
  emit (SetTitle (TitleReady k)) >>
  ret ms.

(** *** Stepping *)

(** [for m in models: m.step()] on the objects of a list: the objects before
    the one whose step raises have been stepped, the ones after it have not,
    and the one itself is taken to be as it was. *)
Fixpoint step_all (ms : list Model) : list Model * result unit :=
  match ms with
  | [] => ([], inr tt)
  | m :: rest =>
      match step m with
      | inl e => (m :: rest, inl e)
      | inr m' => let (rest', r) := step_all rest in (m' :: rest', r)
      end
  end.

Definition step_models : M unit :=
  fun s => let (ms, r) := step_all (models s) in (set_models ms s, r).

Definition incr_t : M unit := modify (fun s => set_t (S (t s)) s).

(** [t >= int(max_t_input.get())] *)
Definition at_ceiling (s : Session) : bool :=
  max_t_input (inputs s) <=? Z.of_nat (t s).

Definition step_once : M unit :=
  let* s := get in
  if at_ceiling s then ret tt
  else
    step_models >>
    incr_t >>
    let* s := get in
    emit (SetTitle (TitleWeek (t s))) >>
    redraw_current.

(** The [for _ in range(steps)] loop of [tick]. *)
Fixpoint tick_loop (steps : nat) : M unit :=
  match steps with
  | O => ret tt
  | S steps' =>
      step_models >>
      incr_t >>
      let* s := get in
      if negb (running s) then ret tt else tick_loop steps'
  end.

(** The number of weeks one [tick] asks for. *)
Definition tick_steps (s : Session) : Z :=
  let max_t := max_t_input (inputs s) in
  let steps_per_update := Z.max 1 (steps_per_update_input (inputs s)) in
  Z.min steps_per_update (max_t - Z.of_nat (t s)).

Definition tick : M unit :=
  let* s := get in
  if negb (running s) || at_ceiling s then ret tt
  else
    tick_loop (Z.to_nat (tick_steps s)) >>
    let* s := get in
    emit (SetTitle (TitleWeek (t s))) >>
    redraw_current >>
    let* s := get in
    emit (After (delay_input (inputs s))).

Definition start_animation : M unit :=
  let* s := get in
  if running s then ret tt
  else modify (set_running true) >> tick.

Definition stop_animation : M unit := modify (set_running false).

(** [model = models[0]]: only the exception of the subscript matters here. *)
Definition bind_model : M unit :=
  let* s := get in
  let* _ := lift (list_index (models s) 0) in
  ret tt.

Definition apply_settings : M unit :=
  modify (set_running false) >>
  modify (set_t 0) >>
  let* ms := create_models in
  modify (set_models ms) >>
  bind_model >>
  redraw.

Definition reset_model : M unit :=
  modify (set_running false) >>
  modify (fun s => set_inputs (restore_defaults (inputs s)) s) >>
  modify (set_t 0) >>
  let* ms := create_models in
  modify (set_models ms) >>
  bind_model >>
  redraw.

Definition show_network_plot : M unit := modify (set_current_view network).

Definition show_stats_plot : M unit :=
  modify (set_current_view stats) >> redraw_stats.

(** *** [export_csv_raw_runs] *)

Definition read_clock : M string :=
  fun s => (count_clock_read s, inr (now (clock_reads s))).

(** The five cells of one run in the row of [week]. *)
Definition run_cells (week : nat) (r : list Snapshot) : M (list cell) :=
  let* d := if (week <? length r)%nat then lift (list_index r week)
            else ret zero_snapshot in
  ret (map (fun k => CInt (dict_get d k)) KEYS).

(** The data row of [week]. *)
Definition row_of (mode : string) (prep : float) (runs : list (list Snapshot))
    (week : nat) : M (list cell) :=
  let* cells := collect runs (run_cells week) in
  ret ([CInt (Z.of_nat week); CStr mode; CFloat prep] ++ concat cells).

(** [export_csv_raw_runs(output_dir)] with fields that hold numbers and a
    file system that does what it is asked: [int(prep * 100)] is then the one
    statement that can raise.  The file is written in one piece once its rows
    are known; the rows cannot raise (see [export_rows_total]), so nothing is
    lost against the file being opened first. *)
Definition export_csv_raw_runs (output_dir : option string) : M unit :=
  let data_dir := match output_dir with None => "sim_results" | Some d => d end in
  emit (Mkdir data_dir) >>
  let* s := get in
  let mode := mode_var (inputs s) in
  let prep := prep_amount_input (inputs s) in
  let max_week := t s in
  let* prep_pct := lift (int_of_float (prep * 100)%float) in
  let nodes := num_nodes_input (inputs s) in
  let net_seed := network_seed_input (inputs s) in
  let iters := iterations_input (inputs s) in
  let* timestamp := read_clock in
  let filepath :=
    path_join data_dir (filename mode prep_pct max_week nodes net_seed iters timestamp) in
  let runs := map states_per_time (models s) in
  let num_runs := length runs in
  let T := (max_week + 1)%nat in
  let* rows := collect (seq 0 T) (row_of mode prep runs) in
  emit (WriteCsv filepath (header_of num_runs) rows) >>
  emit (Printed (Exported filepath)).

(** *** [batch_export] *)

(** [while t < max_t: for m in models: m.step(); t += 1], with the number of
    rounds left as fuel. *)
Fixpoint batch_steps_fuel (fuel : nat) (max_t : Z) : M unit :=
  match fuel with
  | O => ret tt
  | S fuel' =>
      let* s := get in
      if Z.of_nat (t s) <? max_t
      then step_models >> incr_t >> batch_steps_fuel fuel' max_t
      else ret tt
  end.

Definition batch_steps (max_t : Z) : M unit :=
  let* s := get in
  batch_steps_fuel (Z.to_nat (max_t - Z.of_nat (t s))) max_t.

(** The [try] block of one job. *)
Definition batch_try (mode_dir : string) (max_t : Z) : M unit :=
  let* ms := create_models in
  modify (set_models ms) >>
  bind_model >>
  batch_steps max_t >>
  export_csv_raw_runs (Some mode_dir).

(** The body of the loop over [prep_values]: one job. *)
Definition batch_job (mode mode_dir : string) (max_t : Z) (total_jobs : nat)
    (job : nat) (prep_val : float) : M unit :=
  modify (fun s => set_inputs (set_prep_amount_input prep_val (inputs s)) s) >>
  modify (set_t 0) >>
  emit (SetTitle (TitleBatch job total_jobs mode prep_val)) >>
  emit UpdateIdletasks >>
  try_except_ValueError
    (batch_try mode_dir max_t)
    (fun e => emit (Printed (Skipping mode prep_val e))).

(** [for prep_val in prep_values], the job counter starting at [job]. *)
Fixpoint batch_preps (mode mode_dir : string) (max_t : Z) (total_jobs : nat)
    (job : nat) (prep_values : list float) : M unit :=
  match prep_values with
  | [] => ret tt
  | prep_val :: rest =>
      batch_job mode mode_dir max_t total_jobs job prep_val >>
      batch_preps mode mode_dir max_t total_jobs (S job) rest
  end.

(** [for mode in modes] *)
Fixpoint batch_modes (cfg : Batch.Config) (total_jobs : nat) (job : nat)
    (modes : list string) : M unit :=
  match modes with
  | [] => ret tt
  | mode :: rest =>
      modify (fun s => set_inputs (set_mode_var mode (inputs s)) s) >>
      let mode_dir := path_join "data" mode in
      emit (Mkdir mode_dir) >>
      batch_preps mode mode_dir (Batch.max_t cfg) total_jobs job (Batch.prep_values cfg) >>
      batch_modes cfg total_jobs (job + length (Batch.prep_values cfg))%nat rest
  end.

Definition batch_export_with (cfg : Batch.Config) : M unit :=
  modify (set_running false) >>
  modify (fun s => set_inputs
    (set_batch_inputs (Batch.max_t cfg) (Batch.iterations cfg) (Batch.num_nodes cfg)
       (Batch.network_seed cfg) (inputs s)) s) >>
  emit (Mkdir "data") >>
  let total_jobs := (length (Batch.modes cfg) * length (Batch.prep_values cfg))%nat in
  batch_modes cfg total_jobs 1%nat (Batch.modes cfg) >>
  emit (SetTitle TitleBatchDone).

Definition batch_export : M unit := batch_export_with batch_config.

(** *** The buttons and the timer *)

Inductive event :=
| EvStep
| EvTick
| EvStart
| EvPause
| EvApply
| EvDefault
| EvExport
| EvBatch (cfg : Batch.Config)
| EvNetworkView
| EvStatsView
| EvInput (i : Inputs).

(** The callback bound to an event; typing into the widgets replaces the
    inputs.  [EvBatch] carries the values of the editable block. *)
Definition callback (ev : event) : M unit :=
  match ev with
  | EvStep => step_once
  | EvTick => tick
  | EvStart => start_animation
  | EvPause => stop_animation
  | EvApply => apply_settings
  | EvDefault => reset_model
  | EvExport => export_csv_raw_runs None
  | EvBatch cfg => batch_export_with cfg
  | EvNetworkView => show_network_plot
  | EvStatsView => show_stats_plot
  | EvInput i => modify (set_inputs i)
  end.

(** The main loop runs a callback and goes on with the globals as the
    callback left them, whether it returned or raised. *)
Definition dispatch (ev : event) (s : Session) : Session := fst (callback ev s).

(** The globals before the first [create_models()] of the module. *)
Definition blank : Session := {|
  running := false; t := 0; models := []; current_view := network;
  inputs := default_inputs; trace := []; clock_reads := 0
|}.

(** The module's last lines: the first ensemble and the first drawing. *)
Definition startup : M unit :=
  let* ms := create_models in
  modify (set_models ms) >>
  bind_model >>
  redraw.

(** The sessions the main loop can be in. *)
Inductive reachable : Session -> Prop :=
| reachable_startup s : startup blank = (s, inr tt) -> reachable s
| reachable_dispatch ev s : reachable s -> reachable (dispatch ev s).

(** *** Vocabulary of the statements *)

(** [m.step()] called [n] times in a row. *)
Fixpoint step_n (n : nat) (m : Model) : result Model :=
  match n with
  | O => inr m
  | S n' =>
      match step m with
      | inl e => inl e
      | inr m' => step_n n' m'
      end
  end.

(** [m'] is [m] after exactly [n] successful steps. *)
Definition stepped (n : nat) (m m' : Model) : Prop := step_n n m = inr m'.

(** [m] was built by the constructor and stepped exactly [n] times since. *)
Definition fresh_stepped (n : nat) (m : Model) : Prop :=
  exists a m0, NetworkModel a = inr m0 /\ stepped n m0 m.

(** Every model of the ensemble has been stepped exactly [t] times. *)
Definition lock_step (s : Session) : Prop :=
  Forall (fresh_stepped (t s)) (models s).

(** Every run holds [t + 1] snapshots. *)
Definition all_at_week (s : Session) : Prop :=
  Forall (fun m => length (states_per_time m) = S (t s)) (models s).

(** The number of jobs the batch has skipped so far, as printed. *)
Definition skips (s : Session) : nat := length (filter (fun e => is_skip e = true) (trace s)).

(** The number of weeks a [tick] advances the session by. *)
Definition tick_weeks (s : Session) : nat :=
  if negb (running s) || at_ceiling s then 0%nat else Z.to_nat (tick_steps s).

(** The value written for run [r], week [week] and state [k], in the words of
    the export's description: the run's count, 0 past the end of the run's
    history, 0 for a state the snapshot does not list. *)
Definition cell_value (r : list Snapshot) (week : nat) (k : string) : Z :=
  match r !! week with
  | Some d => match d !! k with Some v => v | None => 0 end
  | None => 0
  end.

(** The data row of a week, in the same words. *)
Definition csv_row (mode : string) (prep : float) (runs : list (list Snapshot))
    (week : nat) : list cell :=
  [CInt (Z.of_nat week); CStr mode; CFloat prep]
    ++ flat_map (fun r => map (fun k => CInt (cell_value r week k)) KEYS) runs.

(** The directory, the path, the rows and the session after an export that
    found [prep_pct] for [int(prep * 100)]. *)
Definition export_dir (output_dir : option string) : string :=
  match output_dir with None => "sim_results" | Some d => d end.

Definition export_path (output_dir : option string) (prep_pct : Z) (s : Session) : string :=
  path_join (export_dir output_dir)
    (filename (mode_var (inputs s)) prep_pct (t s) (num_nodes_input (inputs s))
       (network_seed_input (inputs s)) (iterations_input (inputs s))
       (now (clock_reads s))).

Definition export_rows (s : Session) : list (list cell) :=
  map (csv_row (mode_var (inputs s)) (prep_amount_input (inputs s))
         (map states_per_time (models s)))
      (seq 0 (t s + 1)).

Definition exported (output_dir : option string) (prep_pct : Z) (s : Session) : Session :=
  let path := export_path output_dir prep_pct s in
  add_effect (Printed (Exported path))
    (add_effect (WriteCsv path (header_of (length (models s))) (export_rows s))
       (count_clock_read (add_effect (Mkdir (export_dir output_dir)) s))).

(** [s'] differs from [s] in the trace of outside calls at most. *)
Definition same_globals (s s' : Session) : Prop :=
  running s' = running s /\ t s' = t s /\ models s' = models s
  /\ inputs s' = inputs s /\ current_view s' = current_view s
  /\ clock_reads s' = clock_reads s.

(** The statements [apply_settings], [reset_model], the module's start and a
    batch job share: [models = create_models()] and [model = models[0]]. *)
Definition rebuild : M unit :=
  let* ms := create_models in
  modify (set_models ms) >>
  bind_model.

(** [s'] differs from [s] in the week counter and the models at most. *)
Definition same_but_run (s s' : Session) : Prop :=
  running s' = running s /\ inputs s' = inputs s /\ current_view s' = current_view s
  /\ trace s' = trace s /\ clock_reads s' = clock_reads s.

(** [m'] is [m] after at least [n] successful steps. *)
Definition advanced (n : nat) (m m' : Model) : Prop :=
  exists k, (n <= k)%nat /\ stepped k m m'.

(** The week counter has moved on by some [n] and every model by at least as
    much: what stepping does to the session, also when a step raises in the
    middle of a week. *)
Definition progress (s s' : Session) : Prop :=
  exists n, t s' = (t s + n)%nat /\ Forall2 (advanced n) (models s) (models s').

(** Outside calls that neither write a file nor print a skipped job. *)
Definition quiet (added : list effect) : Prop :=
  Forall (fun e => written_path e = None /\ is_skip e = false) added.

(** [s'] is [s] after outside calls of that kind only. *)
Definition only_calls (s s' : Session) : Prop :=
  same_globals s s' /\ exists added, trace s' = trace s ++ added /\ quiet added.

(** Every model satisfies [P] and has a snapshot for the current week. *)
Definition recorded (P : Model -> Prop) (s : Session) : Prop :=
  Forall (fun m => P m /\ (t s < length (states_per_time m))%nat) (models s).

(** [int(prep_val * 100)] when it is defined. *)
Definition pct_of (prep_val : float) : option Z :=
  match int_of_float (prep_val * 100)%float with
  | inr p => Some p
  | inl _ => None
  end.

(** The files one mode's jobs can leave: at most one per prep value, in the
    order of the values, each named after the value's percentage. *)
Definition job_paths (dir mode : string) (nodes net_seed iters : Z)
    (prep_values : list float) (paths : list string) : Prop :=
  exists pcts, sublist pcts (omap pct_of prep_values)
    /\ Forall2 (fun pct path => exists week ts,
          path = path_join dir (filename mode pct week nodes net_seed iters ts))
        pcts paths.

(** No character of [s] is an underscore. *)
Fixpoint no_underscore (s : string) : Prop :=
  match s with
  | EmptyString => True
  | String c r => c <> "_"%char /\ no_underscore r
  end.

(** The session as [batch_job] finds it at its [try]. *)
Definition batch_job_start (mode : string) (total_jobs job : nat) (prep_val : float)
    (s : Session) : Session :=
  add_effect UpdateIdletasks
    (add_effect (SetTitle (TitleBatch job total_jobs mode prep_val))
      (set_t 0 (set_inputs (set_prep_amount_input prep_val (inputs s)) s))).

(** ** Facts about the session code *)

Ltac run := unfold bind, ret, get, modify, emit, lift, raise; simpl.

Lemma bind_ok {A B} (m : M A) (k : A -> M B) s s1 a :
  m s = (s1, inr a) -> bind m k s = k a s1.
Proof. intros H. unfold bind. by rewrite H. Qed.

Lemma bind_err {A B} (m : M A) (k : A -> M B) s s1 e :
  m s = (s1, inl e) -> bind m k s = (s1, inl e).
Proof. intros H. unfold bind. by rewrite H. Qed.

Lemma bind_inv_ok {A B} (m : M A) (k : A -> M B) s s' b :
  bind m k s = (s', inr b) -> exists s1 a, m s = (s1, inr a) /\ k a s1 = (s', inr b).
Proof.
  unfold bind. destruct (m s) as [s1 [e|a]]; [discriminate|]. eauto.
Qed.

(** *** [create_models] *)

Lemma collect_models_inv (l : list Z) (k : Z) s s' ms :
  collect l (fun i =>
    emit (SetTitle (TitleCreating (i + 1) k)) >>
    emit Update >>
    let* s := get in
    lift (NetworkModel (model_args (inputs s) i))) s = (s', inr ms) ->
  running s' = running s /\ t s' = t s /\ models s' = models s /\ inputs s' = inputs s
  /\ clock_reads s' = clock_reads s /\ current_view s' = current_view s
  /\ Forall2 (fun i m => NetworkModel (model_args (inputs s) i) = inr m) l ms.
Proof.
  revert s s' ms. induction l as [|i l IH]; intros s s' ms.
  - run. intros [= <- <-]. repeat split; constructor.
  - simpl. intros H.
    apply bind_inv_ok in H as (s1 & m & Hm & H).
    apply bind_inv_ok in H as (s2 & ms' & Hms & H).
    revert H. run. intros [= <- <-].
    revert Hm. run.
    destruct (NetworkModel (model_args (inputs s) i)) as [e|m'] eqn:Hcall; [discriminate|].
    intros [= <- <-].
    apply IH in Hms as (? & ? & ? & Hinp & ? & ? & HF). simpl in *.
    repeat split; try done. by constructor.
Qed.

Lemma create_models_inv s s' ms :
  create_models s = (s', inr ms) ->
  running s' = running s /\ t s' = t s /\ models s' = models s /\ inputs s' = inputs s
  /\ clock_reads s' = clock_reads s /\ current_view s' = current_view s
  /\ Forall2 (fun i m => NetworkModel (model_args (inputs s) i) = inr m)
       (range (iterations_input (inputs s))) ms.
Proof.
  unfold create_models. intros H.
  apply bind_inv_ok in H as (s1 & s0 & Hget & H). revert Hget. run. intros [= <- <-].
  apply bind_inv_ok in H as (s2 & ms' & Hc & H). revert H. run. intros [= <- <-].
  apply collect_models_inv in Hc. simpl. tauto.
Qed.

(** *** [step_once] and [tick] at the ceiling *)

(** C4. When the week counter has reached the value of the max-timesteps
    field, [step_once] returns at once without raising: the globals, the models
    and their histories among them, and the trace of outside calls are exactly
    as before.  The same holds for [tick]. *)
Theorem step_once_at_ceiling s :
  max_t_input (inputs s) <= Z.of_nat (t s) ->
  step_once s = (s, inr tt) /\ tick s = (s, inr tt).
Proof.
  intros H. assert (Hc : at_ceiling s = true) by (unfold at_ceiling; lia).
  unfold step_once, tick. run. rewrite Hc, orb_true_r. done.
Qed.

Lemma step_once_noop s : at_ceiling s = true -> step_once s = (s, inr tt).
Proof. intros Hc. unfold step_once. run. by rewrite Hc. Qed.

(** *** Stepping the ensemble *)

Lemma step_n_snoc n m m1 :
  step_n n m = inr m1 -> step_n (S n) m = step m1.
Proof.
  revert m. induction n as [|n IH]; intros m; simpl.
  - intros [= ->]. by destruct (step m1).
  - destruct (step m) as [e|m'] eqn:Hm; [discriminate|]. intros H.
    apply IH in H. simpl in H. done.
Qed.

Lemma stepped_S_l n m m1 m2 :
  stepped 1 m m1 -> stepped n m1 m2 -> stepped (S n) m m2.
Proof.
  unfold stepped. simpl. destruct (step m) as [e|m'] eqn:Hm; [discriminate|].
  by intros [= ->].
Qed.

Lemma Forall2_stepped_0 ms : Forall2 (stepped 0) ms ms.
Proof. induction ms; by constructor. Qed.

Lemma Forall2_stepped_S_l n ms ms1 ms2 :
  Forall2 (stepped 1) ms ms1 -> Forall2 (stepped n) ms1 ms2 ->
  Forall2 (stepped (S n)) ms ms2.
Proof.
  intros H. revert ms2. induction H as [|m m1 ms ms1 Hm _ IH]; intros ms2 H2.
  - inversion H2. constructor.
  - inversion H2; subst. constructor; [by eapply stepped_S_l|by apply IH].
Qed.

Lemma step_all_ok ms ms' :
  step_all ms = (ms', inr tt) -> Forall2 (stepped 1) ms ms'.
Proof.
  revert ms'. induction ms as [|m ms IH]; intros ms'; simpl.
  - intros [= <-]. constructor.
  - destruct (step m) as [e|m'] eqn:Hm; [discriminate|].
    destruct (step_all ms) as [rest r] eqn:Hrest. intros [= <- ->].
    constructor; [|by apply IH]. unfold stepped. simpl. by rewrite Hm.
Qed.

Lemma step_all_returns ms :
  (forall m, is_ok (step m) = true) -> exists ms', step_all ms = (ms', inr tt).
Proof.
  intros Hok. induction ms as [|m ms [ms' IH]]; simpl; [by eexists|].
  specialize (Hok m). destruct (step m) as [e|m']; [discriminate|].
  rewrite IH. by eexists.
Qed.

Lemma step_models_ok s s' :
  step_models s = (s', inr tt) ->
  Forall2 (stepped 1) (models s) (models s') /\ s' = set_models (models s') s.
Proof.
  unfold step_models. destruct (step_all (models s)) as [ms r] eqn:H.
  intros [= <- ->]. split; [by apply step_all_ok|done].
Qed.

Lemma redraw_current_frame s :
  exists s', redraw_current s = (s', inr tt) /\ same_globals s s'.
Proof.
  unfold redraw_current, redraw, redraw_stats, same_globals. run.
  destruct (current_view s) eqn:Hv; run; rewrite ?Hv; eexists; (split; [done|]);
    simpl; by rewrite ?Hv.
Qed.

(** *** The animation loop *)

Lemma tick_loop_ok n s s' :
  running s = true -> tick_loop n s = (s', inr tt) ->
  Forall2 (stepped n) (models s) (models s') /\ t s' = (t s + n)%nat
  /\ running s' = running s /\ inputs s' = inputs s /\ trace s' = trace s
  /\ current_view s' = current_view s /\ clock_reads s' = clock_reads s.
Proof.
  revert s. induction n as [|n IH]; intros s Hrun; simpl.
  - run. intros [= <-]. split; [apply Forall2_stepped_0|]. repeat split; lia.
  - intros H. apply bind_inv_ok in H as (s1 & [] & H1 & H).
    apply step_models_ok in H1 as [HF Hs1].
    revert H. run. rewrite Hs1. simpl. rewrite Hrun. simpl. intros H.
    apply IH in H as (HF' & Ht & ? & ? & ? & ? & ?); [|done]. simpl in *.
    split; [by eapply Forall2_stepped_S_l|]. repeat split; try done; try lia; congruence.
Qed.

Lemma tick_loop_returns n s :
  (forall m, is_ok (step m) = true) -> exists s', tick_loop n s = (s', inr tt).
Proof.
  intros Hok. revert s. induction n as [|n IH]; intros s; simpl; [by eexists|].
  unfold bind at 1. unfold step_models.
  destruct (step_all_returns (models s) Hok) as [ms' ->]. run.
  destruct (running s); simpl; [apply IH|by eexists].
Qed.

(** What a [tick] that returns has done to the models and the week counter. *)
Lemma tick_spec s s' :
  tick s = (s', inr tt) ->
  Forall2 (stepped (tick_weeks s)) (models s) (models s')
  /\ t s' = (t s + tick_weeks s)%nat
  /\ Z.of_nat (t s') <= Z.max (Z.of_nat (t s)) (max_t_input (inputs s))
  /\ Z.of_nat (tick_weeks s) <= Z.max 1 (steps_per_update_input (inputs s))
  /\ (running s = false -> s' = s).
Proof.
  unfold tick, tick_weeks. intros H.
  apply bind_inv_ok in H as (s0 & sg & Hget & H). injection Hget as <- <-.
  destruct (negb (running s) || at_ceiling s) eqn:Hgo.
  - injection H as <-. split; [apply Forall2_stepped_0|]. repeat split; try lia; done.
  - apply orb_false_iff in Hgo as [Hrun Hc]. apply negb_false_iff in Hrun.
    unfold at_ceiling in Hc.
    apply bind_inv_ok in H as (s1 & [] & Hloop & H).
    apply tick_loop_ok in Hloop as (HF & Ht & ? & Hin & ? & Hv & ?); [|done].
    apply bind_inv_ok in H as (s1' & sg & Hget & H). injection Hget as <- <-.
    apply bind_inv_ok in H as (s2 & [] & He & H). injection He as <-.
    apply bind_inv_ok in H as (s3 & [] & Hr & H).
    destruct (redraw_current_frame (add_effect (SetTitle (TitleWeek (t s1))) s1))
      as (s3' & Hr' & (? & Ht2 & Hm2 & ? & ? & ?)).
    rewrite Hr' in Hr. injection Hr as <-.
    apply bind_inv_ok in H as (s4 & sg & Hget & H). injection Hget as <- <-.
    injection H as <-. simpl in *.
    rewrite Hm2, Ht2. split; [done|]. unfold tick_steps in *.
    repeat split; try lia. congruence.
Qed.

Lemma tick_returns s :
  (forall m, is_ok (step m) = true) -> exists s', tick s = (s', inr tt).
Proof.
  intros Hok. unfold tick.
  erewrite bind_ok by reflexivity.
  destruct (negb (running s) || at_ceiling s); [by eexists|].
  destruct (tick_loop_returns (Z.to_nat (tick_steps s)) s Hok) as [s1 H1].
  erewrite bind_ok by exact H1.
  erewrite bind_ok by reflexivity.
  erewrite bind_ok by reflexivity.
  destruct (redraw_current_frame (add_effect (SetTitle (TitleWeek (t s1))) s1))
    as (s2 & H2 & _).
  erewrite bind_ok by exact H2.
  erewrite bind_ok by reflexivity.
  by eexists.
Qed.

(** *** The export *)

Lemma collect_pure {X Y} (f : X -> Y) (body : X -> M Y) (xs : list X) s :
  (forall x s0, body x s0 = (s0, inr (f x))) ->
  collect xs body s = (s, inr (map f xs)).
Proof.
  intros Hb. induction xs as [|x xs IH]; simpl; [done|].
  erewrite bind_ok by apply Hb. erewrite bind_ok by apply IH. done.
Qed.

Lemma dict_get_zero_snapshot k : dict_get zero_snapshot k = 0.
Proof.
  unfold dict_get, zero_snapshot. simpl.
  repeat (rewrite lookup_insert; case_decide; [done|]). by rewrite lookup_empty.
Qed.

Lemma run_cells_total week r s :
  run_cells week r s = (s, inr (map (fun k => CInt (cell_value r week k)) KEYS)).
Proof.
  unfold run_cells, cell_value.
  destruct (week <? length r)%nat eqn:Hlt.
  - apply Nat.ltb_lt, lookup_lt_is_Some in Hlt as [d Hd].
    unfold list_index. rewrite Hd. erewrite bind_ok by reflexivity.
    reflexivity.
  - apply Nat.ltb_ge, lookup_ge_None in Hlt. rewrite Hlt.
    erewrite bind_ok by reflexivity. unfold ret.
    assert (E : map (fun k => CInt (dict_get zero_snapshot k)) KEYS
                = map (fun _ => CInt 0) KEYS).
    { apply map_ext. intros k. by rewrite dict_get_zero_snapshot. }
    by rewrite E.
Qed.

Lemma row_of_total mode prep runs week s :
  row_of mode prep runs week s = (s, inr (csv_row mode prep runs week)).
Proof.
  unfold row_of, csv_row.
  erewrite bind_ok by (apply collect_pure; intros; apply run_cells_total).
  unfold ret. by rewrite flat_map_concat_map.
Qed.

(** The rows of an export never raise, whatever the runs hold. *)
Lemma export_rows_total mode prep runs T s :
  collect (seq 0 T) (row_of mode prep runs) s
  = (s, inr (map (csv_row mode prep runs) (seq 0 T))).
Proof. apply collect_pure. intros. apply row_of_total. Qed.

Lemma export_ok output_dir s prep_pct :
  int_of_float (prep_amount_input (inputs s) * 100)%float = inr prep_pct ->
  export_csv_raw_runs output_dir s = (exported output_dir prep_pct s, inr tt).
Proof.
  intros Hpct. unfold export_csv_raw_runs.
  erewrite bind_ok by reflexivity. erewrite bind_ok by reflexivity.
  erewrite bind_ok by (unfold lift; simpl; by rewrite Hpct).
  erewrite bind_ok by reflexivity.
  erewrite bind_ok by apply export_rows_total.
  erewrite bind_ok by reflexivity.
  unfold exported, export_path, export_rows, export_dir. simpl.
  by rewrite length_map.
Qed.

Lemma export_err output_dir s e :
  int_of_float (prep_amount_input (inputs s) * 100)%float = inl e ->
  export_csv_raw_runs output_dir s
  = (add_effect (Mkdir (export_dir output_dir)) s, inl e).
Proof.
  intros Hpct. unfold export_csv_raw_runs.
  erewrite bind_ok by reflexivity. erewrite bind_ok by reflexivity.
  erewrite bind_err; [done|]. unfold lift. simpl. by rewrite Hpct.
Qed.

(** Five cells per element, one per key. *)
Lemma flat_map_keys_lookup {X Y} (h : X -> string -> Y) (xs : list X) i x j k :
  xs !! i = Some x -> KEYS !! j = Some k ->
  flat_map (fun x => map (h x) KEYS) xs !! (5 * i + j)%nat = Some (h x k).
Proof.
  intros Hx Hk. assert (Hj : (j < 5)%nat) by (by apply lookup_lt_Some in Hk).
  revert i Hx. induction xs as [|x0 xs IH]; intros i Hx; [done|].
  cbn [flat_map]. destruct i as [|i].
  - injection Hx as ->. rewrite lookup_app_l by (rewrite length_map; simpl; lia).
    replace (5 * 0 + j)%nat with j by lia. by rewrite list_lookup_fmap, Hk.
  - rewrite lookup_app_r by (rewrite length_map; simpl; lia).
    rewrite length_map. simpl length.
    replace (5 * S i + j - 5)%nat with (5 * i + j)%nat by lia. by apply IH.
Qed.

Lemma flat_map_keys_length {X Y} (h : X -> string -> Y) (xs : list X) :
  length (flat_map (fun x => map (h x) KEYS) xs) = (5 * length xs)%nat.
Proof.
  induction xs as [|x xs IH]; [done|].
  cbn [flat_map]. rewrite length_app, IH, length_map. simpl. lia.
Qed.

Lemma cell_value_present r week d k v :
  r !! week = Some d -> d !! k = Some v -> cell_value r week k = v.
Proof. unfold cell_value. by intros -> ->. Qed.

Lemma cell_value_short r week k : (length r <= week)%nat -> cell_value r week k = 0.
Proof. intros H. unfold cell_value. by rewrite lookup_ge_None_2. Qed.

Lemma cell_value_missing r week d k :
  r !! week = Some d -> d !! k = None -> cell_value r week k = 0.
Proof. unfold cell_value. by intros -> ->. Qed.

(** C2. An export that finds a percentage writes one file whose data rows are
    the weeks 0 to [t] in order, [t + 1] of them.  The header is [week],
    [mode], [prep] and then, run after run in the order of [models], the five
    columns [<state>_<number>] in the order of [KEYS], the runs numbered from
    1.  The row of a week starts with the week, the mode string and the prep
    fraction, and holds in the column of run [i] and state [k] the value
    [cell_value], which is that run's count for [k] at that week whenever the
    run has a snapshot for the week that lists [k]. *)
Theorem export_csv_layout output_dir s prep_pct :
  int_of_float (prep_amount_input (inputs s) * 100)%float = inr prep_pct ->
  let n := length (models s) in
  let header := header_of n in
  let rows := export_rows s in
  export_csv_raw_runs output_dir s = (exported output_dir prep_pct s, inr tt)
  /\ trace (exported output_dir prep_pct s)
     = trace s ++ [Mkdir (export_dir output_dir);
                   WriteCsv (export_path output_dir prep_pct s) header rows;
                   Printed (Exported (export_path output_dir prep_pct s))]
  /\ length rows = (t s + 1)%nat
  /\ take 3 header = ["week"; "mode"; "prep"]
  /\ length header = (3 + 5 * n)%nat
  /\ (forall i j k, (i < n)%nat -> KEYS !! j = Some k ->
        header !! (3 + (5 * i + j))%nat = Some (k +:+ "_" +:+ pretty (i + 1)%nat))
  /\ (forall week, (week <= t s)%nat ->
        exists row, rows !! week = Some row
          /\ length row = (3 + 5 * n)%nat
          /\ take 3 row = [CInt (Z.of_nat week); CStr (mode_var (inputs s));
                           CFloat (prep_amount_input (inputs s))]
          /\ forall i m j k, models s !! i = Some m -> KEYS !! j = Some k ->
               row !! (3 + (5 * i + j))%nat
               = Some (CInt (cell_value (states_per_time m) week k))
               /\ forall d v, states_per_time m !! week = Some d -> d !! k = Some v ->
                    cell_value (states_per_time m) week k = v).
Proof.
  intros Hpct n header rows. split; [by apply export_ok|].
  split; [unfold exported; simpl; by rewrite <- !app_assoc|].
  split; [unfold rows, export_rows; by rewrite length_map, length_seq|].
  split; [done|].
  split.
  { unfold header, header_of. rewrite length_app, flat_map_keys_length, length_seq. done. }
  split.
  { intros i j k Hi Hk. unfold header, header_of.
    rewrite lookup_app_r by (simpl; lia). simpl length.
    replace (3 + (5 * i + j) - 3)%nat with (5 * i + j)%nat by lia.
    rewrite (flat_map_keys_lookup (fun (run_idx : nat) k => k +:+ "_" +:+ pretty (run_idx + 1)%nat)
               (seq 0 n) i i j k); [done| |done].
    by rewrite lookup_seq_lt. }
  intros week Hweek. exists (csv_row (mode_var (inputs s)) (prep_amount_input (inputs s))
                               (map states_per_time (models s)) week).
  split.
  { unfold rows, export_rows. rewrite list_lookup_fmap, lookup_seq_lt by lia. done. }
  split.
  { unfold csv_row. rewrite length_app, flat_map_keys_length, length_map. done. }
  split; [done|].
  intros i m j k Hm Hk. split; [|intros d v; apply cell_value_present].
  unfold csv_row. rewrite lookup_app_r by (simpl; lia). simpl length.
  replace (3 + (5 * i + j) - 3)%nat with (5 * i + j)%nat by lia.
  rewrite (flat_map_keys_lookup (fun r k => CInt (cell_value r week k))
             (map states_per_time (models s)) i (states_per_time m) j k); [done| |done].
  by rewrite list_lookup_fmap, Hm.
Qed.

(** C9. Nothing in the runs can make an export raise: whenever
    [int(prep * 100)] is defined the export returns and writes the rows of
    [export_rows], built from [cell_value], for any models whatsoever.  The
    value written is 0 for a week at or past the end of a run's history and 0
    for a state the snapshot does not list. *)
Theorem export_total_on_runs output_dir s prep_pct :
  int_of_float (prep_amount_input (inputs s) * 100)%float = inr prep_pct ->
  export_csv_raw_runs output_dir s = (exported output_dir prep_pct s, inr tt)
  /\ (forall week, (week <= t s)%nat ->
        export_rows s !! week
        = Some (csv_row (mode_var (inputs s)) (prep_amount_input (inputs s))
                  (map states_per_time (models s)) week))
  /\ (forall r week k, (length r <= week)%nat -> cell_value r week k = 0)
  /\ (forall r week d k, r !! week = Some d -> d !! k = None -> cell_value r week k = 0).
Proof.
  intros Hpct. split; [by apply export_ok|]. split.
  - intros week Hweek. unfold export_rows.
    rewrite list_lookup_fmap, lookup_seq_lt by lia. done.
  - split; [apply cell_value_short|apply cell_value_missing].
Qed.

(** *** File names *)

Lemma pretty_N_char_no_underscore x : pretty_N_char x <> "_"%char.
Proof. unfold pretty_N_char. by repeat case_match. Qed.

Lemma pretty_N_go_no_underscore x s :
  no_underscore s -> no_underscore (pretty_N_go x s).
Proof.
  revert s. induction (N.lt_wf_0 x) as [x _ IH]; intros s Hs.
  assert (x = 0 \/ 0 < x)%N as [->|Hx] by lia.
  - by rewrite pretty_N_go_0.
  - rewrite pretty_N_go_step by done. apply IH.
    + by apply N.div_lt.
    + split; [apply pretty_N_char_no_underscore|done].
Qed.

Lemma pretty_N_no_underscore (x : N) : no_underscore (pretty x).
Proof.
  unfold pretty, pretty_N. case_decide; [by split|].
  by apply pretty_N_go_no_underscore.
Qed.

Lemma pretty_nat_no_underscore (x : nat) : no_underscore (pretty x).
Proof. apply pretty_N_no_underscore. Qed.

Lemma pretty_Z_no_underscore (x : Z) : no_underscore (pretty x).
Proof.
  destruct x as [|p|p]; unfold pretty, pretty_Z.
  - by split.
  - apply pretty_N_no_underscore.
  - split; [done|]. apply pretty_N_no_underscore.
Qed.

(** Two texts without underscore, each followed by an underscore: the first
    underscore tells where the text ends. *)
Lemma underscore_split a b r r' :
  no_underscore a -> no_underscore b ->
  a +:+ String "_" r = b +:+ String "_" r' -> a = b /\ r = r'.
Proof.
  revert b. induction a as [|c a IH]; intros [|c' b] Ha Hb; simpl.
  - by intros [= ->].
  - intros [= <- _]. by destruct Hb.
  - intros [= -> _]. by destruct Ha.
  - intros [= <- H]. destruct Ha as [_ Ha], Hb as [_ Hb].
    destruct (IH b Ha Hb H) as [-> ->]. done.
Qed.

Lemma length_append (a b : string) :
  String.length (a +:+ b) = (String.length a + String.length b)%nat.
Proof. induction a as [|c a IH]; simpl; [done|]. by rewrite IH. Qed.

Lemma append_inv_tail (a b x : string) : a +:+ x = b +:+ x -> a = b.
Proof.
  revert b. induction a as [|c a IH]; intros [|c' b]; simpl; try done.
  - intros H. apply (f_equal String.length) in H.
    rewrite !length_append in H. simpl in H. lia.
  - intros H. apply (f_equal String.length) in H.
    rewrite !length_append in H. simpl in H. lia.
  - intros [= <- H]. by rewrite (IH b H).
Qed.

(** The name of an exported file determines everything it was built from,
    the mode being given. *)
Lemma filename_inj mode p w n sd i ts p' w' n' sd' i' ts' :
  filename mode p w n sd i ts = filename mode p' w' n' sd' i' ts' ->
  p = p' /\ w = w' /\ n = n' /\ sd = sd' /\ i = i' /\ ts = ts'.
Proof.
  unfold filename. intros H. apply String.app_inj in H. simpl in H.
  injection H as H.
  apply underscore_split in H as [Hp H]; try apply pretty_Z_no_underscore.
  simpl in H. injection H as H.
  apply underscore_split in H as [Hw H]; try apply pretty_nat_no_underscore.
  simpl in H. injection H as H.
  apply underscore_split in H as [Hn H]; try apply pretty_Z_no_underscore.
  simpl in H. injection H as H.
  apply underscore_split in H as [Hs H]; try apply pretty_Z_no_underscore.
  simpl in H. injection H as H.
  apply underscore_split in H as [Hi H]; try apply pretty_Z_no_underscore.
  simpl in H. injection H as H. apply append_inv_tail in H.
  apply (inj pretty) in Hp, Hw, Hn, Hs, Hi. done.
Qed.

Lemma path_join_inj dir name name' :
  path_join dir name = path_join dir name' -> name = name'.
Proof. unfold path_join. intros H. apply String.app_inj in H. by injection H. Qed.

(** *** How the callbacks move the session *)

Lemma only_calls_refl s : only_calls s s.
Proof.
  split; [by repeat split|]. exists []. split; [by rewrite app_nil_r|constructor].
Qed.

Lemma only_calls_trans s1 s2 s3 :
  only_calls s1 s2 -> only_calls s2 s3 -> only_calls s1 s3.
Proof.
  intros [(?&?&?&?&?&?) (a1 & Ha1 & Hq1)] [(?&?&?&?&?&?) (a2 & Ha2 & Hq2)].
  split; [repeat split; congruence|].
  exists (a1 ++ a2). split; [by rewrite Ha2, Ha1, app_assoc|by apply Forall_app].
Qed.

Lemma only_calls_effect e s :
  written_path e = None -> is_skip e = false -> only_calls s (add_effect e s).
Proof.
  intros H1 H2. split; [by repeat split|]. exists [e]. split; [done|].
  by repeat constructor.
Qed.

Lemma collect_models_frame (l : list Z) (k : Z) s s' r :
  collect l (fun i =>
    emit (SetTitle (TitleCreating (i + 1) k)) >>
    emit Update >>
    let* s := get in
    lift (NetworkModel (model_args (inputs s) i))) s = (s', r) ->
  only_calls s s'.
Proof.
  revert s s' r. induction l as [|i l IH]; intros s s' r.
  - intros [= <- <-]. apply only_calls_refl.
  - simpl. unfold bind at 1.
    set (s1 := add_effect Update (add_effect (SetTitle (TitleCreating (i + 1) k)) s)).
    assert (H1 : only_calls s s1).
    { eapply only_calls_trans; by apply only_calls_effect. }
    unfold emit, modify, bind at 1. simpl. fold s1.
    destruct (NetworkModel (model_args (inputs s) i)) as [e|m]; simpl.
    + intros [= <- <-]. done.
    + unfold bind at 1.
      destruct (collect l _ s1) as [s2 [e|ms]] eqn:Hc;
        apply IH in Hc; intros [= <- <-]; by eapply only_calls_trans.
Qed.

Lemma create_models_frame s s' r :
  create_models s = (s', r) -> only_calls s s'.
Proof.
  unfold create_models. unfold bind at 1. simpl. unfold bind at 1.
  destruct (collect _ _ s) as [s1 [e|ms]] eqn:Hc; apply collect_models_frame in Hc.
  - by intros [= <- <-].
  - intros [= <- <-]. eapply only_calls_trans; [done|]. by apply only_calls_effect.
Qed.

Lemma redraw_frame s s' r : redraw s = (s', r) -> r = inr tt /\ only_calls s s'.
Proof.
  unfold redraw. unfold emit, modify, bind, get. simpl.
  destruct (current_view s); intros [= <- <-]; (split; [done|]).
  - by apply only_calls_effect.
  - eapply only_calls_trans; by apply only_calls_effect.
Qed.

Lemma redraw_current_calls s s' r :
  redraw_current s = (s', r) -> r = inr tt /\ only_calls s s'.
Proof.
  unfold redraw_current. unfold bind, get. simpl. destruct (current_view s).
  - apply redraw_frame.
  - intros [= <- <-]. split; [done|]. by apply only_calls_effect.
Qed.

Lemma bind_model_frame s s' r : bind_model s = (s', r) -> s' = s.
Proof.
  unfold bind_model, bind, get, lift, ret. simpl.
  destruct (list_index (models s) 0); by intros [= <- <-].
Qed.

(** *** Steps add up *)

Lemma stepped_add k1 k2 m m1 m2 :
  stepped k1 m m1 -> stepped k2 m1 m2 -> stepped (k1 + k2) m m2.
Proof.
  revert m. induction k1 as [|k1 IH]; intros m; unfold stepped in *; simpl.
  - by intros [= ->].
  - destruct (step m) as [e|m']; [done|]. apply IH.
Qed.

Lemma advanced_add n1 n2 m m1 m2 :
  advanced n1 m m1 -> advanced n2 m1 m2 -> advanced (n1 + n2) m m2.
Proof.
  intros (k1 & ? & H1) (k2 & ? & H2). exists (k1 + k2)%nat.
  split; [lia|by eapply stepped_add].
Qed.

Lemma stepped_advanced n m m' : stepped n m m' -> advanced n m m'.
Proof. intros H. exists n. by split. Qed.

Lemma advanced_le n n' m m' : (n' <= n)%nat -> advanced n m m' -> advanced n' m m'.
Proof. intros Hle (k & ? & H). exists k. split; [lia|done]. Qed.

Lemma progress_refl s : progress s s.
Proof.
  exists 0%nat. split; [lia|]. apply Forall2_same_length_lookup_2; [done|].
  intros i m m' H1 H2. assert (m = m') as -> by congruence.
  exists 0%nat. by split.
Qed.

Lemma progress_trans s1 s2 s3 : progress s1 s2 -> progress s2 s3 -> progress s1 s3.
Proof.
  intros (n1 & Ht1 & H1) (n2 & Ht2 & H2). exists (n1 + n2)%nat. split; [lia|].
  revert H2. generalize (models s3). induction H1 as [|m m1 ms ms1 Hm _ IH];
    intros ms3 H2; inversion H2; subst; constructor.
  - by eapply advanced_add.
  - by apply IH.
Qed.

Lemma only_calls_progress s s' : only_calls s s' -> progress s s'.
Proof.
  intros [(_ & Ht & Hm & _) _]. destruct (progress_refl s) as (n & Hn & HF).
  exists n. by rewrite Ht, Hm.
Qed.

Lemma step_all_advanced ms ms' r :
  step_all ms = (ms', r) -> Forall2 (advanced 0) ms ms'.
Proof.
  revert ms' r. induction ms as [|m ms IH]; intros ms' r; simpl.
  - intros [= <- <-]. constructor.
  - destruct (step m) as [e|m'] eqn:Hm.
    + intros [= <- <-]. destruct (progress_refl (set_models (m :: ms) blank)) as (n & _ & HF).
      simpl in HF. eapply Forall2_impl; [done|]. intros ??. by apply advanced_le; lia.
    + destruct (step_all ms) as [rest r'] eqn:Hrest. intros [= <- <-].
      constructor; [|by eapply IH]. exists 1%nat. split; [lia|].
      unfold stepped. simpl. by rewrite Hm.
Qed.

(** One week: all models, then the counter. *)
Lemma week_progress s s' r :
  (step_models >> incr_t) s = (s', r) ->
  progress s s' /\ same_globals (set_t (t s') (set_models (models s') s)) s'
  /\ trace s' = trace s
  /\ (r = inr tt -> Forall2 (stepped 1) (models s) (models s') /\ t s' = S (t s)).
Proof.
  unfold bind, step_models, incr_t, modify.
  destruct (step_all (models s)) as [ms [e|[]]] eqn:Hs; intros [= <- <-]; simpl.
  - split; [|by repeat split]. exists 0%nat.
    split; [simpl; lia|by eapply step_all_advanced].
  - apply step_all_ok in Hs. split; [|by repeat split]. exists 1%nat.
    split; [simpl; lia|]. eapply Forall2_impl; [done|]. apply stepped_advanced.
Qed.

Lemma bind_assoc {A B C} (m : M A) (f : A -> M B) (g : B -> M C) s :
  bind (bind m f) g s = bind m (fun a => bind (f a) g) s.
Proof. unfold bind. by destruct (m s) as [s1 [e|a]]. Qed.

Lemma same_but_run_trans s1 s2 s3 :
  same_but_run s1 s2 -> same_but_run s2 s3 -> same_but_run s1 s3.
Proof. intros (?&?&?&?&?) (?&?&?&?&?). repeat split; congruence. Qed.

Lemma week_same s s' r : (step_models >> incr_t) s = (s', r) -> same_but_run s s'.
Proof.
  unfold bind, step_models, incr_t, modify.
  by destruct (step_all (models s)) as [ms [e|[]]]; intros [= <- <-].
Qed.

Lemma tick_loop_progress n s s' r :
  tick_loop n s = (s', r) -> progress s s' /\ same_but_run s s'.
Proof.
  revert s. induction n as [|n IH]; intros s; simpl.
  - intros [= <- <-]. split; [apply progress_refl|by repeat split].
  - rewrite <- bind_assoc. unfold bind at 1.
    destruct ((step_models >> incr_t) s) as [s1 [e|[]]] eqn:Hw;
      pose proof (week_same _ _ _ Hw) as Hsame;
      apply week_progress in Hw as (Hp & _).
    + by intros [= <- <-].
    + unfold bind, get. simpl. destruct (negb (running s1)).
      * by intros [= <- <-].
      * intros H. apply IH in H as [Hp' Hsame'].
        split; [by eapply progress_trans|by eapply same_but_run_trans].
Qed.

Lemma batch_steps_fuel_spec fuel max_t s s' r :
  batch_steps_fuel fuel max_t s = (s', r) ->
  progress s s' /\ same_but_run s s'
  /\ (r = inr tt -> exists n, t s' = (t s + n)%nat
        /\ Forall2 (stepped n) (models s) (models s')).
Proof.
  revert s. induction fuel as [|fuel IH]; intros s; simpl.
  - intros [= <- <-]. split; [apply progress_refl|]. split; [by repeat split|].
    intros _. exists 0%nat. split; [lia|apply Forall2_stepped_0].
  - unfold bind at 1, get. simpl. destruct (Z.of_nat (t s) <? max_t).
    + rewrite <- bind_assoc. unfold bind at 1.
      destruct ((step_models >> incr_t) s) as [s1 [e|[]]] eqn:Hw;
        pose proof (week_same _ _ _ Hw) as Hsame;
        apply week_progress in Hw as (Hp & _ & _ & Hok).
      * intros [= <- <-]. split; [done|]. split; [done|]. done.
      * intros H. apply IH in H as (Hp' & Hsame' & Hok').
        split; [by eapply progress_trans|]. split; [by eapply same_but_run_trans|].
        intros ->. destruct (Hok eq_refl) as [HF Ht], (Hok' eq_refl) as (n & Ht' & HF').
        exists (S n). split; [lia|]. by eapply Forall2_stepped_S_l.
    + intros [= <- <-]. split; [apply progress_refl|]. split; [by repeat split|].
      intros _. exists 0%nat. split; [lia|apply Forall2_stepped_0].
Qed.

(** The fuel [batch_steps] starts with is enough: when the loop returns, its
    condition [t < max_t] is false. *)
Lemma batch_steps_fuel_exit fuel max_t s s' :
  (max_t - Z.of_nat (t s) <= Z.of_nat fuel) ->
  batch_steps_fuel fuel max_t s = (s', inr tt) -> max_t <= Z.of_nat (t s').
Proof.
  revert s. induction fuel as [|fuel IH]; intros s Hfuel; simpl.
  - intros [= <-]. lia.
  - unfold bind at 1, get. simpl. destruct (Z.of_nat (t s) <? max_t) eqn:Hlt.
    + rewrite <- bind_assoc. unfold bind at 1.
      destruct ((step_models >> incr_t) s) as [s1 [e|[]]] eqn:Hw; [done|].
      apply week_progress in Hw as (_ & _ & _ & Hok). destruct (Hok eq_refl) as [_ Ht].
      apply IH. lia.
    + intros [= <-]. lia.
Qed.

Lemma batch_steps_spec max_t s s' r :
  batch_steps max_t s = (s', r) ->
  progress s s' /\ same_but_run s s'
  /\ (r = inr tt -> max_t <= Z.of_nat (t s')
        /\ exists n, t s' = (t s + n)%nat /\ Forall2 (stepped n) (models s) (models s')).
Proof.
  unfold batch_steps, bind at 1, get. simpl. intros H.
  pose proof (batch_steps_fuel_spec _ _ _ _ _ H) as (Hp & Hs & Hok).
  split; [done|]. split; [done|]. intros ->. split; [|by apply Hok].
  eapply batch_steps_fuel_exit; [|done]. lia.
Qed.

Lemma step_once_progress s s' r :
  step_once s = (s', r) ->
  progress s s' /\ (r = inr tt -> at_ceiling s = false ->
                     Forall2 (stepped 1) (models s) (models s') /\ t s' = S (t s)).
Proof.
  unfold step_once, bind at 1, get. simpl. destruct (at_ceiling s).
  - intros [= <- <-]. split; [apply progress_refl|done].
  - rewrite <- bind_assoc. unfold bind at 1.
    destruct ((step_models >> incr_t) s) as [s1 [e|[]]] eqn:Hw;
      apply week_progress in Hw as (Hp & _ & _ & Hok).
    + by intros [= <- <-].
    + unfold bind at 1, get. simpl. unfold bind at 1, emit, modify. simpl.
      intros H. apply redraw_current_calls in H as [-> Hc].
      pose proof Hc as [(? & Ht & Hm & _) _]. simpl in *.
      split.
      * eapply progress_trans; [done|]. apply only_calls_progress.
        eapply only_calls_trans; [|done]. by apply only_calls_effect.
      * intros _ _. rewrite Hm, Ht. by apply Hok.
Qed.

Lemma tick_progress s s' r : tick s = (s', r) -> progress s s'.
Proof.
  unfold tick, bind at 1, get. simpl.
  destruct (negb (running s) || at_ceiling s).
  - intros [= <- <-]. apply progress_refl.
  - unfold bind at 1.
    destruct (tick_loop _ s) as [s1 [e|[]]] eqn:Hl; apply tick_loop_progress in Hl as [Hp _].
    + by intros [= <- <-].
    + unfold bind at 1, get. simpl. unfold bind at 1, emit, modify. simpl.
      unfold bind at 1.
      destruct (redraw_current _) as [s2 r2] eqn:Hr.
      apply redraw_current_calls in Hr as [-> Hc].
      unfold bind, get. simpl. intros [= <- <-].
      eapply progress_trans; [done|]. apply only_calls_progress.
      eapply only_calls_trans;
        [|eapply only_calls_trans; [exact Hc|by apply only_calls_effect]].
      by apply only_calls_effect.
Qed.

Lemma progress_same_run s s' :
  t s' = t s -> models s' = models s -> progress s s'.
Proof.
  intros Ht Hm. destruct (progress_refl s) as (n & Hn & HF).
  exists n. by rewrite Ht, Hm.
Qed.

Lemma start_animation_progress s s' r : start_animation s = (s', r) -> progress s s'.
Proof.
  unfold start_animation, bind at 1, get. simpl. destruct (running s).
  - intros [= <- <-]. apply progress_refl.
  - unfold bind at 1, modify. simpl. intros H. apply tick_progress in H.
    eapply progress_trans; [|done]. by apply progress_same_run.
Qed.

Lemma export_frame output_dir s s' r :
  export_csv_raw_runs output_dir s = (s', r) ->
  t s' = t s /\ models s' = models s /\ inputs s' = inputs s
  /\ exists added, trace s' = trace s ++ added
       /\ Forall (fun e => is_skip e = false) added
       /\ ((exists pct, pct_of (prep_amount_input (inputs s)) = Some pct /\ r = inr tt
              /\ written_paths added = [export_path output_dir pct s])
           \/ (r <> inr tt /\ written_paths added = [])).
Proof.
  unfold pct_of.
  destruct (int_of_float (prep_amount_input (inputs s) * 100)%float) as [e|pct] eqn:Hpct.
  - rewrite (export_err _ _ _ Hpct). intros [= <- <-]. repeat split.
    exists [Mkdir (export_dir output_dir)]. split; [done|]. split; [by repeat constructor|].
    by right.
  - rewrite (export_ok _ _ _ Hpct). intros [= <- <-]. repeat split.
    eexists [_; _; _]. split; [unfold exported; simpl; by rewrite <- !app_assoc|].
    split; [by repeat constructor|]. left. by exists pct.
Qed.

(** The shared statements: either [create_models] raised, or the models are
    the ones it built. *)
Lemma rebuild_spec s s' r :
  rebuild s = (s', r) ->
  (only_calls s s' /\ r <> inr tt)
  \/ exists s1 ms, only_calls s s1
       /\ Forall2 (fun i m => NetworkModel (model_args (inputs s) i) = inr m)
            (range (iterations_input (inputs s))) ms
       /\ s' = set_models ms s1.
Proof.
  unfold rebuild, bind at 1.
  destruct (create_models s) as [s1 [e|ms]] eqn:Hc.
  - intros [= <- <-]. left. split; [by eapply create_models_frame|done].
  - pose proof (create_models_frame _ _ _ Hc) as Hf.
    apply create_models_inv in Hc as (_ & _ & _ & _ & _ & _ & HF).
    unfold bind at 1, modify. simpl. intros H. apply bind_model_frame in H as ->.
    right. by exists s1, ms.
Qed.

Lemma startup_rebuild s : startup s = bind rebuild (fun _ => redraw) s.
Proof.
  unfold startup, rebuild, bind.
  destruct (create_models s) as [s1 [e|ms]]; [done|]. simpl.
  by destruct (bind_model (set_models ms s1)) as [s2 [e|[]]].
Qed.

Lemma batch_try_rebuild mode_dir max_t s :
  batch_try mode_dir max_t s
  = bind rebuild (fun _ => batch_steps max_t >> export_csv_raw_runs (Some mode_dir)) s.
Proof.
  unfold batch_try, rebuild, bind.
  destruct (create_models s) as [s1 [e|ms]]; [done|]. simpl.
  by destruct (bind_model (set_models ms s1)) as [s2 [e|[]]].
Qed.

Lemma apply_settings_startup s :
  apply_settings s = startup (set_t 0 (set_running false s)).
Proof. reflexivity. Qed.

Lemma reset_model_startup s :
  reset_model s
  = startup (set_t 0 (set_inputs (restore_defaults (inputs s)) (set_running false s))).
Proof. reflexivity. Qed.

Lemma startup_spec s s' r :
  startup s = (s', r) ->
  (only_calls s s' /\ r <> inr tt)
  \/ exists s1 ms, only_calls s s1
       /\ Forall2 (fun i m => NetworkModel (model_args (inputs s) i) = inr m)
            (range (iterations_input (inputs s))) ms
       /\ (r = inr tt -> ms <> [])
       /\ only_calls (set_models ms s1) s'.
Proof.
  rewrite startup_rebuild. unfold bind at 1.
  destruct (rebuild s) as [s1 [e|[]]] eqn:Hr.
  - intros [= <- <-]. apply rebuild_spec in Hr as [[Hc _]|(s0 & ms & Hc & HF & ->)].
    + left. by split.
    + right. exists s0, ms. split; [done|]. split; [done|].
      split; [done|apply only_calls_refl].
  - pose proof (rebuild_spec _ _ _ Hr) as [[_ Hne]|(s0 & ms & Hc & HF & ->)]; [done|].
    intros H. apply redraw_frame in H as [-> Hc']. right. exists s0, ms.
    split; [done|]. split; [done|]. split; [|done]. intros _ ->. revert Hr. unfold rebuild, bind at 1.
    destruct (create_models s) as [s2 [e|ms']]; [done|].
    unfold bind at 1, modify. simpl. intros H. pose proof (bind_model_frame _ _ _ H) as E.
    assert (Hm : models (set_models ms' s2) = []) by (by rewrite <- E).
    simpl in Hm. subst ms'. revert H. unfold bind_model, bind, get, lift. simpl. done.
Qed.

(** *** An invariant of every session the main loop can reach *)

Section Recorded.

Variable P : Model -> Prop.
Hypothesis P_new : forall a m,
  NetworkModel a = inr m -> P m /\ (0 < length (states_per_time m))%nat.
Hypothesis P_step : forall m m',
  step m = inr m' -> P m ->
  P m' /\ length (states_per_time m') = S (length (states_per_time m)).

Lemma stepped_recorded k m m' :
  stepped k m m' -> P m ->
  P m' /\ length (states_per_time m') = (length (states_per_time m) + k)%nat.
Proof.
  revert m. induction k as [|k IH]; intros m; unfold stepped; simpl.
  - intros [= ->] ?. split; [done|lia].
  - destruct (step m) as [e|m1] eqn:Hm; [done|]. intros H HP.
    destruct (P_step _ _ Hm HP) as [HP1 Hl]. destruct (IH _ H HP1) as [? ?].
    split; [done|lia].
Qed.

Lemma progress_recorded s s' : recorded P s -> progress s s' -> recorded P s'.
Proof.
  unfold recorded. intros Hc (n & Ht & HF). rewrite Ht.
  revert Hc. induction HF as [|m m' ms ms' (k & Hk & Hm) _ IH]; intros Hc; [constructor|].
  inversion Hc as [|?? [HP Hl] Hrest]; subst. constructor; [|by apply IH].
  destruct (stepped_recorded _ _ _ Hm HP) as [? ?]. split; [done|lia].
Qed.

Lemma restart_recorded s : recorded P s -> recorded P (set_t 0 s).
Proof.
  unfold recorded. simpl. intros H. eapply Forall_impl; [exact H|].
  intros m [? ?]. split; [done|lia].
Qed.

Lemma fresh_recorded (l : list Z) ms inp s :
  t s = 0%nat ->
  Forall2 (fun i m => NetworkModel (model_args inp i) = inr m) l ms ->
  recorded P (set_models ms s).
Proof.
  intros Ht HF. unfold recorded. simpl. rewrite Ht.
  induction HF as [|i m l ms Hm _ IH]; constructor; [by eapply P_new|done].
Qed.

Lemma rebuild_recorded s s' r :
  t s = 0%nat -> recorded P s -> rebuild s = (s', r) -> recorded P s' /\ t s' = 0%nat.
Proof.
  intros Ht Hc H. apply rebuild_spec in H as [[Hcalls _]|(s1 & ms & Hcalls & HF & ->)].
  - split; [by eapply progress_recorded, only_calls_progress|].
    destruct Hcalls as [(_ & Ht' & _) _]. congruence.
  - destruct Hcalls as [(_ & Ht' & _) _].
    split; [eapply fresh_recorded; [congruence|done]|simpl; congruence].
Qed.

Lemma startup_recorded s s' r :
  t s = 0%nat -> recorded P s -> startup s = (s', r) -> recorded P s'.
Proof.
  intros Ht Hc H.
  apply startup_spec in H as [[Hcalls _]|(s1 & ms & Hcalls & HF & _ & Hcalls')].
  - by eapply progress_recorded, only_calls_progress.
  - destruct Hcalls as [(_ & Ht' & _) _].
    eapply progress_recorded; [|by apply only_calls_progress].
    eapply fresh_recorded; [congruence|done].
Qed.

Lemma batch_try_recorded mode_dir max_t s s' r :
  t s = 0%nat -> recorded P s -> batch_try mode_dir max_t s = (s', r) -> recorded P s'.
Proof.
  intros Ht Hc. rewrite batch_try_rebuild. unfold bind at 1. destruct (rebuild s) as [s1 [e|[]]] eqn:Hr;
    apply rebuild_recorded in Hr as [Hc1 _]; try done.
  - by intros [= <- <-].
  - unfold bind at 1. destruct (batch_steps max_t s1) as [s2 [e|[]]] eqn:Hb;
      apply batch_steps_spec in Hb as (Hp & _ & _);
      pose proof (progress_recorded _ _ Hc1 Hp) as Hc2.
    + by intros [= <- <-].
    + intros H. apply export_frame in H as (Ht' & Hm' & _).
      eapply progress_recorded; [done|]. by apply progress_same_run.
Qed.

Lemma same_run_recorded s s' :
  t s' = t s -> models s' = models s -> recorded P s -> recorded P s'.
Proof. intros Ht Hm Hc. eapply progress_recorded; [done|]. by apply progress_same_run. Qed.

Lemma batch_job_unfold mode mode_dir max_t total_jobs job prep_val s :
  batch_job mode mode_dir max_t total_jobs job prep_val s
  = try_except_ValueError (batch_try mode_dir max_t)
      (fun e => emit (Printed (Skipping mode prep_val e)))
      (batch_job_start mode total_jobs job prep_val s).
Proof. reflexivity. Qed.

Lemma batch_job_recorded mode mode_dir max_t total_jobs job prep_val s s' r :
  recorded P s ->
  batch_job mode mode_dir max_t total_jobs job prep_val s = (s', r) -> recorded P s'.
Proof.
  intros Hc. rewrite batch_job_unfold. unfold try_except_ValueError.
  assert (Hc0 : recorded P (batch_job_start mode total_jobs job prep_val s)).
  { unfold batch_job_start. eapply same_run_recorded; [| |by apply (restart_recorded s)]; done. }
  destruct (batch_try _ _ _) as [s1 [e|[]]] eqn:Ht;
    apply batch_try_recorded in Ht; try done.
  - destruct (is_ValueError e); intros [= <- <-]; [|done].
    by eapply same_run_recorded; [| |done].
  - by intros [= <- <-].
Qed.

Lemma batch_preps_recorded mode mode_dir max_t total_jobs job prep_values s s' r :
  recorded P s ->
  batch_preps mode mode_dir max_t total_jobs job prep_values s = (s', r) -> recorded P s'.
Proof.
  revert job s. induction prep_values as [|pv pvs IH]; intros job s Hc; simpl.
  - by intros [= <- <-].
  - unfold bind at 1.
    destruct (batch_job _ _ _ _ _ _ s) as [s1 [e|[]]] eqn:Hj;
      apply batch_job_recorded in Hj; try done.
    + by intros [= <- <-].
    + by apply IH.
Qed.

Lemma batch_modes_recorded cfg total_jobs job modes s s' r :
  recorded P s -> batch_modes cfg total_jobs job modes s = (s', r) -> recorded P s'.
Proof.
  revert job s. induction modes as [|mode modes IH]; intros job s Hc; simpl.
  - by intros [= <- <-].
  - unfold bind at 1, modify. simpl. unfold bind at 1, emit, modify. simpl.
    unfold bind at 1.
    destruct (batch_preps _ _ _ _ _ _ _) as [s1 [e|[]]] eqn:Hp;
      apply batch_preps_recorded in Hp; try done.
    + by intros [= <- <-].
    + by apply IH.
Qed.

Lemma batch_export_with_recorded cfg s s' r :
  recorded P s -> batch_export_with cfg s = (s', r) -> recorded P s'.
Proof.
  intros Hc. unfold batch_export_with.
  unfold bind at 1, modify. simpl. unfold bind at 1, modify. simpl.
  unfold bind at 1, emit, modify. simpl. unfold bind at 1.
  destruct (batch_modes _ _ _ _ _) as [s1 [e|[]]] eqn:Hm;
    apply batch_modes_recorded in Hm; try done.
  - by intros [= <- <-].
  - intros [= <- <-]. by eapply same_run_recorded; [| |done].
Qed.

Lemma callback_recorded ev s s' r :
  recorded P s -> callback ev s = (s', r) -> recorded P s'.
Proof.
  intros Hc. destruct ev; simpl.
  - intros H. eapply progress_recorded; [done|]. by apply step_once_progress in H as [? _].
  - intros H. eapply progress_recorded; [done|]. by eapply tick_progress.
  - intros H. eapply progress_recorded; [done|]. by eapply start_animation_progress.
  - intros [= <- <-]. by eapply same_run_recorded; [| |done].
  - rewrite apply_settings_startup. apply startup_recorded; [done|].
    eapply same_run_recorded; [| |by apply (restart_recorded s)]; done.
  - rewrite reset_model_startup. apply startup_recorded; [done|].
    eapply same_run_recorded; [| |by apply (restart_recorded s)]; done.
  - intros H. apply export_frame in H as (? & ? & _). by eapply same_run_recorded.
  - by apply batch_export_with_recorded.
  - intros [= <- <-]. by eapply same_run_recorded; [| |done].
  - intros [= <- <-]. by eapply same_run_recorded; [| |done].
  - intros [= <- <-]. by eapply same_run_recorded; [| |done].
Qed.

Lemma reachable_recorded s : reachable s -> recorded P s.
Proof.
  induction 1 as [s H|ev s _ IH].
  - eapply startup_recorded; [| |done]; [done|constructor].
  - unfold dispatch. destruct (callback ev s) as [s' r] eqn:Hcb. simpl.
    by eapply callback_recorded.
Qed.

End Recorded.

(** *** Lock step *)

Lemma skips_app s s' added :
  trace s' = trace s ++ added ->
  skips s' = (skips s + length (filter (fun e => is_skip e = true) added))%nat.
Proof. intros H. unfold skips. by rewrite H, filter_app, length_app. Qed.

Lemma skips_quiet added : quiet added -> filter (fun e => is_skip e = true) added = [].
Proof.
  induction 1 as [|e l [_ He] _ IH]; [done|].
  rewrite filter_cons_False by (by rewrite He). done.
Qed.

Lemma skips_no_skip added :
  Forall (fun e => is_skip e = false) added ->
  filter (fun e => is_skip e = true) added = [].
Proof.
  induction 1 as [|e l He _ IH]; [done|].
  rewrite filter_cons_False by (by rewrite He). done.
Qed.

Lemma skips_add_effect e s :
  skips (add_effect e s) = (skips s + (if is_skip e then 1 else 0))%nat.
Proof.
  unfold skips. simpl. rewrite filter_app, length_app. f_equal.
  destruct (is_skip e) eqn:He.
  - by rewrite filter_cons_True.
  - rewrite filter_cons_False; [done|]. by rewrite He.
Qed.

Lemma only_calls_skips s s' : only_calls s s' -> skips s' = skips s.
Proof.
  intros [_ (added & Ha & Hq)]. rewrite (skips_app _ _ _ Ha), (skips_quiet _ Hq).
  simpl. lia.
Qed.

Lemma fresh_stepped_add k n m m' :
  fresh_stepped k m -> stepped n m m' -> fresh_stepped (k + n) m'.
Proof.
  intros (a & m0 & Ha & Hk) Hn. exists a, m0. split; [done|]. by eapply stepped_add.
Qed.

Lemma lock_step_stepped n s s' :
  lock_step s -> Forall2 (stepped n) (models s) (models s') -> t s' = (t s + n)%nat ->
  lock_step s'.
Proof.
  unfold lock_step. intros Hl HF ->.
  induction HF as [|m m' ms ms' Hm _ IH]; [constructor|].
  inversion Hl; subst. constructor; [by eapply fresh_stepped_add|by apply IH].
Qed.

Lemma lock_step_same s s' :
  t s' = t s -> models s' = models s -> lock_step s -> lock_step s'.
Proof. unfold lock_step. by intros -> ->. Qed.

Lemma lock_step_fresh (l : list Z) ms inp s :
  t s = 0%nat ->
  Forall2 (fun i m => NetworkModel (model_args inp i) = inr m) l ms ->
  lock_step (set_models ms s).
Proof.
  intros Ht HF. unfold lock_step. simpl. rewrite Ht.
  induction HF as [|i m l ms Hm _ IH]; constructor; [|done].
  exists (model_args inp i), m. by split.
Qed.

Lemma startup_lock_step s s' :
  t s = 0%nat -> startup s = (s', inr tt) -> lock_step s' /\ skips s' = skips s.
Proof.
  intros Ht H.
  apply startup_spec in H as [[_ ?]|(s1 & ms & Hc & HF & _ & Hc')]; [done|].
  pose proof Hc as [(_ & Ht1 & _) _]. pose proof Hc' as [(_ & Ht' & Hm' & _) _].
  split.
  - eapply lock_step_same; [done|done|]. eapply lock_step_fresh; [congruence|done].
  - rewrite (only_calls_skips _ _ Hc'). simpl.
    change (skips (set_models ms s1)) with (skips s1). by apply only_calls_skips.
Qed.

Lemma batch_try_lock_step mode_dir max_t s s' r :
  t s = 0%nat -> batch_try mode_dir max_t s = (s', r) ->
  skips s' = skips s /\ (r = inr tt -> lock_step s').
Proof.
  intros Ht. rewrite batch_try_rebuild. unfold bind at 1.
  destruct (rebuild s) as [s1 [e|[]]] eqn:Hr.
  - intros [= <- <-]. split; [|done].
    apply rebuild_spec in Hr as [[Hc _]|(s0 & ms & Hc & _ & ->)];
      by apply only_calls_skips in Hc.
  - apply rebuild_spec in Hr as [[_ ?]|(s0 & ms & Hc & HF & ->)]; [done|].
    pose proof Hc as [(_ & Ht0 & _) _].
    assert (Hl : lock_step (set_models ms s0)) by (eapply lock_step_fresh; [congruence|done]).
    assert (Hk : skips (set_models ms s0) = skips s) by (by apply only_calls_skips in Hc).
    unfold bind at 1.
    destruct (batch_steps max_t _) as [s2 [e|[]]] eqn:Hb;
      apply batch_steps_spec in Hb as (_ & (_ & _ & _ & Htr & _) & Hok).
    + intros [= <- <-]. split; [|done]. unfold skips in *. by rewrite Htr.
    + destruct (Hok eq_refl) as (_ & n & Hn & HFn).
      intros H. apply export_frame in H as (Ht' & Hm' & _ & added & Ha & Hns & _).
      split.
      * rewrite (skips_app _ _ _ Ha), (skips_no_skip _ Hns). simpl.
        unfold skips in *. rewrite Htr. lia.
      * intros _. eapply lock_step_same; [done|done|]. by eapply lock_step_stepped.
Qed.

Lemma batch_job_lock_step mode mode_dir max_t total_jobs job prep_val s s' r :
  batch_job mode mode_dir max_t total_jobs job prep_val s = (s', r) ->
  (skips s <= skips s')%nat /\ (r = inr tt -> skips s' = skips s -> lock_step s').
Proof.
  rewrite batch_job_unfold. unfold try_except_ValueError.
  assert (H0 : skips (batch_job_start mode total_jobs job prep_val s) = skips s).
  { unfold batch_job_start. rewrite !skips_add_effect. simpl.
    change (skips (set_t 0 (set_inputs (set_prep_amount_input prep_val (inputs s)) s)))
      with (skips s). lia. }
  destruct (batch_try _ _ _) as [s1 [e|[]]] eqn:Ht;
    apply batch_try_lock_step in Ht as [Hk Hl]; try done.
  - destruct (is_ValueError e); intros [= <- <-].
    + rewrite skips_add_effect. simpl. split; [lia|]. intros _ ?. lia.
    + split; [lia|done].
  - intros [= <- <-]. split; [lia|]. intros _ _. by apply Hl.
Qed.

Lemma batch_preps_lock_step mode mode_dir max_t total_jobs job prep_values s s' r :
  batch_preps mode mode_dir max_t total_jobs job prep_values s = (s', r) ->
  (skips s <= skips s')%nat
  /\ (r = inr tt -> skips s' = skips s -> lock_step s -> lock_step s').
Proof.
  revert job s. induction prep_values as [|pv pvs IH]; intros job s; simpl.
  - intros [= <- <-]. split; [lia|done].
  - unfold bind at 1.
    destruct (batch_job _ _ _ _ _ _ s) as [s1 [e|[]]] eqn:Hj;
      apply batch_job_lock_step in Hj as [Hle Hl].
    + intros [= <- <-]. split; [lia|done].
    + intros H. apply IH in H as [Hle' Hl']. split; [lia|].
      intros Hr Hk _. apply Hl'; [done|lia|]. apply Hl; [done|lia].
Qed.

Lemma batch_modes_lock_step cfg total_jobs job modes s s' r :
  batch_modes cfg total_jobs job modes s = (s', r) ->
  (skips s <= skips s')%nat
  /\ (r = inr tt -> skips s' = skips s -> lock_step s -> lock_step s').
Proof.
  revert job s. induction modes as [|mode modes IH]; intros job s; simpl.
  - intros [= <- <-]. split; [lia|done].
  - unfold bind at 1, modify. simpl. unfold bind at 1, emit, modify. simpl.
    unfold bind at 1.
    destruct (batch_preps _ _ _ _ _ _ _) as [s1 [e|[]]] eqn:Hp;
      apply batch_preps_lock_step in Hp as [Hle Hl];
      rewrite skips_add_effect in Hle, Hl; simpl in Hle, Hl;
      change (skips (set_inputs (set_mode_var mode (inputs s)) s)) with (skips s) in Hle, Hl.
    + intros [= <- <-]. split; [lia|done].
    + intros H. apply IH in H as [Hle' Hl']. split; [lia|].
      intros Hr Hk Hs. apply Hl'; [done|lia|]. apply Hl; [done|lia|done].
Qed.

Lemma batch_export_with_lock_step cfg s s' :
  lock_step s -> batch_export_with cfg s = (s', inr tt) -> skips s' = skips s ->
  lock_step s'.
Proof.
  intros Hs. unfold batch_export_with.
  unfold bind at 1, modify. simpl. unfold bind at 1, modify. simpl.
  unfold bind at 1, emit, modify. simpl. unfold bind at 1.
  destruct (batch_modes _ _ _ _ _) as [s1 [e|[]]] eqn:Hm; [done|].
  apply batch_modes_lock_step in Hm as [Hle Hl].
  rewrite skips_add_effect in Hle, Hl. simpl in Hle, Hl.
  intros [= <-] Hk. rewrite skips_add_effect in Hk. simpl in Hk.
  eapply lock_step_same; [| |apply Hl]; try done.
  unfold skips in *. simpl in *. lia.
Qed.

Lemma callback_lock_step ev s s' :
  lock_step s -> callback ev s = (s', inr tt) -> skips s' = skips s -> lock_step s'.
Proof.
  intros Hs. destruct ev; simpl.
  - intros H _. destruct (at_ceiling s) eqn:Hc.
    + rewrite step_once_noop in H by done. by injection H as <-.
    + apply step_once_progress in H as [_ H]. destruct (H eq_refl Hc) as [HF Ht].
      eapply lock_step_stepped; [done|done|lia].
  - intros H _. apply tick_spec in H as (HF & Ht & _). by eapply lock_step_stepped.
  - intros H _. revert H. unfold start_animation, bind at 1, get. simpl.
    destruct (running s); [by intros [= <-]|].
    unfold bind at 1, modify. simpl. intros H.
    apply tick_spec in H as (HF & Ht & _). by eapply lock_step_stepped.
  - by intros [= <-] _.
  - rewrite apply_settings_startup. intros H _. by apply startup_lock_step in H as [? _].
  - rewrite reset_model_startup. intros H _. by apply startup_lock_step in H as [? _].
  - intros H _. apply export_frame in H as (? & ? & _). by eapply lock_step_same.
  - by apply batch_export_with_lock_step.
  - by intros [= <-] _.
  - by intros [= <-] _.
  - by intros [= <-] _.
Qed.

Section History.

Hypothesis new_history : forall a m,
  NetworkModel a = inr m -> length (states_per_time m) = 1%nat.
Hypothesis step_history : forall m m',
  step m = inr m' -> length (states_per_time m') = S (length (states_per_time m)).

Lemma stepped_history k m m' :
  stepped k m m' -> length (states_per_time m') = (length (states_per_time m) + k)%nat.
Proof.
  revert m. induction k as [|k IH]; intros m; unfold stepped; simpl.
  - intros [= ->]. lia.
  - destruct (step m) as [e|m1] eqn:Hm; [done|]. intros H.
    apply IH in H. rewrite H, (step_history _ _ Hm). lia.
Qed.

Lemma lock_step_all_at_week s : lock_step s -> all_at_week s.
Proof.
  unfold lock_step, all_at_week. intros H. eapply Forall_impl; [exact H|].
  intros m (a & m0 & Ha & Hk). rewrite (stepped_history _ _ _ Hk), (new_history _ _ Ha). lia.
Qed.

End History.

(** *** The files of a batch *)

Lemma written_paths_app a b : written_paths (a ++ b) = written_paths a ++ written_paths b.
Proof. unfold written_paths. apply omap_app. Qed.

Lemma written_paths_quiet added : quiet added -> written_paths added = [].
Proof.
  induction 1 as [|e l [He _] _ IH]; [done|]. unfold written_paths in *. simpl.
  by rewrite He.
Qed.

(** The inputs a file name is built from, the prep value apart. *)
Definition same_job_inputs (i i' : Inputs) : Prop :=
  mode_var i' = mode_var i /\ num_nodes_input i' = num_nodes_input i
  /\ network_seed_input i' = network_seed_input i
  /\ iterations_input i' = iterations_input i.

Lemma batch_try_paths mode_dir max_t s s' r :
  batch_try mode_dir max_t s = (s', r) ->
  inputs s' = inputs s
  /\ exists added, trace s' = trace s ++ added
       /\ (written_paths added = []
           \/ exists pct week ts, pct_of (prep_amount_input (inputs s)) = Some pct
                /\ written_paths added
                   = [path_join mode_dir
                        (filename (mode_var (inputs s)) pct week (num_nodes_input (inputs s))
                           (network_seed_input (inputs s)) (iterations_input (inputs s)) ts)]).
Proof.
  rewrite batch_try_rebuild. unfold bind at 1.
  destruct (rebuild s) as [s1 [e|[]]] eqn:Hr.
  - intros [= <- <-].
    apply rebuild_spec in Hr as [[Hc _]|(s0 & ms & Hc & _ & ->)];
      destruct Hc as [(_ & _ & _ & Hi & _) (added & Ha & Hq)];
      (split; [done|]); exists added; (split; [done|]); left;
      by apply written_paths_quiet.
  - apply rebuild_spec in Hr as [[_ ?]|(s0 & ms & Hc & _ & ->)]; [done|].
    destruct Hc as [(_ & _ & _ & Hi & _) (added & Ha & Hq)].
    unfold bind at 1.
    destruct (batch_steps max_t _) as [s2 [e|[]]] eqn:Hb;
      apply batch_steps_spec in Hb as (_ & (_ & Hi2 & _ & Htr & _) & _); simpl in *.
    + intros [= <- <-]. split; [congruence|]. exists added.
      split; [congruence|]. left. by apply written_paths_quiet.
    + intros H. apply export_frame in H as (_ & _ & Hi' & added' & Ha' & _ & Hw).
      split; [congruence|]. exists (added ++ added').
      split; [rewrite Ha', Htr, Ha; by rewrite app_assoc|].
      rewrite written_paths_app, (written_paths_quiet _ Hq). simpl.
      destruct Hw as [(pct & Hpct & _ & Hw)|[_ Hw]]; [|by left].
      right. exists pct, (t s2), (now (clock_reads s2)).
      rewrite Hi2, Hi in Hpct. split; [done|].
      rewrite Hw. unfold export_path. simpl. by rewrite Hi2, Hi.
Qed.

Lemma batch_job_paths mode mode_dir max_t total_jobs job prep_val s s' r :
  batch_job mode mode_dir max_t total_jobs job prep_val s = (s', r) ->
  same_job_inputs (inputs s) (inputs s')
  /\ exists added, trace s' = trace s ++ added
       /\ (written_paths added = []
           \/ exists pct week ts, pct_of prep_val = Some pct
                /\ written_paths added
                   = [path_join mode_dir
                        (filename (mode_var (inputs s)) pct week (num_nodes_input (inputs s))
                           (network_seed_input (inputs s)) (iterations_input (inputs s)) ts)]).
Proof.
  rewrite batch_job_unfold. unfold try_except_ValueError.
  set (head := [SetTitle (TitleBatch job total_jobs mode prep_val); UpdateIdletasks]).
  assert (Hstart : trace (batch_job_start mode total_jobs job prep_val s) = trace s ++ head).
  { unfold batch_job_start. simpl. by rewrite <- app_assoc. }
  assert (Hinp : inputs (batch_job_start mode total_jobs job prep_val s)
                 = set_prep_amount_input prep_val (inputs s)) by reflexivity.
  destruct (batch_try _ _ _) as [s1 r1] eqn:Ht.
  apply batch_try_paths in Ht as (Hi & added & Ha & Hw).
  rewrite Hinp in Hi, Hw. rewrite Hstart in Ha. cbn [set_prep_amount_input mode_var
    num_nodes_input network_seed_input iterations_input prep_amount_input] in Hw.
  assert (Hsame : same_job_inputs (inputs s) (inputs s1)) by (rewrite Hi; by repeat split).
  assert (Hhead : written_paths head = []) by reflexivity.
  destruct r1 as [e|[]]; [destruct (is_ValueError e)|]; intros [= <- <-].
  - split; [done|].
    exists (head ++ added ++ [Printed (Skipping mode prep_val e)]).
    split; [cbn [add_effect trace]; rewrite Ha; by rewrite <- !app_assoc|].
    rewrite !written_paths_app, Hhead. cbn [app]. rewrite app_nil_r. exact Hw.
  - split; [done|]. exists (head ++ added). split; [by rewrite Ha, <- app_assoc|].
    rewrite written_paths_app, Hhead. exact Hw.
  - split; [done|]. exists (head ++ added). split; [by rewrite Ha, <- app_assoc|].
    rewrite written_paths_app, Hhead. exact Hw.
Qed.

Lemma job_paths_nil dir mode nodes net_seed iters prep_values :
  job_paths dir mode nodes net_seed iters prep_values [].
Proof. exists []. split; [apply sublist_nil_l|constructor]. Qed.

Lemma job_paths_cons dir mode nodes net_seed iters pv pvs first rest :
  (first = []
   \/ exists pct week ts, pct_of pv = Some pct
        /\ first = [path_join dir (filename mode pct week nodes net_seed iters ts)]) ->
  job_paths dir mode nodes net_seed iters pvs rest ->
  job_paths dir mode nodes net_seed iters (pv :: pvs) (first ++ rest).
Proof.
  intros Hw (pcts & Hsub & HF).
  destruct Hw as [->|(pct & week & ts & Hpct & ->)].
  - exists pcts. split; [|done]. cbn [omap list_omap].
    change (omap pct_of (pv :: pvs)) with
      (match pct_of pv with Some p => p :: omap pct_of pvs | None => omap pct_of pvs end).
    destruct (pct_of pv); [by apply sublist_cons|done].
  - exists (pct :: pcts). split.
    + change (omap pct_of (pv :: pvs)) with
        (match pct_of pv with Some p => p :: omap pct_of pvs | None => omap pct_of pvs end).
      rewrite Hpct. by apply sublist_skip.
    + constructor; [by exists week, ts|done].
Qed.

Lemma batch_preps_paths mode mode_dir max_t total_jobs job prep_values s s' r :
  batch_preps mode mode_dir max_t total_jobs job prep_values s = (s', r) ->
  same_job_inputs (inputs s) (inputs s')
  /\ exists added, trace s' = trace s ++ added
       /\ job_paths mode_dir (mode_var (inputs s)) (num_nodes_input (inputs s))
            (network_seed_input (inputs s)) (iterations_input (inputs s))
            prep_values (written_paths added).
Proof.
  revert job s. induction prep_values as [|pv pvs IH]; intros job s; cbn [batch_preps].
  - intros [= <- <-]. split; [by repeat split|]. exists [].
    split; [by rewrite app_nil_r|]. apply job_paths_nil.
  - unfold bind at 1.
    destruct (batch_job _ _ _ _ _ _ s) as [s1 r1] eqn:Hj.
    apply batch_job_paths in Hj as ((Hm & Hn & Hs & Hi) & added & Ha & Hw).
    destruct r1 as [e|[]].
    + intros [= <- <-]. split; [by repeat split|]. exists added. split; [done|].
      rewrite <- (app_nil_r (written_paths added)).
      apply job_paths_cons; [done|apply job_paths_nil].
    + intros H. apply IH in H as ((Hm' & Hn' & Hs' & Hi') & added' & Ha' & Hjp).
      split; [repeat split; congruence|].
      exists (added ++ added'). split; [by rewrite Ha', Ha, app_assoc|].
      rewrite written_paths_app. rewrite Hm, Hn, Hs, Hi in Hjp.
      by apply job_paths_cons.
Qed.

(** Names built from different percentages are different names. *)
Lemma job_paths_NoDup dir mode nodes net_seed iters prep_values paths :
  job_paths dir mode nodes net_seed iters prep_values paths ->
  NoDup (omap pct_of prep_values) -> NoDup paths.
Proof.
  intros (pcts & Hsub & HF) Hnd. apply (sublist_NoDup _ _ Hnd) in Hsub. clear Hnd.
  rename Hsub into Hnd.
  induction HF as [|pct path pcts paths (week & ts & ->) HF IH]; [constructor|].
  apply NoDup_cons in Hnd as [Hnotin Hnd]. constructor; [|by apply IH].
  intros Hin. apply Hnotin.
  apply list_elem_of_lookup in Hin as [i Hi].
  destruct (Forall2_lookup_r _ _ _ _ _ HF Hi) as (pct' & Hp' & week' & ts' & E).
  apply path_join_inj, filename_inj in E as (-> & _).
  by eapply list_elem_of_lookup_2.
Qed.

Lemma batch_export_with_paths cfg mode s s' r :
  Batch.modes cfg = [mode] ->
  batch_export_with cfg s = (s', r) ->
  exists added, trace s' = trace s ++ added
    /\ job_paths (path_join "data" mode) mode (Batch.num_nodes cfg)
         (Batch.network_seed cfg) (Batch.iterations cfg) (Batch.prep_values cfg)
         (written_paths added).
Proof.
  intros Hmodes. unfold batch_export_with.
  unfold bind at 1, modify. simpl. unfold bind at 1, modify. simpl.
  unfold bind at 1, emit, modify. simpl. rewrite Hmodes. simpl.
  unfold bind at 1. unfold bind at 1, modify. simpl.
  unfold bind at 1, emit, modify. simpl. unfold bind at 1.
  destruct (batch_preps _ _ _ _ _ _ _) as [s1 r1] eqn:Hp.
  apply batch_preps_paths in Hp as (_ & added & Ha & Hj).
  cbn [inputs set_inputs add_effect set_running set_mode_var set_batch_inputs mode_var
       num_nodes_input network_seed_input iterations_input trace] in Ha, Hj.
  set (head := [Mkdir "data"; Mkdir (path_join "data" mode)]).
  assert (Hhead : written_paths head = []) by reflexivity.
  assert (Ha' : trace s1 = trace s ++ head ++ added) by (by rewrite Ha, <- !app_assoc).
  destruct r1 as [e|[]]; intros [= <- <-].
  - exists (head ++ added). split; [done|]. by rewrite written_paths_app, Hhead.
  - exists (head ++ added ++ [SetTitle TitleBatchDone]).
    split; [cbn [trace add_effect]; rewrite Ha'; by rewrite <- !app_assoc|].
    rewrite !written_paths_app, Hhead. cbn [app]. by rewrite app_nil_r.
Qed.

Lemma batch_config_pcts :
  omap pct_of (Batch.prep_values batch_config) = [10; 20; 30; 40; 50; 60; 70; 80; 90; 100].
Proof. vm_compute. reflexivity. Qed.

(** *** The claims about the loop, the batch and the file names *)

(** C5. A [tick] that returns has stepped every model the same number of
    times, [tick_weeks], and has advanced the week counter by that number:
    each week of its loop steps all models before the counter moves, and the
    running flag is only looked at between weeks.  The counter does not pass
    the max-timesteps value (it stays where it was when it had already reached
    it), a tick covers at most [max(1, steps per update)] weeks, and with the
    running flag cleared the tick changes nothing. *)
Theorem tick_lock_step s s' :
  tick s = (s', inr tt) ->
  Forall2 (stepped (tick_weeks s)) (models s) (models s')
  /\ t s' = (t s + tick_weeks s)%nat
  /\ Z.of_nat (t s') <= Z.max (Z.of_nat (t s)) (max_t_input (inputs s))
  /\ Z.of_nat (tick_weeks s) <= Z.max 1 (steps_per_update_input (inputs s))
  /\ (running s = false -> s' = s).
Proof. apply tick_spec. Qed.

(** X13. The [except] clause of a batch job catches [ValueError] only: an
    exception of another class raised inside the [try] block leaves the job
    and the loop over the prep values with it, so the jobs that remain are not
    run and no skip message is printed. *)
Lemma batch_job_propagates mode mode_dir max_t total_jobs job prep_val rest s s1 e :
  batch_try mode_dir max_t (batch_job_start mode total_jobs job prep_val s) = (s1, inl e) ->
  is_ValueError e = false ->
  batch_preps mode mode_dir max_t total_jobs job (prep_val :: rest) s = (s1, inl e).
Proof.
  intros Htry He. simpl. erewrite bind_err; [done|].
  rewrite batch_job_unfold. unfold try_except_ValueError. by rewrite Htry, He.
Qed.


(** *** When a step or a constructor raises *)

(** [for m in models: m.step()] stopped by an exception: the models before the
    one whose step raised have been stepped once, that one and the models
    after it are as they were. *)
Lemma step_all_raises ms ms' e :
  step_all ms = (ms', inl e) ->
  exists pre m post pre', ms = pre ++ m :: post /\ ms' = pre' ++ m :: post
    /\ Forall2 (stepped 1) pre pre' /\ step m = inl e.
Proof.
  revert ms'. induction ms as [|m ms IH]; intros ms'; simpl; [done|].
  destruct (step m) as [e'|m'] eqn:Hm.
  - intros [= <- <-]. exists [], m, ms, []. repeat split; [constructor|done].
  - destruct (step_all ms) as [rest r] eqn:Hrest. intros [= <- ->].
    destruct (IH _ eq_refl) as (pre & m0 & post & pre' & -> & -> & HF & Hm0).
    exists (m :: pre), m0, post, (m' :: pre'). repeat split; [|done].
    constructor; [|done]. unfold stepped. simpl. by rewrite Hm.
Qed.

(** [create_models] with nothing to create. *)
Lemma create_models_no_runs s :
  iterations_input (inputs s) <= 0 ->
  create_models s
  = (add_effect (SetTitle (TitleReady (iterations_input (inputs s)))) s, inr []).
Proof.
  intros Hk. unfold create_models, bind at 1, get. simpl.
  assert (E : range (iterations_input (inputs s)) = []).
  { unfold range, seqZ. by replace (Z.to_nat (iterations_input (inputs s))) with 0%nat by lia. }
  rewrite E. reflexivity.
Qed.

(** X3. With an iterations field of 0 or less, [apply_settings] builds no model,
    assigns the empty list to [models] and raises [IndexError] at
    [models[0]]: the session is left at week 0 without any run, and nothing is
    drawn. *)
Theorem apply_settings_no_runs s :
  iterations_input (inputs s) <= 0 ->
  apply_settings s
  = (set_models []
       (add_effect (SetTitle (TitleReady (iterations_input (inputs s))))
          (set_t 0 (set_running false s))),
     inl (IndexError "list index out of range")).
Proof.
  intros Hk. unfold apply_settings, bind at 1, modify. simpl.
  unfold bind at 1. simpl. unfold bind at 1.
  rewrite create_models_no_runs by done. reflexivity.
Qed.

(** *** The animation *)

Lemma redraw_current_trace s :
  redraw_current s
  = (add_effect (match current_view s with network => Redraw | stats => RedrawStats end) s,
     inr tt).
Proof.
  unfold redraw_current, redraw, redraw_stats. run.
  destruct (current_view s) eqn:Hv; run; by rewrite ?Hv.
Qed.

Lemma tick_running s s' r : tick s = (s', r) -> running s' = running s.
Proof.
  unfold tick, bind at 1, get. simpl.
  destruct (negb (running s) || at_ceiling s); [by intros [= <- <-]|].
  unfold bind at 1.
  destruct (tick_loop _ s) as [s1 [e|[]]] eqn:Hl;
    apply tick_loop_progress in Hl as [_ (Hrun & _)].
  - by intros [= <- <-].
  - unfold bind at 1, get. simpl. unfold bind at 1, emit, modify. simpl.
    unfold bind at 1. rewrite redraw_current_trace.
    unfold bind, get. simpl. by intros [= <- <-].
Qed.

(** X4. START pressed twice: whatever the first call did, it leaves the running
    flag set ([tick] never clears it, not even at the ceiling), so a second
    call returns at once and starts no second chain of ticks. *)
Theorem start_animation_once s :
  running (fst (start_animation s)) = true
  /\ start_animation (fst (start_animation s)) = (fst (start_animation s), inr tt).
Proof.
  assert (H : running (fst (start_animation s)) = true).
  { unfold start_animation, bind at 1, get. simpl. destruct (running s) eqn:Hr; [done|].
    unfold bind at 1, modify. simpl.
    destruct (tick (set_running true s)) as [s' r] eqn:Ht.
    apply tick_running in Ht. done. }
  split; [done|]. revert H. generalize (fst (start_animation s)). intros s' H.
  unfold start_animation, bind at 1, get. simpl. by rewrite H.
Qed.

(** X5. A [tick] that returns has either been stopped by its guard (paused, or at
    the ceiling) and then made no outside call at all, or has set the title to
    the new week, drawn the plot in view, and scheduled exactly one further
    tick after the delay of the delay field. *)
Theorem tick_schedules s s' :
  tick s = (s', inr tt) ->
  trace s' = trace s ++
    (if negb (running s) || at_ceiling s then []
     else [SetTitle (TitleWeek (t s'));
           match current_view s with network => Redraw | stats => RedrawStats end;
           After (delay_input (inputs s))]).
Proof.
  unfold tick, bind at 1, get. simpl.
  destruct (negb (running s) || at_ceiling s) eqn:Hgo.
  - intros [= <-]. by rewrite app_nil_r.
  - apply orb_false_iff in Hgo as [Hrun Hc]. apply negb_false_iff in Hrun.
    unfold bind at 1.
    destruct (tick_loop _ s) as [s1 [e|[]]] eqn:Hl; [done|].
    apply tick_loop_ok in Hl as (_ & _ & _ & Hin & Htr & Hv & _); [|done].
    unfold bind at 1, get. simpl. unfold bind at 1, emit, modify. simpl.
    unfold bind at 1. rewrite redraw_current_trace.
    unfold bind, get. simpl. intros [= <-]. simpl.
    rewrite Htr, Hv, Hin. by rewrite <- !app_assoc.
Qed.

(** X6. With a steps-per-update field of 1 or less, a tick of a running session
    below the ceiling is one [step_once] followed by the scheduling of the
    next tick, whether the step raises or not. *)
Theorem tick_single_step s :
  running s = true -> at_ceiling s = false -> steps_per_update_input (inputs s) <= 1 ->
  tick s = (step_once >> (let* s1 := get in emit (After (delay_input (inputs s1))))) s.
Proof.
  intros Hrun Hc Hspu. unfold tick, step_once, bind at 1, get. simpl.
  rewrite Hrun, Hc. simpl.
  assert (E : Z.to_nat (tick_steps s) = 1%nat).
  { unfold tick_steps. unfold at_ceiling in Hc. apply Z.leb_gt in Hc. lia. }
  rewrite E. cbn [tick_loop].
  unfold bind, get, step_models, incr_t, modify, emit, ret. simpl. rewrite Hc.
  destruct (step_all (models s)) as [ms [e|[]]]; simpl; [done|].
  rewrite Hrun. simpl. rewrite !redraw_current_trace. reflexivity.
Qed.

(** *** The loop of a batch job *)

Lemma batch_steps_fuel_exact fuel max_t s s' :
  max_t - Z.of_nat (t s) <= Z.of_nat fuel ->
  batch_steps_fuel fuel max_t s = (s', inr tt) ->
  t s' = Z.to_nat (Z.max (Z.of_nat (t s)) max_t)
  /\ Forall2 (stepped (t s' - t s)) (models s) (models s').
Proof.
  revert s. induction fuel as [|fuel IH]; intros s Hfuel; simpl.
  - intros [= <-]. split; [lia|]. rewrite Nat.sub_diag. apply Forall2_stepped_0.
  - unfold bind at 1, get. simpl. destruct (Z.of_nat (t s) <? max_t) eqn:Hlt.
    + apply Z.ltb_lt in Hlt. rewrite <- bind_assoc. unfold bind at 1.
      destruct ((step_models >> incr_t) s) as [s1 [e|[]]] eqn:Hw; [done|].
      apply week_progress in Hw as (_ & _ & _ & Hok). destruct (Hok eq_refl) as [HF Ht].
      intros H. apply IH in H as [Ht' HF']; [|lia].
      split; [lia|]. replace (t s' - t s)%nat with (S (t s' - t s1)) by lia.
      by eapply Forall2_stepped_S_l.
    + apply Z.ltb_ge in Hlt. intros [= <-]. split; [lia|].
      rewrite Nat.sub_diag. apply Forall2_stepped_0.
Qed.

(** X7. The [while t < max_t] loop of a batch job, when no step raises, leaves the
    week counter at [max(t, max_t)] and has stepped every model exactly as many
    times as the counter moved; it sets no title, draws nothing and leaves the
    inputs alone. *)
Theorem batch_steps_exact max_t s s' :
  batch_steps max_t s = (s', inr tt) ->
  t s' = Z.to_nat (Z.max (Z.of_nat (t s)) max_t)
  /\ Forall2 (stepped (t s' - t s)) (models s) (models s')
  /\ same_but_run s s'.
Proof.
  intros H. pose proof (batch_steps_spec _ _ _ _ H) as (_ & Hsame & _).
  revert H. unfold batch_steps, bind at 1, get. simpl. intros H.
  apply batch_steps_fuel_exact in H as [Ht HF]; [done|lia].
Qed.

(** *** What a batch leaves behind *)

(** The jobs a stretch of the trace accounts for: one per file written and
    one per skip message. *)
Definition settled (added : list effect) : nat :=
  (length (written_paths added) + length (filter (fun e => is_skip e = true) added))%nat.

Lemma settled_app a b : settled (a ++ b) = (settled a + settled b)%nat.
Proof.
  unfold settled. rewrite written_paths_app, filter_app, !length_app. lia.
Qed.

Lemma settled_no_skip added :
  Forall (fun e => is_skip e = false) added -> settled added = length (written_paths added).
Proof. intros H. unfold settled. rewrite (skips_no_skip _ H). simpl. lia. Qed.

Lemma quiet_no_skip added : quiet added -> Forall (fun e => is_skip e = false) added.
Proof. intros H. eapply Forall_impl; [exact H|]. by intros e [_ ?]. Qed.

(** The [try] block writes exactly one file when it returns and none when it
    raises, and prints no skip message itself. *)
Lemma batch_try_outcome mode_dir max_t s s' r :
  batch_try mode_dir max_t s = (s', r) ->
  running s' = running s /\ inputs s' = inputs s
  /\ exists added, trace s' = trace s ++ added
       /\ settled added = (if is_ok r then 1 else 0)%nat.
Proof.
  rewrite batch_try_rebuild. unfold bind at 1.
  destruct (rebuild s) as [s1 [e|[]]] eqn:Hr.
  - intros [= <- <-].
    apply rebuild_spec in Hr as [[Hc _]|(s0 & ms & Hc & _ & ->)];
      destruct Hc as [(Hrun & _ & _ & Hi & _) (added & Ha & Hq)];
      (split; [done|]); (split; [done|]); exists added; (split; [done|]);
      rewrite (settled_no_skip _ (quiet_no_skip _ Hq)); by rewrite (written_paths_quiet _ Hq).
  - apply rebuild_spec in Hr as [[_ ?]|(s0 & ms & Hc & _ & ->)]; [done|].
    destruct Hc as [(Hrun & _ & _ & Hi & _) (added & Ha & Hq)].
    pose proof (settled_no_skip _ (quiet_no_skip _ Hq)) as Hq'.
    rewrite (written_paths_quiet _ Hq) in Hq'. simpl in Hq'.
    unfold bind at 1.
    destruct (batch_steps max_t _) as [s2 [e|[]]] eqn:Hb;
      apply batch_steps_spec in Hb as (_ & (Hrun2 & Hi2 & _ & Htr & _) & _); simpl in *.
    + intros [= <- <-]. split; [congruence|]. split; [congruence|]. exists added.
      split; [congruence|done].
    + destruct (int_of_float (prep_amount_input (inputs s2) * 100)%float) as [e|pct] eqn:Hpct.
      * rewrite (export_err _ _ _ Hpct). intros [= <- <-]. simpl.
        split; [congruence|]. split; [congruence|].
        exists (added ++ [Mkdir mode_dir]).
        split; [rewrite Htr, Ha; by rewrite <- app_assoc|].
        rewrite settled_app, Hq'. reflexivity.
      * rewrite (export_ok _ _ _ Hpct). intros [= <- <-]. unfold exported. simpl.
        split; [congruence|]. split; [congruence|].
        eexists (added ++ [_; _; _]).
        split; [rewrite Htr, Ha; by rewrite <- !app_assoc|].
        rewrite settled_app, Hq'. reflexivity.
Qed.

(** The inputs two sessions share when only the prep field and the mode menu
    may differ. *)
Definition same_but_job (i i' : Inputs) : Prop :=
  num_nodes_input i' = num_nodes_input i /\ delay_input i' = delay_input i
  /\ initial_outbreak_prop_input i' = initial_outbreak_prop_input i
  /\ seed_input i' = seed_input i /\ use_seed_var i' = use_seed_var i
  /\ network_seed_input i' = network_seed_input i /\ max_t_input i' = max_t_input i
  /\ iterations_input i' = iterations_input i
  /\ steps_per_update_input i' = steps_per_update_input i.

Lemma same_but_job_trans i1 i2 i3 :
  same_but_job i1 i2 -> same_but_job i2 i3 -> same_but_job i1 i3.
Proof.
  intros (?&?&?&?&?&?&?&?&?) (?&?&?&?&?&?&?&?&?). repeat split; congruence.
Qed.

(** One job settles one job when it returns: a file or a skip message. *)
Lemma batch_job_outcome mode mode_dir max_t total_jobs job prep_val s s' r :
  batch_job mode mode_dir max_t total_jobs job prep_val s = (s', r) ->
  running s' = running s /\ same_but_job (inputs s) (inputs s')
  /\ exists added, trace s' = trace s ++ added
       /\ settled added = (if is_ok r then 1 else 0)%nat.
Proof.
  rewrite batch_job_unfold. unfold try_except_ValueError.
  set (head := [SetTitle (TitleBatch job total_jobs mode prep_val); UpdateIdletasks]).
  assert (Hstart : trace (batch_job_start mode total_jobs job prep_val s) = trace s ++ head).
  { unfold batch_job_start. simpl. by rewrite <- app_assoc. }
  assert (Hhead : settled head = 0%nat) by reflexivity.
  destruct (batch_try _ _ _) as [s1 r1] eqn:Ht.
  apply batch_try_outcome in Ht as (Hrun & Hi & added & Ha & Hset).
  rewrite Hstart in Ha.
  assert (Hsame : same_but_job (inputs s) (inputs s1)) by (rewrite Hi; by repeat split).
  destruct r1 as [e|[]]; [destruct (is_ValueError e)|]; intros [= <- <-];
    (split; [done|]); (split; [done|]).
  - exists (head ++ added ++ [Printed (Skipping mode prep_val e)]).
    split; [cbn [add_effect trace]; rewrite Ha; by rewrite <- !app_assoc|].
    rewrite !settled_app, Hhead, Hset. reflexivity.
  - exists (head ++ added). split; [by rewrite Ha, <- app_assoc|].
    by rewrite settled_app, Hhead, Hset.
  - exists (head ++ added). split; [by rewrite Ha, <- app_assoc|].
    by rewrite settled_app, Hhead, Hset.
Qed.

Lemma batch_preps_outcome mode mode_dir max_t total_jobs job prep_values s s' r :
  batch_preps mode mode_dir max_t total_jobs job prep_values s = (s', r) ->
  running s' = running s /\ same_but_job (inputs s) (inputs s')
  /\ exists added, trace s' = trace s ++ added
       /\ (r = inr tt -> settled added = length prep_values).
Proof.
  revert job s. induction prep_values as [|pv pvs IH]; intros job s; cbn [batch_preps].
  - intros [= <- <-]. split; [done|]. split; [by repeat split|]. exists [].
    split; [by rewrite app_nil_r|done].
  - unfold bind at 1.
    destruct (batch_job _ _ _ _ _ _ s) as [s1 r1] eqn:Hj.
    apply batch_job_outcome in Hj as (Hrun & Hsame & added & Ha & Hset).
    destruct r1 as [e|[]].
    + intros [= <- <-]. split; [done|]. split; [done|]. exists added. by split.
    + intros H. apply IH in H as (Hrun' & Hsame' & added' & Ha' & Hset').
      split; [congruence|]. split; [by eapply same_but_job_trans|].
      exists (added ++ added'). split; [by rewrite Ha', Ha, app_assoc|].
      intros Hr. rewrite settled_app, Hset, (Hset' Hr). simpl. lia.
Qed.

Lemma batch_modes_outcome cfg total_jobs job modes s s' r :
  batch_modes cfg total_jobs job modes s = (s', r) ->
  running s' = running s /\ same_but_job (inputs s) (inputs s')
  /\ exists added, trace s' = trace s ++ added
       /\ (r = inr tt ->
           settled added = (length modes * length (Batch.prep_values cfg))%nat).
Proof.
  revert job s. induction modes as [|mode modes IH]; intros job s; cbn [batch_modes].
  - intros [= <- <-]. split; [done|]. split; [by repeat split|]. exists [].
    split; [by rewrite app_nil_r|done].
  - unfold bind at 1, modify. simpl. unfold bind at 1, emit, modify. simpl.
    unfold bind at 1.
    destruct (batch_preps _ _ _ _ _ _ _) as [s1 r1] eqn:Hp.
    apply batch_preps_outcome in Hp as (Hrun & Hsame & added & Ha & Hset).
    cbn [running inputs trace add_effect set_inputs] in Hrun, Hsame, Ha.
    assert (Hsame1 : same_but_job (inputs s) (inputs s1)).
    { eapply same_but_job_trans; [|exact Hsame]. by repeat split. }
    destruct r1 as [e|[]].
    + intros [= <- <-]. split; [done|]. split; [done|].
      exists ([Mkdir (path_join "data" mode)] ++ added).
      split; [by rewrite Ha, <- app_assoc|done].
    + intros H. apply IH in H as (Hrun' & Hsame' & added' & Ha' & Hset').
      split; [congruence|]. split; [by eapply same_but_job_trans|].
      exists (([Mkdir (path_join "data" mode)] ++ added) ++ added').
      split; [rewrite Ha', Ha; by rewrite <- !app_assoc|].
      intros Hr. rewrite !settled_app, (Hset eq_refl), (Hset' Hr).
      change (settled [Mkdir (path_join "data" mode)]) with 0%nat. simpl. lia.
Qed.


End Session.

(** ** Events dispatched by [window.update()]

    [create_models] calls [window.update()] before every constructor call.
    Tk then runs the callbacks of the events that are pending: clicks on the
    buttons, edits of the fields, timers that are due.  The session code above
    is the code as it runs when nothing is pending at those calls; module
    [Live] is the same code with the pending events dispatched. *)

Module Live.

Section Live.

Context {Model : Type}.
Variable NetworkModel : ModelArgs -> result Model.
Variable step : Model -> result Model.
Variable states_per_time : Model -> list Snapshot.
Variable now : nat -> string.

(** The events Tk finds pending when [window.update()] is called with the
    globals as they are in [s], in the order it dispatches them.  The trace
    of a session grows with every call, so the events may differ from call to
    call. *)
Variable pending : @Session Model -> list event.

Local Notation "'let*' x ':=' m 'in' k" := (bind m (fun x => k))
  (at level 10, x name, m at level 100, k at level 200).
Local Notation "m >> k" := (bind m (fun _ => k))
  (at level 90, right associativity).

(** Tk calls a callback inside a [try] of its own: an exception that leaves
    the callback is reported on the console and goes no further. *)
Definition reported (m : @M Model unit) : M unit :=
  fun s => (fst (m s), inr tt).

Section Callbacks.

(** [window.update()] *)
Variable update : @M Model unit.

Definition create_models : M (list Model) :=
  let* s0 := get in
  let k := iterations_input (inputs s0) in
  let* ms := collect (range k) (fun i =>
    emit (SetTitle (TitleCreating (i + 1) k)) >>
    update >>
    let* s := get in
    lift (NetworkModel (model_args (inputs s) i))) in
  emit (SetTitle (TitleReady k)) >>
  ret ms.

Definition apply_settings : M unit :=
  modify (set_running false) >>
  modify (set_t 0) >>
  let* ms := create_models in
  modify (set_models ms) >>
  bind_model >>
  redraw.

Definition reset_model : M unit :=
  modify (set_running false) >>
  modify (fun s => set_inputs (restore_defaults (inputs s)) s) >>
  modify (set_t 0) >>
  let* ms := create_models in
  modify (set_models ms) >>
  bind_model >>
  redraw.

Definition startup : M unit :=
  let* ms := create_models in
  modify (set_models ms) >>
  bind_model >>
  redraw.

Definition batch_try (mode_dir : string) (max_t : Z) : M unit :=
  let* ms := create_models in
  modify (set_models ms) >>
  bind_model >>
  batch_steps step max_t >>
  export_csv_raw_runs states_per_time now (Some mode_dir).

Definition batch_job (mode mode_dir : string) (max_t : Z) (total_jobs : nat)
    (job : nat) (prep_val : float) : M unit :=
  modify (fun s => set_inputs (set_prep_amount_input prep_val (inputs s)) s) >>
  modify (set_t 0) >>
  emit (SetTitle (TitleBatch job total_jobs mode prep_val)) >>
  emit UpdateIdletasks >>
  try_except_ValueError
    (batch_try mode_dir max_t)
    (fun e => emit (Printed (Skipping mode prep_val e))).

Fixpoint batch_preps (mode mode_dir : string) (max_t : Z) (total_jobs : nat)
    (job : nat) (prep_values : list float) : M unit :=
  match prep_values with
  | [] => ret tt
  | prep_val :: rest =>
      batch_job mode mode_dir max_t total_jobs job prep_val >>
      batch_preps mode mode_dir max_t total_jobs (S job) rest
  end.

Fixpoint batch_modes (cfg : Batch.Config) (total_jobs : nat) (job : nat)
    (modes : list string) : M unit :=
  match modes with
  | [] => ret tt
  | mode :: rest =>
      modify (fun s => set_inputs (set_mode_var mode (inputs s)) s) >>
      let mode_dir := path_join "data" mode in
      emit (Mkdir mode_dir) >>
      batch_preps mode mode_dir (Batch.max_t cfg) total_jobs job (Batch.prep_values cfg) >>
      batch_modes cfg total_jobs (job + length (Batch.prep_values cfg))%nat rest
  end.

Definition batch_export_with (cfg : Batch.Config) : M unit :=
  modify (set_running false) >>
  modify (fun s => set_inputs
    (set_batch_inputs (Batch.max_t cfg) (Batch.iterations cfg) (Batch.num_nodes cfg)
       (Batch.network_seed cfg) (inputs s)) s) >>
  emit (Mkdir "data") >>
  let total_jobs := (length (Batch.modes cfg) * length (Batch.prep_values cfg))%nat in
  batch_modes cfg total_jobs 1%nat (Batch.modes cfg) >>
  emit (SetTitle TitleBatchDone).

Definition batch_export : M unit := batch_export_with batch_config.

Definition callback (ev : event) : M unit :=
  match ev with
  | EvStep => step_once step
  | EvTick => tick step
  | EvStart => start_animation step
  | EvPause => stop_animation
  | EvApply => apply_settings
  | EvDefault => reset_model
  | EvExport => export_csv_raw_runs states_per_time now None
  | EvBatch cfg => batch_export_with cfg
  | EvNetworkView => show_network_plot
  | EvStatsView => show_stats_plot
  | EvInput i => modify (set_inputs i)
  end.

End Callbacks.

(** [window.update()]: the call is recorded, then the callbacks of the pending
    events run one after the other.  A callback may itself reach
    [window.update()]; [depth] bounds how deep such calls nest, and at depth 0
    nothing is pending any more. *)
Fixpoint window_update (depth : nat) : M unit :=
  emit Update >>
  match depth with
  | O => ret tt
  | S d =>
      let* s := get in
      for_each (pending s) (fun ev => reported (callback (window_update d) ev))
  end.

(** The main loop: a click or a timer runs its callback, with the events that
    become pending while it runs dispatched by its [window.update()] calls. *)
Definition dispatch (depth : nat) (ev : event) (s : Session) : Session :=
  fst (callback (window_update depth) ev s).

Inductive reachable : Session -> Prop :=
| reachable_startup depth s :
    startup (window_update depth) blank = (s, inr tt) -> reachable s
| reachable_dispatch depth ev s : reachable s -> reachable (dispatch depth ev s).

(** *** What the dispatched callbacks leave alone *)

(** The callbacks that neither step nor rebuild. *)
Definition harmless (ev : event) : bool :=
  match ev with
  | EvPause | EvExport | EvNetworkView | EvStatsView | EvInput _ => true
  | _ => false
  end.

(** The callbacks that change no field and do not rebuild. *)
Definition keeps_fields (ev : event) : bool :=
  match ev with
  | EvStep | EvTick | EvStart | EvPause | EvExport | EvNetworkView | EvStatsView => true
  | _ => false
  end.

(** [s'] has the week counter, the models and the number of skipped jobs of
    [s]. *)
Definition same_run (s s' : @Session Model) : Prop :=
  t s' = t s /\ models s' = models s /\ skips s' = skips s.

Lemma same_run_refl s : same_run s s.
Proof. by repeat split. Qed.

Lemma same_run_trans s1 s2 s3 : same_run s1 s2 -> same_run s2 s3 -> same_run s1 s3.
Proof. intros (?&?&?) (?&?&?). repeat split; congruence. Qed.

Lemma only_calls_same_run s s' : only_calls s s' -> same_run s s'.
Proof.
  intros Hc. pose proof (only_calls_skips _ _ Hc) as Hk.
  destruct Hc as [(_ & Ht & Hm & _) _]. by repeat split.
Qed.

Lemma same_run_effect e s : is_skip e = false -> same_run s (add_effect e s).
Proof.
  intros He. repeat split. rewrite skips_add_effect, He. lia.
Qed.

Lemma harmless_same_run update ev s s' r :
  harmless ev = true -> callback update ev s = (s', r) -> same_run s s'.
Proof.
  destruct ev; try done; intros _; cbn [callback].
  - intros [= <- <-]. by repeat split.
  - intros H. apply export_frame in H as (Ht & Hm & _ & added & Ha & Hns & _).
    repeat split; [done|done|].
    rewrite (skips_app _ _ _ Ha), (skips_no_skip _ Hns). simpl. lia.
  - intros [= <- <-]. by repeat split.
  - unfold show_stats_plot, redraw_stats, bind, modify, emit. simpl.
    intros [= <- <-]. split; [done|]. split; [done|].
    rewrite skips_add_effect. simpl.
    change (skips (set_current_view stats s)) with (skips s). lia.
  - intros [= <- <-]. by repeat split.
Qed.

Lemma step_once_inputs s s' r : step_once step s = (s', r) -> inputs s' = inputs s.
Proof.
  unfold step_once, bind at 1, get. simpl. destruct (at_ceiling s); [by intros [= <- <-]|].
  rewrite <- bind_assoc. unfold bind at 1.
  destruct (bind (step_models step) (fun _ => incr_t) s) as [s1 [e|[]]] eqn:Hw;
    apply week_same in Hw as (_ & Hi & _).
  - by intros [= <- <-].
  - unfold bind at 1, get. simpl. unfold bind at 1, emit, modify. simpl.
    rewrite redraw_current_trace. by intros [= <- <-].
Qed.

Lemma tick_inputs s s' r : tick step s = (s', r) -> inputs s' = inputs s.
Proof.
  unfold tick, bind at 1, get. simpl.
  destruct (negb (running s) || at_ceiling s); [by intros [= <- <-]|].
  unfold bind at 1.
  destruct (tick_loop step _ s) as [s1 [e|[]]] eqn:Hl;
    apply tick_loop_progress in Hl as [_ (_ & Hi & _)].
  - by intros [= <- <-].
  - unfold bind at 1, get. simpl. unfold bind at 1, emit, modify. simpl.
    unfold bind at 1. rewrite redraw_current_trace.
    unfold bind, get. simpl. by intros [= <- <-].
Qed.

Lemma keeps_fields_inputs update ev s s' r :
  keeps_fields ev = true -> callback update ev s = (s', r) -> inputs s' = inputs s.
Proof.
  destruct ev; try done; intros _; cbn [callback].
  - apply step_once_inputs.
  - apply tick_inputs.
  - unfold start_animation, bind at 1, get. simpl. destruct (running s); [by intros [= <- <-]|].
    unfold bind at 1, modify. simpl. intros H. by apply tick_inputs in H.
  - by intros [= <- <-].
  - intros H. by apply export_frame in H as (_ & _ & Hi & _).
  - by intros [= <- <-].
  - unfold show_stats_plot, redraw_stats, bind, modify, emit. simpl. by intros [= <- <-].
Qed.

(** *** [window.update()] and an invariant of the callbacks *)

Lemma for_each_reported (I : @Session Model -> Prop) (cb : event -> M unit) evs s s' r :
  (forall ev s0 s1 r0, ev ∈ evs -> I s0 -> cb ev s0 = (s1, r0) -> I s1) ->
  I s -> for_each evs (fun ev => reported (cb ev)) s = (s', r) -> I s' /\ r = inr tt.
Proof.
  revert s. induction evs as [|ev evs IH]; intros s Hcb Hs; cbn [for_each].
  - by intros [= <- <-].
  - unfold bind at 1, reported at 1. simpl.
    destruct (cb ev s) as [s1 r1] eqn:H1. simpl. intros H.
    apply IH in H; [done| |].
    + intros ev' s0 s2 r0 Hin. apply Hcb. by apply list_elem_of_further.
    + eapply Hcb; [apply list_elem_of_here|done|done].
Qed.

Lemma window_update_0 s : window_update 0 s = (add_effect Update s, inr tt).
Proof. reflexivity. Qed.

Lemma window_update_S d s :
  window_update (S d) s
  = for_each (pending (add_effect Update s))
      (fun ev => reported (callback (window_update d) ev)) (add_effect Update s).
Proof. reflexivity. Qed.

(** With only events of one kind pending, [window.update()] keeps what the
    callbacks of that kind keep. *)
Lemma window_update_keeps (I : @Session Model -> Prop) (kind : event -> bool) depth s s' r :
  (forall s0, I s0 -> I (add_effect Update s0)) ->
  (forall update ev s0 s1 r0,
      kind ev = true -> I s0 -> callback update ev s0 = (s1, r0) -> I s1) ->
  (forall s0, Forall (fun ev => kind ev = true) (pending s0)) ->
  I s -> window_update depth s = (s', r) -> I s' /\ r = inr tt.
Proof.
  intros Hupd Hcb Hpending Hs. destruct depth as [|d].
  - rewrite window_update_0. intros [= <- <-]. split; [by apply Hupd|done].
  - rewrite window_update_S. intros H.
    apply (for_each_reported I) in H; [done| |by apply Hupd].
    intros ev s0 s1 r0 Hin. apply Hcb.
    specialize (Hpending (add_effect Update s)). rewrite Forall_forall in Hpending.
    by apply Hpending.
Qed.

(** *** [create_models] with events dispatched *)

Section Creation.

Variable update : @M Model unit.
Variable I : @Session Model -> Prop.
Hypothesis I_title : forall ttl s, I s -> I (add_effect (SetTitle ttl) s).
Hypothesis I_update : forall s s' r, I s -> update s = (s', r) -> I s' /\ r = inr tt.

Lemma construct_run_live (i k : Z) s :
  (emit (SetTitle (TitleCreating (i + 1) k)) >>
   update >>
   let* s0 := get in
   lift (NetworkModel (model_args (inputs s0) i))) s
  = match update (add_effect (SetTitle (TitleCreating (i + 1) k)) s) with
    | (s1, inl e) => (s1, inl e)
    | (s1, inr _) => (s1, NetworkModel (model_args (inputs s1) i))
    end.
Proof.
  unfold bind, emit, modify, get, lift. simpl.
  destruct (update _) as [s1 [e|[]]]; [done|].
  by destruct (NetworkModel (model_args (inputs s1) i)).
Qed.

Lemma collect_models_live (l : list Z) (k : Z) s s' r :
  I s ->
  collect l (fun i =>
    emit (SetTitle (TitleCreating (i + 1) k)) >>
    update >>
    let* s := get in
    lift (NetworkModel (model_args (inputs s) i))) s = (s', r) ->
  I s'
  /\ match r with
     | inr ms =>
         Forall2 (fun i m => exists si, I si /\ NetworkModel (model_args (inputs si) i) = inr m)
           l ms
     | inl e => exists a, NetworkModel a = inl e
     end.
Proof.
  revert s s' r. induction l as [|i l IH]; intros s s' r Hs.
  - intros [= <- <-]. split; [done|constructor].
  - cbn [collect]. unfold bind at 1. rewrite construct_run_live.
    destruct (update _) as [s1 r1] eqn:Hu.
    apply I_update in Hu as [Hs1 ->]; [|by apply I_title].
    destruct (NetworkModel (model_args (inputs s1) i)) as [e|m] eqn:Hcall.
    + intros [= <- <-]. split; [done|]. by eexists.
    + unfold bind at 1.
      match goal with |- context [collect l ?b s1] =>
        destruct (collect l b s1) as [s2 [e|ms]] eqn:H2 end;
        apply IH in H2 as [Hs2 Hr]; try done.
      * by intros [= <- <-].
      * intros [= <- <-]. split; [done|]. constructor; [|done]. by exists s1.
Qed.

Lemma create_models_live s s' r :
  I s ->
  create_models update s = (s', r) ->
  I s'
  /\ match r with
     | inr ms =>
         Forall2 (fun i m => exists si, I si /\ NetworkModel (model_args (inputs si) i) = inr m)
           (range (iterations_input (inputs s))) ms
     | inl e => exists a, NetworkModel a = inl e
     end.
Proof.
  intros Hs. unfold create_models, bind at 1, get. simpl. unfold bind at 1.
  match goal with |- context [collect ?l ?b s] =>
    destruct (collect l b s) as [s1 [e|ms]] eqn:H1 end;
    apply collect_models_live in H1 as [Hs1 Hr]; try done.
  - by intros [= <- <-].
  - unfold bind, emit, modify, ret. simpl. intros [= <- <-].
    split; [by apply I_title|done].
Qed.

End Creation.

Lemma window_update_returns depth s : snd (window_update depth s) = inr tt.
Proof.
  destruct (window_update depth s) as [s' r] eqn:H. simpl.
  eapply (window_update_keeps (fun _ => True) (fun _ => true)) in H as [_ ->]; try done.
  intros s0. apply Forall_forall. done.
Qed.


(** *** Rebuilding while harmless events are dispatched *)

(** [m] is as the constructor built it. *)
Definition built (m : Model) : Prop := exists a, NetworkModel a = inr m.

(** The engine raises no [ValueError]: every skip of a batch then comes from
    the export. *)
Definition no_ValueError_from_engine : Prop :=
  (forall a e, NetworkModel a = inl e -> is_ValueError e = false)
  /\ (forall m e, step m = inl e -> is_ValueError e = false).

Lemma lock_step_built ms s :
  t s = 0%nat -> Forall built ms -> lock_step NetworkModel step (set_models ms s).
Proof.
  intros Ht HF. unfold lock_step. simpl. rewrite Ht.
  eapply Forall_impl; [exact HF|]. intros m [a Ha]. by exists a, m.
Qed.

Lemma week_raises s s' e :
  bind (step_models step) (fun _ => incr_t) s = (s', inl e) -> exists m, step m = inl e.
Proof.
  unfold bind, step_models, incr_t, modify.
  destruct (step_all step (models s)) as [ms [e'|[]]] eqn:Hs; [|done].
  intros [= <- <-]. apply step_all_raises in Hs as (_ & m & _ & _ & _ & _ & _ & Hm).
  by exists m.
Qed.

Lemma batch_steps_fuel_raises fuel max_t s s' e :
  batch_steps_fuel step fuel max_t s = (s', inl e) -> exists m, step m = inl e.
Proof.
  revert s. induction fuel as [|fuel IH]; intros s; simpl; [done|].
  unfold bind at 1, get. simpl. destruct (Z.of_nat (t s) <? max_t); [|done].
  rewrite <- bind_assoc. unfold bind at 1.
  destruct (bind (step_models step) (fun _ => incr_t) s) as [s1 [e1|[]]] eqn:Hw.
  - intros [= <- <-]. by eapply week_raises.
  - apply IH.
Qed.

Lemma batch_steps_raises max_t s s' e :
  batch_steps step max_t s = (s', inl e) -> exists m, step m = inl e.
Proof. unfold batch_steps, bind at 1, get. simpl. apply batch_steps_fuel_raises. Qed.

Section Rebuild.

Variable update : @M Model unit.
Hypothesis update_same_run : forall s s' r, update s = (s', r) -> same_run s s' /\ r = inr tt.

Lemma create_models_same_run s s' r :
  create_models update s = (s', r) ->
  same_run s s'
  /\ match r with
     | inr ms => Forall built ms
     | inl e => exists a, NetworkModel a = inl e
     end.
Proof.
  intros H. eapply (create_models_live _ (same_run s)) in H as [Hs Hr].
  - split; [done|]. destruct r as [e|ms]; [done|].
    clear -Hr. induction Hr as [|i m l ms (si & _ & Hm) _ IH]; constructor; [|done].
    by eexists.
  - intros ttl s0 Hs0. eapply same_run_trans; [exact Hs0|]. by apply same_run_effect.
  - intros s0 s1 r0 Hs0 Hu. apply update_same_run in Hu as [Hu ->].
    split; [by eapply same_run_trans|done].
  - apply same_run_refl.
Qed.

(** [models = create_models()] and [model = models[0]]. *)
Definition rebuild : M unit :=
  let* ms := create_models update in
  modify (set_models ms) >>
  bind_model.

Lemma rebuild_live s s' r :
  rebuild s = (s', r) ->
  (same_run s s' /\ exists e a, r = inl e /\ NetworkModel a = inl e)
  \/ (exists s1 ms, same_run s s1 /\ Forall built ms /\ s' = set_models ms s1
        /\ (r = inr tt
            \/ (ms = [] /\ r = inl (IndexError "list index out of range")))).
Proof.
  unfold rebuild, bind at 1.
  destruct (create_models update s) as [s1 [e|ms]] eqn:Hc;
    apply create_models_same_run in Hc as [Hs Hr].
  - intros [= <- <-]. left. split; [done|]. destruct Hr as [a Ha]. by exists e, a.
  - unfold bind at 1, modify. simpl. unfold bind_model, bind, get, lift, ret. simpl.
    right. exists s1, ms. destruct ms as [|m ms]; simpl in *.
    + injection H as <- <-. split; [exact Hs|]. split; [done|]. split; [done|]. by right.
    + injection H as <- <-. split; [exact Hs|]. split; [done|]. split; [done|]. by left.
Qed.

Lemma startup_rebuild_live s : startup update s = bind rebuild (fun _ => redraw) s.
Proof.
  unfold startup, rebuild, bind.
  destruct (create_models update s) as [s1 [e|ms]]; [done|]. simpl.
  by destruct (bind_model (set_models ms s1)) as [s2 [e|[]]].
Qed.

Lemma batch_try_rebuild_live mode_dir max_t s :
  batch_try update mode_dir max_t s
  = bind rebuild
      (fun _ => batch_steps step max_t >>
                export_csv_raw_runs states_per_time now (Some mode_dir)) s.
Proof.
  unfold batch_try, rebuild, bind.
  destruct (create_models update s) as [s1 [e|ms]]; [done|]. simpl.
  by destruct (bind_model (set_models ms s1)) as [s2 [e|[]]].
Qed.

Lemma startup_live s s' r :
  t s = 0%nat -> startup update s = (s', r) ->
  t s' = 0%nat /\ skips s' = skips s
  /\ (r = inr tt -> lock_step NetworkModel step s')
  /\ (forall e, r = inl e -> models s' = models s \/ models s' = []).
Proof.
  intros Ht. rewrite startup_rebuild_live. unfold bind at 1.
  destruct (rebuild s) as [s1 [e|[]]] eqn:Hr.
  - intros [= <- <-].
    apply rebuild_live in Hr
      as [[(Ht1 & Hm1 & Hk1) _]|(s0 & ms & (Ht0 & Hm0 & Hk0) & _ & -> & [?|[-> _]])];
      try done.
    + split; [congruence|]. split; [done|]. split; [done|]. intros e0 _. by left.
    + split; [simpl; congruence|]. split; [exact Hk0|]. split; [done|].
      intros e0 _. by right.
  - apply rebuild_live in Hr
      as [[_ (e & a & ? & _)]|(s0 & ms & (Ht0 & Hm0 & Hk0) & Hb & -> & [_|[_ ?]])];
      try done.
    intros H. apply redraw_frame in H as [-> Hc].
    apply only_calls_same_run in Hc as (Ht' & Hm' & Hk'). simpl in *.
    split; [congruence|]. split; [unfold skips in *; simpl in *; congruence|].
    split; [|done]. intros _.
    apply (lock_step_same NetworkModel step (set_models ms s0) s'); [exact Ht'|exact Hm'|].
    apply lock_step_built; [congruence|done].
Qed.

Lemma batch_try_live mode_dir max_t s s' r :
  t s = 0%nat -> batch_try update mode_dir max_t s = (s', r) ->
  skips s' = skips s
  /\ (r = inr tt -> lock_step NetworkModel step s')
  /\ (forall e, r = inl e -> is_ValueError e = true ->
        lock_step NetworkModel step s'
        \/ (exists a, NetworkModel a = inl e) \/ (exists m, step m = inl e)).
Proof.
  intros Ht. rewrite batch_try_rebuild_live. unfold bind at 1.
  destruct (rebuild s) as [s1 [e|[]]] eqn:Hr.
  - intros [= <- <-].
    apply rebuild_live in Hr
      as [[(Ht1 & Hm1 & Hk1) (e' & a & [= <-] & Ha)]
         |(s0 & ms & (Ht0 & Hm0 & Hk0) & _ & -> & [?|[-> [= ->]]])];
      try done.
    + split; [done|]. split; [done|]. intros e0 [= <-] _. right. left. by exists a.
    + split; [done|]. split; [done|]. by intros e0 [= <-].
  - apply rebuild_live in Hr
      as [[_ (e & a & ? & _)]|(s0 & ms & (Ht0 & Hm0 & Hk0) & Hb & -> & [_|[_ ?]])];
      try done.
    assert (Hl : lock_step NetworkModel step (set_models ms s0))
      by (apply lock_step_built; [congruence|done]).
    unfold bind at 1.
    destruct (batch_steps step max_t _) as [s2 [e|[]]] eqn:Hb2.
    + pose proof (batch_steps_raises _ _ _ _ Hb2) as Hm.
      apply batch_steps_spec in Hb2 as (_ & (_ & _ & _ & Htr & _) & _).
      intros [= <- <-]. split; [unfold skips in *; simpl in *; by rewrite Htr|].
      split; [done|]. intros e0 [= <-] _. by right; right.
    + apply batch_steps_spec in Hb2 as (_ & (_ & _ & _ & Htr & _) & Hok).
      destruct (Hok eq_refl) as (_ & n & Hn & HFn).
      intros H. apply export_frame in H as (Ht' & Hm' & _ & added & Ha & Hns & _).
      assert (Hl' : lock_step NetworkModel step s').
      { eapply lock_step_same; [done|done|]. by eapply lock_step_stepped. }
      split.
      * rewrite (skips_app _ _ _ Ha), (skips_no_skip _ Hns). simpl.
        unfold skips in *. simpl in *. rewrite Htr. lia.
      * split; [done|]. intros e0 _ _. by left.
Qed.

Lemma batch_job_live mode mode_dir max_t total_jobs job prep_val s s' r :
  batch_job update mode mode_dir max_t total_jobs job prep_val s = (s', r) ->
  (skips s <= skips s')%nat
  /\ (r = inr tt -> skips s' = skips s \/ no_ValueError_from_engine ->
      lock_step NetworkModel step s').
Proof.
  change (batch_job update mode mode_dir max_t total_jobs job prep_val s)
    with (try_except_ValueError (batch_try update mode_dir max_t)
            (fun e => emit (Printed (Skipping mode prep_val e)))
            (batch_job_start mode total_jobs job prep_val s)).
  unfold try_except_ValueError.
  assert (H0 : skips (batch_job_start mode total_jobs job prep_val s) = skips s).
  { unfold batch_job_start. rewrite !skips_add_effect. simpl.
    change (skips (set_t 0 (set_inputs (set_prep_amount_input prep_val (inputs s)) s)))
      with (skips s). lia. }
  destruct (batch_try _ _ _ _) as [s1 [e|[]]] eqn:Ht;
    apply batch_try_live in Ht as (Hk & Hl & He); try done.
  - destruct (is_ValueError e) eqn:Hv; intros [= <- <-].
    + rewrite skips_add_effect. simpl. split; [lia|]. intros _ [?|[Hnew Hstep]]; [lia|].
      destruct (He e eq_refl Hv) as [Hl1|[[a Ha]|[m Hm]]].
      * by eapply lock_step_same.
      * apply Hnew in Ha. congruence.
      * apply Hstep in Hm. congruence.
    + split; [lia|done].
  - intros [= <- <-]. split; [lia|]. intros _ _. by apply Hl.
Qed.

Lemma batch_preps_live mode mode_dir max_t total_jobs job prep_values s s' r :
  batch_preps update mode mode_dir max_t total_jobs job prep_values s = (s', r) ->
  (skips s <= skips s')%nat
  /\ (r = inr tt -> skips s' = skips s \/ no_ValueError_from_engine ->
      lock_step NetworkModel step s -> lock_step NetworkModel step s').
Proof.
  revert job s. induction prep_values as [|pv pvs IH]; intros job s; cbn [batch_preps].
  - intros [= <- <-]. split; [lia|done].
  - unfold bind at 1.
    destruct (batch_job _ _ _ _ _ _ _ s) as [s1 [e|[]]] eqn:Hj;
      apply batch_job_live in Hj as [Hle Hl].
    + intros [= <- <-]. split; [lia|done].
    + intros H. apply IH in H as [Hle' Hl']. split; [lia|].
      intros Hr Hk _. apply Hl'; [done| |].
      * destruct Hk as [Hk|Hk]; [left; lia|by right].
      * apply Hl; [done|]. destruct Hk as [Hk|Hk]; [left; lia|by right].
Qed.

Lemma batch_modes_live cfg total_jobs job modes s s' r :
  batch_modes update cfg total_jobs job modes s = (s', r) ->
  (skips s <= skips s')%nat
  /\ (r = inr tt -> skips s' = skips s \/ no_ValueError_from_engine ->
      lock_step NetworkModel step s -> lock_step NetworkModel step s').
Proof.
  revert job s. induction modes as [|mode modes IH]; intros job s; cbn [batch_modes].
  - intros [= <- <-]. split; [lia|done].
  - unfold bind at 1, modify. simpl. unfold bind at 1, emit, modify. simpl.
    unfold bind at 1.
    destruct (batch_preps _ _ _ _ _ _ _ _) as [s1 [e|[]]] eqn:Hp;
      apply batch_preps_live in Hp as [Hle Hl];
      rewrite skips_add_effect in Hle, Hl; simpl in Hle, Hl;
      change (skips (set_inputs (set_mode_var mode (inputs s)) s)) with (skips s) in Hle, Hl.
    + intros [= <- <-]. split; [lia|done].
    + intros H. apply IH in H as [Hle' Hl']. split; [lia|].
      intros Hr Hk Hs. apply Hl'; [done| |].
      * destruct Hk as [Hk|Hk]; [left; lia|by right].
      * apply Hl; [done| |done]. destruct Hk as [Hk|Hk]; [left; lia|by right].
Qed.

Lemma batch_export_live cfg s s' :
  batch_export_with update cfg s = (s', inr tt) ->
  skips s' = skips s \/ no_ValueError_from_engine ->
  lock_step NetworkModel step s -> lock_step NetworkModel step s'.
Proof.
  unfold batch_export_with.
  unfold bind at 1, modify. simpl. unfold bind at 1, modify. simpl.
  unfold bind at 1, emit, modify. simpl. unfold bind at 1.
  destruct (batch_modes _ _ _ _ _ _) as [s1 [e|[]]] eqn:Hm; [done|].
  apply batch_modes_live in Hm as [Hle Hl].
  rewrite skips_add_effect in Hle, Hl. simpl in Hle, Hl.
  intros [= <-] Hk Hs.
  eapply lock_step_same; [| |apply Hl]; try done.
  destruct Hk as [Hk|Hk]; [|by right]. left.
  rewrite skips_add_effect in Hk. simpl in Hk. unfold skips in *. simpl in *. lia.
Qed.

End Rebuild.

(** *** Lock step with harmless events dispatched *)

Lemma harmless_update depth s s' r :
  (forall s0, Forall (fun e => harmless e = true) (pending s0)) ->
  window_update depth s = (s', r) -> same_run s s' /\ r = inr tt.
Proof.
  intros Hpending H.
  apply (window_update_keeps (same_run s) harmless depth s s' r); [| |done| |done].
  - intros s0 Hs0. eapply same_run_trans; [exact Hs0|]. by apply same_run_effect.
  - intros update ev s0 s1 r0 Hev Hs0 Hcb. eapply same_run_trans; [exact Hs0|].
    by eapply harmless_same_run.
  - apply same_run_refl.
Qed.


(** *** The [except] clause of the batch *)

Lemma create_models_no_runs_live (update : @M Model unit) s :
  iterations_input (inputs s) <= 0 ->
  create_models update s
  = (add_effect (SetTitle (TitleReady (iterations_input (inputs s)))) s, inr []).
Proof.
  intros Hk. unfold create_models, bind at 1, get. cbn beta iota.
  assert (E : range (iterations_input (inputs s)) = []).
  { unfold range, seqZ. by replace (Z.to_nat (iterations_input (inputs s))) with 0%nat by lia. }
  rewrite E. reflexivity.
Qed.

(** C6, as amended. The batch catches [ValueError] and nothing else, whatever
    [window.update()] dispatches meanwhile.
    - A job whose [try] block raises [ValueError] is skipped with a message
      and the loop goes on with the next prep value; an exception of another
      class leaves the loop with the remaining jobs not run.
    - With an iterations field of 0 or less the first job raises
      [IndexError] at [models[0]]: no job is run.
    - When the runs of a job are built and stepped, a prep field that is NaN
      at the export makes [int(prep * 100)] raise [ValueError], and the job is
      skipped; a prep field that is infinite makes it raise [OverflowError],
      and the batch is left. *)
Theorem batch_catches_ValueError_only (update : @M Model unit) mode mode_dir max_t
    total_jobs job prep_val rest s :
  let start := batch_job_start mode total_jobs job prep_val s in
  let preps := batch_preps update mode mode_dir max_t total_jobs in
  (forall s1 e, batch_try update mode_dir max_t start = (s1, inl e) ->
     preps job (prep_val :: rest) s
     = if is_ValueError e
       then preps (S job) rest (add_effect (Printed (Skipping mode prep_val e)) s1)
       else (s1, inl e))
  /\ (iterations_input (inputs s) <= 0 ->
      preps job (prep_val :: rest) s
      = (set_models []
           (add_effect (SetTitle (TitleReady (iterations_input (inputs s)))) start),
         inl (IndexError "list index out of range")))
  /\ (forall s2,
        bind (rebuild update) (fun _ => batch_steps step max_t) start = (s2, inr tt) ->
        match Prim2SF (prep_amount_input (inputs s2) * 100)%float with
        | S754_nan =>
            preps job (prep_val :: rest) s
            = preps (S job) rest
                (add_effect
                   (Printed (Skipping mode prep_val
                               (ValueError "cannot convert float NaN to integer")))
                   (add_effect (Mkdir mode_dir) s2))
        | S754_infinity _ =>
            preps job (prep_val :: rest) s
            = (add_effect (Mkdir mode_dir) s2,
               inl (OverflowError "cannot convert float infinity to integer"))
        | _ =>
            exists s3, batch_try update mode_dir max_t start = (s3, inr tt)
              /\ preps job (prep_val :: rest) s = preps (S job) rest s3
        end).
Proof.
  intros start preps.
  assert (Hjob : forall r1,
            batch_try update mode_dir max_t start = r1 ->
            preps job (prep_val :: rest) s
            = match r1 with
              | (s1, inl e) =>
                  if is_ValueError e
                  then preps (S job) rest (add_effect (Printed (Skipping mode prep_val e)) s1)
                  else (s1, inl e)
              | (s1, inr _) => preps (S job) rest s1
              end).
  { intros r1 Hr1. unfold preps. cbn [batch_preps]. unfold bind at 1.
    change (batch_job update mode mode_dir max_t total_jobs job prep_val s)
      with (try_except_ValueError (batch_try update mode_dir max_t)
              (fun e => emit (Printed (Skipping mode prep_val e))) start).
    unfold try_except_ValueError. rewrite Hr1.
    destruct r1 as [s1 [e|[]]]; [|done]. by destruct (is_ValueError e). }
  split; [|split].
  - intros s1 e Htry. by rewrite (Hjob _ Htry).
  - intros Hk.
    assert (Htry : batch_try update mode_dir max_t start
                   = (set_models []
                        (add_effect (SetTitle (TitleReady (iterations_input (inputs s))))
                           start),
                      inl (IndexError "list index out of range"))).
    { unfold batch_try, bind at 1.
      rewrite (create_models_no_runs_live update start) by exact Hk. reflexivity. }
    by rewrite (Hjob _ Htry).
  - intros s2 Hs2.
    assert (Htry : batch_try update mode_dir max_t start
                   = export_csv_raw_runs states_per_time now (Some mode_dir) s2).
    { rewrite batch_try_rebuild_live.
      change (bind (rebuild update)
                (fun _ => bind (batch_steps step max_t)
                            (fun _ => export_csv_raw_runs states_per_time now (Some mode_dir)))
                start)
        with (bind (rebuild update)
                (fun a => bind ((fun _ => batch_steps step max_t) a)
                            (fun _ => export_csv_raw_runs states_per_time now (Some mode_dir)))
                start).
      rewrite <- bind_assoc. unfold bind at 1. by rewrite Hs2. }
    destruct (int_of_float (prep_amount_input (inputs s2) * 100)%float) as [e|pct] eqn:Hpct.
    + rewrite (export_err _ _ _ _ _ Hpct) in Htry. revert Hpct. unfold int_of_float.
      destruct (Prim2SF _) as [| | |]; intros [= <-]; by rewrite (Hjob _ Htry).
    + rewrite (export_ok _ _ _ _ _ Hpct) in Htry.
      assert (Hgo : exists s3, batch_try update mode_dir max_t start = (s3, inr tt)
                /\ preps job (prep_val :: rest) s = preps (S job) rest s3).
      { eexists. split; [exact Htry|]. by rewrite (Hjob _ Htry). }
      revert Hpct. unfold int_of_float. by destruct (Prim2SF _) as [| | |].
Qed.

(** *** What every session keeps, whatever is dispatched *)

Section Kept.

Variable P : Model -> Prop.
Hypothesis P_new : forall a m, NetworkModel a = inr m -> P m.
Hypothesis P_step : forall m m', step m = inr m' -> P m -> P m'.

(** Every model of the session satisfies [P]. *)
Definition all_models (s : @Session Model) : Prop := Forall P (models s).

Lemma stepped_kept k m m' : stepped step k m m' -> P m -> P m'.
Proof.
  revert m. induction k as [|k IH]; intros m; unfold stepped; simpl.
  - by intros [= ->].
  - destruct (step m) as [e|m1] eqn:Hm; [done|]. intros H Hp.
    apply (IH m1); [done|]. by eapply P_step.
Qed.

Lemma progress_kept s s' : progress step s s' -> all_models s -> all_models s'.
Proof.
  intros (n & _ & HF). unfold all_models.
  induction HF as [|m m' ms ms' (k & _ & Hk) _ IH]; [done|].
  intros Hs. inversion Hs; subst. constructor; [by eapply stepped_kept|by apply IH].
Qed.

Lemma same_models_kept s s' : models s' = models s -> all_models s -> all_models s'.
Proof. unfold all_models. by intros ->. Qed.

Section KeptCallbacks.

Variable update : @M Model unit.
Hypothesis update_kept : forall s s' r,
  all_models s -> update s = (s', r) -> all_models s' /\ r = inr tt.

Lemma rebuild_kept s s' r : all_models s -> rebuild update s = (s', r) -> all_models s'.
Proof.
  intros Hs. unfold rebuild, bind at 1.
  destruct (create_models update s) as [s1 [e|ms]] eqn:Hc;
    eapply (create_models_live _ all_models) in Hc as [Hs1 Hr]; try done.
  - by intros [= <- <-].
  - unfold bind at 1, modify. simpl. intros H. apply bind_model_frame in H as ->.
    unfold all_models. simpl. clear -Hr P_new.
    induction Hr as [|i m l ms (si & _ & Hm) _ IH]; constructor; [by eapply P_new|done].
Qed.

Lemma startup_kept s s' r : all_models s -> startup update s = (s', r) -> all_models s'.
Proof.
  intros Hs. rewrite startup_rebuild_live. unfold bind at 1.
  destruct (rebuild update s) as [s1 [e|[]]] eqn:Hr; apply rebuild_kept in Hr; try done.
  - by intros [= <- <-].
  - intros H. apply redraw_frame in H as [_ [(_ & _ & Hm & _) _]].
    by eapply same_models_kept.
Qed.

Lemma batch_try_kept mode_dir max_t s s' r :
  all_models s -> batch_try update mode_dir max_t s = (s', r) -> all_models s'.
Proof.
  intros Hs. rewrite batch_try_rebuild_live. unfold bind at 1.
  destruct (rebuild update s) as [s1 [e|[]]] eqn:Hr; apply rebuild_kept in Hr; try done.
  - by intros [= <- <-].
  - unfold bind at 1.
    destruct (batch_steps step max_t s1) as [s2 [e|[]]] eqn:Hb;
      apply batch_steps_spec in Hb as (Hp & _); apply progress_kept in Hp; try done.
    + by intros [= <- <-].
    + intros H. apply export_frame in H as (_ & Hm & _). by eapply same_models_kept.
Qed.

Lemma batch_job_kept mode mode_dir max_t total_jobs job prep_val s s' r :
  all_models s ->
  batch_job update mode mode_dir max_t total_jobs job prep_val s = (s', r) ->
  all_models s'.
Proof.
  intros Hs.
  change (batch_job update mode mode_dir max_t total_jobs job prep_val s)
    with (try_except_ValueError (batch_try update mode_dir max_t)
            (fun e => emit (Printed (Skipping mode prep_val e)))
            (batch_job_start mode total_jobs job prep_val s)).
  unfold try_except_ValueError.
  destruct (batch_try _ _ _ _) as [s1 [e|[]]] eqn:Ht; apply batch_try_kept in Ht; try done.
  - destruct (is_ValueError e); by intros [= <- <-].
  - by intros [= <- <-].
Qed.

Lemma batch_preps_kept mode mode_dir max_t total_jobs job prep_values s s' r :
  all_models s ->
  batch_preps update mode mode_dir max_t total_jobs job prep_values s = (s', r) ->
  all_models s'.
Proof.
  revert job s. induction prep_values as [|pv pvs IH]; intros job s Hs; cbn [batch_preps].
  - by intros [= <- <-].
  - unfold bind at 1.
    destruct (batch_job _ _ _ _ _ _ _ s) as [s1 [e|[]]] eqn:Hj;
      apply batch_job_kept in Hj; try done.
    + by intros [= <- <-].
    + by apply IH.
Qed.

Lemma batch_modes_kept cfg total_jobs job modes s s' r :
  all_models s -> batch_modes update cfg total_jobs job modes s = (s', r) -> all_models s'.
Proof.
  revert job s. induction modes as [|mode modes IH]; intros job s Hs; cbn [batch_modes].
  - by intros [= <- <-].
  - unfold bind at 1, modify. simpl. unfold bind at 1, emit, modify. simpl.
    unfold bind at 1.
    destruct (batch_preps _ _ _ _ _ _ _ _) as [s1 [e|[]]] eqn:Hp;
      apply batch_preps_kept in Hp; try done.
    + by intros [= <- <-].
    + by apply IH.
Qed.

Lemma callback_kept ev s s' r :
  all_models s -> callback update ev s = (s', r) -> all_models s'.
Proof.
  intros Hs. destruct ev; cbn [callback].
  - intros H. apply step_once_progress in H as [Hp _]. by eapply progress_kept.
  - intros H. apply tick_progress in H. by eapply progress_kept.
  - intros H. apply start_animation_progress in H. by eapply progress_kept.
  - by intros [= <- <-].
  - by apply startup_kept.
  - by apply startup_kept.
  - intros H. apply export_frame in H as (_ & Hm & _). by eapply same_models_kept.
  - unfold batch_export_with.
    unfold bind at 1, modify. simpl. unfold bind at 1, modify. simpl.
    unfold bind at 1, emit, modify. simpl. unfold bind at 1.
    destruct (batch_modes _ _ _ _ _ _) as [s1 [e|[]]] eqn:Hm;
      apply batch_modes_kept in Hm; try done; by intros [= <- <-].
  - by intros [= <- <-].
  - unfold show_stats_plot, redraw_stats, bind, modify, emit. simpl. by intros [= <- <-].
  - by intros [= <- <-].
Qed.

End KeptCallbacks.

Lemma window_update_kept depth s s' r :
  all_models s -> window_update depth s = (s', r) -> all_models s' /\ r = inr tt.
Proof.
  revert s s' r. induction depth as [|d IH]; intros s s' r Hs.
  - rewrite window_update_0. by intros [= <- <-].
  - rewrite window_update_S. intros H.
    apply (for_each_reported all_models) in H; [done| |done].
    intros ev s0 s1 r0 _. by apply callback_kept.
Qed.

Lemma reachable_kept s : reachable s -> all_models s.
Proof.
  induction 1 as [depth s H|depth ev s _ IH].
  - apply (startup_kept (window_update depth) (window_update_kept depth) blank s (inr tt));
      [by constructor|exact H].
  - unfold dispatch.
    destruct (callback (window_update depth) ev s) as [s' r] eqn:H.
    exact (callback_kept (window_update depth) (window_update_kept depth) ev s s' r IH H).
Qed.

End Kept.

(** *** Every week up to [t] has its snapshot, with harmless events *)

Section Recorded.

Variable P : Model -> Prop.
Hypothesis P_new : forall a m,
  NetworkModel a = inr m -> P m /\ (0 < length (states_per_time m))%nat.
Hypothesis P_step : forall m m',
  step m = inr m' -> P m ->
  P m' /\ length (states_per_time m') = S (length (states_per_time m)).
Hypothesis harmless_pending : forall s0, Forall (fun e => harmless e = true) (pending s0).

Local Abbreviation recorded_weeks := (recorded states_per_time P).

Lemma built_recorded ms s :
  t s = 0%nat -> Forall built ms -> recorded_weeks (set_models ms s).
Proof.
  intros Ht HF. unfold recorded. simpl. rewrite Ht.
  eapply Forall_impl; [exact HF|]. intros m [a Ha]. by eapply P_new.
Qed.

Lemma same_run_recorded_live s s' : same_run s s' -> recorded_weeks s -> recorded_weeks s'.
Proof. intros (Ht & Hm & _). by apply (same_run_recorded step states_per_time P P_step). Qed.

Section RecordedCallbacks.

Variable update : @M Model unit.
Hypothesis update_same_run : forall s s' r, update s = (s', r) -> same_run s s' /\ r = inr tt.

Lemma rebuild_recorded_live s s' r :
  t s = 0%nat -> recorded_weeks s -> rebuild update s = (s', r) ->
  recorded_weeks s' /\ t s' = 0%nat.
Proof.
  intros Ht Hs H.
  apply (rebuild_live _ update_same_run) in H
    as [[Hsame _]|(s1 & ms & Hsame & Hb & -> & _)].
  - split; [by eapply same_run_recorded_live|]. destruct Hsame as (? & _). congruence.
  - destruct Hsame as (Ht1 & _). split; [|simpl; congruence].
    apply built_recorded; [congruence|done].
Qed.

Lemma startup_recorded_live s s' r :
  t s = 0%nat -> recorded_weeks s -> startup update s = (s', r) -> recorded_weeks s'.
Proof.
  intros Ht Hs. rewrite startup_rebuild_live. unfold bind at 1.
  destruct (rebuild update s) as [s1 [e|[]]] eqn:Hr;
    apply rebuild_recorded_live in Hr as [Hs1 Ht1]; try done.
  - by intros [= <- <-].
  - intros H. apply redraw_frame in H as [_ Hc].
    apply only_calls_same_run in Hc. by eapply same_run_recorded_live.
Qed.

Lemma batch_try_recorded_live mode_dir max_t s s' r :
  t s = 0%nat -> recorded_weeks s -> batch_try update mode_dir max_t s = (s', r) ->
  recorded_weeks s'.
Proof.
  intros Ht Hs. rewrite batch_try_rebuild_live. unfold bind at 1.
  destruct (rebuild update s) as [s1 [e|[]]] eqn:Hr;
    apply rebuild_recorded_live in Hr as [Hs1 Ht1]; try done.
  - by intros [= <- <-].
  - unfold bind at 1.
    destruct (batch_steps step max_t s1) as [s2 [e|[]]] eqn:Hb;
      apply batch_steps_spec in Hb as (Hp & _);
      apply (progress_recorded step states_per_time P P_step _ _ Hs1) in Hp.
    + by intros [= <- <-].
    + intros H. apply export_frame in H as (Ht' & Hm' & _).
      by apply (same_run_recorded step states_per_time P P_step s2 s').
Qed.

Lemma batch_job_recorded_live mode mode_dir max_t total_jobs job prep_val s s' r :
  recorded_weeks s ->
  batch_job update mode mode_dir max_t total_jobs job prep_val s = (s', r) ->
  recorded_weeks s'.
Proof.
  intros Hs.
  change (batch_job update mode mode_dir max_t total_jobs job prep_val s)
    with (try_except_ValueError (batch_try update mode_dir max_t)
            (fun e => emit (Printed (Skipping mode prep_val e)))
            (batch_job_start mode total_jobs job prep_val s)).
  unfold try_except_ValueError.
  assert (H0 : recorded_weeks (batch_job_start mode total_jobs job prep_val s)).
  { apply (restart_recorded states_per_time P) in Hs. exact Hs. }
  destruct (batch_try _ _ _ _) as [s1 [e|[]]] eqn:Ht;
    apply batch_try_recorded_live in Ht; try done.
  - destruct (is_ValueError e); by intros [= <- <-].
  - by intros [= <- <-].
Qed.

Lemma batch_preps_recorded_live mode mode_dir max_t total_jobs job prep_values s s' r :
  recorded_weeks s ->
  batch_preps update mode mode_dir max_t total_jobs job prep_values s = (s', r) ->
  recorded_weeks s'.
Proof.
  revert job s. induction prep_values as [|pv pvs IH]; intros job s Hs; cbn [batch_preps].
  - by intros [= <- <-].
  - unfold bind at 1.
    destruct (batch_job _ _ _ _ _ _ _ s) as [s1 [e|[]]] eqn:Hj;
      apply batch_job_recorded_live in Hj; try done.
    + by intros [= <- <-].
    + by apply IH.
Qed.

Lemma batch_modes_recorded_live cfg total_jobs job modes s s' r :
  recorded_weeks s -> batch_modes update cfg total_jobs job modes s = (s', r) -> recorded_weeks s'.
Proof.
  revert job s. induction modes as [|mode modes IH]; intros job s Hs; cbn [batch_modes].
  - by intros [= <- <-].
  - unfold bind at 1, modify. simpl. unfold bind at 1, emit, modify. simpl.
    unfold bind at 1.
    destruct (batch_preps _ _ _ _ _ _ _ _) as [s1 [e|[]]] eqn:Hp;
      apply batch_preps_recorded_live in Hp; try done.
    + by intros [= <- <-].
    + by apply IH.
Qed.

Lemma callback_recorded_live ev s s' r :
  recorded_weeks s -> callback update ev s = (s', r) -> recorded_weeks s'.
Proof.
  intros Hs. destruct ev; cbn [callback];
    try exact (callback_recorded NetworkModel step states_per_time now P P_new P_step
                 EvStep s s' r Hs);
    try exact (callback_recorded NetworkModel step states_per_time now P P_new P_step
                 EvTick s s' r Hs);
    try exact (callback_recorded NetworkModel step states_per_time now P P_new P_step
                 EvStart s s' r Hs);
    try exact (callback_recorded NetworkModel step states_per_time now P P_new P_step
                 EvPause s s' r Hs);
    try exact (callback_recorded NetworkModel step states_per_time now P P_new P_step
                 EvExport s s' r Hs);
    try exact (callback_recorded NetworkModel step states_per_time now P P_new P_step
                 EvNetworkView s s' r Hs);
    try exact (callback_recorded NetworkModel step states_per_time now P P_new P_step
                 EvStatsView s s' r Hs).
  - apply startup_recorded_live; [done|]. by apply (restart_recorded states_per_time P).
  - apply startup_recorded_live; [done|]. by apply (restart_recorded states_per_time P).
  - unfold batch_export_with.
    unfold bind at 1, modify. simpl. unfold bind at 1, modify. simpl.
    unfold bind at 1, emit, modify. simpl. unfold bind at 1.
    destruct (batch_modes _ _ _ _ _ _) as [s1 [e|[]]] eqn:Hm;
      apply batch_modes_recorded_live in Hm; try done; by intros [= <- <-].
  - by intros [= <- <-].
Qed.

End RecordedCallbacks.

Lemma reachable_recorded_live s : reachable s -> recorded_weeks s.
Proof.
  assert (Hupd : forall depth s0 s1 r0, window_update depth s0 = (s1, r0) ->
            same_run s0 s1 /\ r0 = inr tt)
    by (intros depth s0 s1 r0; by apply harmless_update).
  induction 1 as [depth s H|depth ev s _ IH].
  - apply (startup_recorded_live _ (Hupd depth) blank s (inr tt)); [done|by constructor|exact H].
  - unfold dispatch.
    destruct (callback (window_update depth) ev s) as [s' r] eqn:H.
    exact (callback_recorded_live _ (Hupd depth) ev s s' r IH H).
Qed.

End Recorded.

End Live.

End Live.

(** ** The engine of the specification under the session *)

(** The sum of the five counts of a snapshot. *)
Definition count_sum (d : Snapshot) : Z :=
  foldr Z.add 0 (map (dict_get d) KEYS).

(** A snapshot lists exactly the five states and its counts add up to [n]. *)
Definition snapshot_ok (n : Z) (d : Snapshot) : Prop :=
  dom d = list_to_set KEYS /\ count_sum d = n.

(** Every snapshot a run has recorded is of that kind, for the node count the
    run was built with. *)
Definition run_ok (r : Engine.Run) : Prop :=
  Forall (snapshot_ok (num_nodes (Engine.args r))) (Engine.states_per_time r)
  /\ Z.of_nat (length (Engine.nodes r)) = num_nodes (Engine.args r).

(** The cells of run [i] in a data row, and the sum of the counts in cells. *)
Definition run_cells_of (row : list cell) (i : nat) : list cell :=
  take 5 (drop (3 + 5 * i) row).

Definition cell_int (c : cell) : Z :=
  match c with CInt n => n | _ => 0 end.

Definition cell_sum (cs : list cell) : Z := foldr Z.add 0 (map cell_int cs).

Section EngineFacts.

Variable coverage : ModelArgs -> nat -> bool.
Variable outbreak : ModelArgs -> nat -> bool.
Variable fires : ModelArgs -> nat -> list Engine.Person -> nat -> bool.

Lemma count_state_cons st p nodes :
  Engine.count_state st (p :: nodes)
  = (if decide (Engine.state p = st) then 1 else 0) + Engine.count_state st nodes.
Proof.
  unfold Engine.count_state. rewrite filter_cons.
  destruct (decide (Engine.state p = st)); simpl length; lia.
Qed.

Lemma count_states_lookup st nodes :
  Engine.count_states nodes !! Engine.state_name st = Some (Engine.count_state st nodes).
Proof.
  unfold Engine.count_states. cbn [map Engine.STATES list_to_map foldr fst snd].
  destruct st; cbn [Engine.state_name];
    repeat (rewrite lookup_insert; case_decide; [done|]); done.
Qed.

Lemma count_states_sum nodes :
  count_sum (Engine.count_states nodes) = Z.of_nat (length nodes).
Proof.
  unfold count_sum, dict_get. cbn [map KEYS foldr].
  rewrite (count_states_lookup Engine.Susceptible), (count_states_lookup Engine.Acute),
    (count_states_lookup Engine.Chronic), (count_states_lookup Engine.AIDS),
    (count_states_lookup Engine.Dead). cbn [default from_option id].
  induction nodes as [|p nodes IH]; [done|].
  rewrite !count_state_cons. cbn [length].
  destruct (Engine.state p); repeat case_decide; try done; lia.
Qed.

Lemma count_states_dom nodes :
  dom (Engine.count_states nodes) = list_to_set KEYS.
Proof.
  unfold Engine.count_states. cbn [map Engine.STATES list_to_map foldr fst snd].
  rewrite !dom_insert_L, dom_empty_L. cbn [Engine.state_name KEYS list_to_set foldr].
  reflexivity.
Qed.

Lemma count_states_ok nodes :
  snapshot_ok (Z.of_nat (length nodes)) (Engine.count_states nodes).
Proof. split; [apply count_states_dom|apply count_states_sum]. Qed.

Lemma new_run_ok a r :
  Engine.new coverage outbreak a = inr r ->
  run_ok r /\ length (Engine.states_per_time r) = 1%nat.
Proof.
  unfold Engine.new. destruct (num_nodes a <? 1) eqn:Hn; [done|].
  destruct (negb _); [done|].
  set (nodes := map (Engine.initial_person coverage outbreak a)
                  (seq 0 (Z.to_nat (num_nodes a)))).
  assert (Hlen : Z.of_nat (length nodes) = num_nodes a).
  { unfold nodes. rewrite length_map, length_seq. lia. }
  clearbody nodes. intros [= <-]. unfold run_ok.
  cbn [Engine.states_per_time Engine.args Engine.nodes].
  split; [|done]. split; [|done]. constructor; [|constructor].
  rewrite <- Hlen. apply count_states_ok.
Qed.

Lemma step_run_ok r r' :
  Engine.step fires r = inr r' -> run_ok r ->
  run_ok r'
  /\ length (Engine.states_per_time r') = S (length (Engine.states_per_time r)).
Proof.
  unfold Engine.step.
  set (nodes' := imap (fun i p => Engine.advance p
    (fires (Engine.args r) (Engine.time r) (Engine.nodes r) i)) (Engine.nodes r)).
  assert (Hl : length nodes' = length (Engine.nodes r)) by apply length_imap.
  clearbody nodes'. intros [= <-] [HF Hlen]. unfold run_ok.
  cbn [Engine.states_per_time Engine.args Engine.nodes].
  split; [|rewrite length_app; simpl; lia].
  split; [|by rewrite Hl].
  apply Forall_app. split; [done|]. constructor; [|constructor].
  rewrite <- Hlen, <- Hl. apply count_states_ok.
Qed.

Lemma new_history a r :
  Engine.new coverage outbreak a = inr r -> length (Engine.states_per_time r) = 1%nat.
Proof. intros H. by apply new_run_ok in H as [_ ?]. Qed.

Lemma step_history r r' :
  Engine.step fires r = inr r' ->
  length (Engine.states_per_time r') = S (length (Engine.states_per_time r)).
Proof. unfold Engine.step. intros [= <-]. simpl. rewrite length_app. simpl. lia. Qed.

Lemma step_total r : is_ok (Engine.step fires r) = true.
Proof. reflexivity. Qed.

End EngineFacts.

(** *** The rows of an export under the specification's engine *)

Lemma drop_flat_map_keys {X Y} (h : X -> string -> Y) (xs : list X) i x :
  xs !! i = Some x ->
  take 5 (drop (5 * i) (flat_map (fun x => map (h x) KEYS) xs)) = map (h x) KEYS.
Proof.
  revert i. induction xs as [|x0 xs IH]; intros i Hx; [done|].
  cbn [flat_map]. destruct i as [|i].
  - injection Hx as ->. change (5 * 0)%nat with 0%nat. rewrite drop_0.
    rewrite take_app_le by (rewrite length_map; simpl; lia).
    apply take_ge. rewrite length_map. simpl. lia.
  - replace (5 * S i)%nat with (length (map (h x0) KEYS) + 5 * i)%nat
      by (rewrite length_map; simpl; lia).
    rewrite drop_app_add. by apply IH.
Qed.

Lemma run_cells_of_csv_row mode prep runs week i r :
  runs !! i = Some r ->
  run_cells_of (csv_row mode prep runs week) i
  = map (fun k => CInt (cell_value r week k)) KEYS.
Proof.
  intros Hr. unfold run_cells_of, csv_row.
  change (3 + 5 * i)%nat with (length [CInt (Z.of_nat week); CStr mode; CFloat prep] + 5 * i)%nat.
  rewrite drop_app_add.
  by apply (drop_flat_map_keys (fun r k => CInt (cell_value r week k))).
Qed.

Lemma cell_sum_cell_values r week d :
  r !! week = Some d ->
  cell_sum (map (fun k => CInt (cell_value r week k)) KEYS) = count_sum d.
Proof.
  intros Hd. unfold cell_sum, count_sum, cell_value, dict_get. rewrite Hd.
  cbn [map KEYS foldr cell_int]. by repeat destruct (d !! _).
Qed.

Section EngineSession.

Variable coverage : ModelArgs -> nat -> bool.
Variable outbreak : ModelArgs -> nat -> bool.
Variable fires : ModelArgs -> nat -> list Engine.Person -> nat -> bool.
Variable now : nat -> string.
Variable pending : @Session Engine.Run -> list event.

Lemma cell_sum_past_history r week :
  (length r <= week)%nat ->
  cell_sum (map (fun k => CInt (cell_value r week k)) KEYS) = 0.
Proof.
  intros Hlen. unfold cell_sum. cbn [map KEYS foldr cell_int].
  by rewrite !cell_value_short by done.
Qed.


End EngineSession.

(** ** Concrete sessions *)

Module Demo.

(** One choice for the chance part of the engine: nobody covered, every tenth
    node in the initial outbreak, a transition in the weeks whose number has
    the parity of the node. *)
Definition coverage (a : ModelArgs) (i : nat) : bool := false.
Definition outbreak (a : ModelArgs) (i : nat) : bool := (i mod 10 =? 0)%nat.
Definition fires (a : ModelArgs) (week : nat) (prev : list Engine.Person) (i : nat) : bool :=
  Nat.even (week + i).

(** A clock that does not leave one second. *)
Definition now (n : nat) : string := "20260128_101939".

Definition NetworkModel : ModelArgs -> result Engine.Run := Engine.new coverage outbreak.
Definition step : Engine.Run -> result Engine.Run := Engine.step fires.

Definition handle : event -> Session -> Session :=
  dispatch NetworkModel step Engine.states_per_time now.

Definition run (evs : list event) (s : Session) : Session :=
  foldl (fun s ev => handle ev s) s evs.

(** Two runs of twenty nodes, three weeks at most, seeded. *)
Definition small : Inputs := {|
  num_nodes_input := 20;
  delay_input := 50;
  initial_outbreak_prop_input := 0.11%float;
  seed_input := 42;
  use_seed_var := true;
  network_seed_input := 67;
  max_t_input := 3;
  iterations_input := 2;
  steps_per_update_input := 2;
  prep_amount_input := 0.1%float;
  mode_var := "standard"
|}.

(** The same with the node slider at 0, and with a mode the engine does not know. *)
Definition no_nodes : Inputs := {|
  num_nodes_input := 0;
  delay_input := 50;
  initial_outbreak_prop_input := 0.11%float;
  seed_input := 42;
  use_seed_var := true;
  network_seed_input := 67;
  max_t_input := 3;
  iterations_input := 2;
  steps_per_update_input := 2;
  prep_amount_input := 0.1%float;
  mode_var := "standard"
|}.

Definition unknown_mode : Inputs := set_mode_var "targeted_nobody" small.

(** The session after the module's start, and after the user has typed the
    small settings, applied them and stepped once. *)
Definition start : Session := fst (startup NetworkModel blank).
Definition reached : Session :=
  handle EvStep (handle EvApply (handle (EvInput small) start)).

(** Then the node slider goes to 0 and the settings are applied again. *)
Definition stale : Session := handle EvApply (handle (EvInput no_nodes) reached).

(** The small settings applied to the blank session, and weeks 1 and 3 of it. *)
Definition fresh : Session :=
  fst (apply_settings NetworkModel (set_inputs small blank)).
Definition week1 : Session := run [EvStep] fresh.
Definition week3 : Session := run [EvStep; EvStep; EvStep] fresh.

(** A batch whose two prep values have the same percentage. *)
Definition close_preps : Batch.Config := {|
  Batch.prep_values := [0.101; 0.109]%float;
  Batch.modes := ["standard"];
  Batch.max_t := 1;
  Batch.iterations := 1;
  Batch.num_nodes := 5;
  Batch.network_seed := 67
|}.

(** A session over bare histories: the first run is one week long and its only
    snapshot lists one state, the second run has no snapshot at all. *)
Definition ragged : @Session (list Snapshot) := {|
  running := false; t := 1;
  models := [[{["susceptible" := 5]}]; []];
  current_view := network; inputs := small; trace := []; clock_reads := 0
|}.

End Demo.

Lemma pair_snd {A B} (p : A * B) (b : B) : snd p = b -> p = (fst p, b).
Proof. destruct p. simpl. by intros ->. Defined.

(** ** The statements above at concrete sessions *)

Lemma start_reachable :
  reachable Demo.NetworkModel Demo.step Engine.states_per_time Demo.now Demo.start.
Proof.
  exact (reachable_startup Demo.NetworkModel Demo.step Engine.states_per_time Demo.now
           Demo.start
           (pair_snd (startup Demo.NetworkModel blank) (inr tt)
              (@eq_refl (result unit) (inr tt) <: snd (startup Demo.NetworkModel blank) = inr tt))).
Defined.

Lemma reached_reachable :
  reachable Demo.NetworkModel Demo.step Engine.states_per_time Demo.now Demo.reached.
Proof.
  unfold Demo.reached, Demo.handle. do 3 apply reachable_dispatch. exact start_reachable.
Defined.

Lemma export_csv_layout_witness :
  int_of_float (prep_amount_input (inputs Demo.week1) * 100)%float = inr 10
  /\ length (export_rows Engine.states_per_time Demo.week1) = 2%nat.
Proof.
  assert (H : int_of_float (prep_amount_input (inputs Demo.week1) * 100)%float = inr 10)
    by (vm_compute; reflexivity).
  split; [exact H|].
  exact (proj1 (proj2 (proj2
    (export_csv_layout Engine.states_per_time Demo.now None Demo.week1 10 H)))).
Defined.

Lemma step_once_at_ceiling_witness :
  max_t_input (inputs Demo.week3) <= Z.of_nat (t Demo.week3)
  /\ step_once Demo.step Demo.week3 = (Demo.week3, inr tt).
Proof.
  assert (H : max_t_input (inputs Demo.week3) <= Z.of_nat (t Demo.week3))
    by (apply Z.leb_le; vm_compute; reflexivity).
  split; [exact H|]. exact (proj1 (step_once_at_ceiling Demo.step Demo.week3 H)).
Defined.

Lemma tick_lock_step_witness :
  tick Demo.step (set_running true Demo.fresh)
  = (fst (tick Demo.step (set_running true Demo.fresh)), inr tt)
  /\ t (fst (tick Demo.step (set_running true Demo.fresh))) = 2%nat.
Proof.
  assert (H : tick Demo.step (set_running true Demo.fresh)
              = (fst (tick Demo.step (set_running true Demo.fresh)), inr tt))
    by (apply pair_snd; vm_compute; reflexivity).
  split; [exact H|].
  rewrite (proj1 (proj2 (tick_lock_step Demo.step _ _ H))). vm_compute. reflexivity.
Defined.

Lemma export_total_on_runs_witness :
  int_of_float (prep_amount_input (inputs Demo.ragged) * 100)%float = inr 10
  /\ export_csv_raw_runs id Demo.now None Demo.ragged
     = (exported id Demo.now None 10 Demo.ragged, inr tt).
Proof.
  assert (H : int_of_float (prep_amount_input (inputs Demo.ragged) * 100)%float = inr 10)
    by (vm_compute; reflexivity).
  split; [exact H|].
  exact (proj1 (export_total_on_runs id Demo.now None Demo.ragged 10 H)).
Defined.

(** The rows written for the ragged session: the counts that exist, and 0
    everywhere else. *)
Example export_ragged_rows :
  export_rows id Demo.ragged
  = [[CInt 0; CStr "standard"; CFloat 0.1%float;
      CInt 5; CInt 0; CInt 0; CInt 0; CInt 0; CInt 0; CInt 0; CInt 0; CInt 0; CInt 0];
     [CInt 1; CStr "standard"; CFloat 0.1%float;
      CInt 0; CInt 0; CInt 0; CInt 0; CInt 0; CInt 0; CInt 0; CInt 0; CInt 0; CInt 0]].
Proof. vm_compute. reflexivity. Qed.

Lemma fresh_lock_step : lock_step Demo.NetworkModel Demo.step Demo.fresh.
Proof.
  refine (proj1 (startup_lock_step Demo.NetworkModel Demo.step
            (set_t 0 (set_running false (set_inputs Demo.small blank))) Demo.fresh
            eq_refl _)).
  unfold Demo.fresh. rewrite apply_settings_startup.
  apply pair_snd. vm_compute. reflexivity.
Defined.


(** ** What [plot_states] draws *)

(** The counts of state [key] at [week], one per run. *)
Definition series (runs : list (list Snapshot)) (week : nat) (key : string) : list Z :=
  map (fun r => cell_value r week key) runs.

(** Every snapshot of the first [T] weeks of every run lists every key. *)
Definition keys_present (runs : list (list Snapshot)) (T : nat) (keys : list string) : Prop :=
  Forall (fun r => Forall (fun d : Snapshot => Forall (fun key => is_Some (d !! key)) keys)
                     (take T r)) runs.

Section PlottingFacts.

Context {num : Type}.
Variable median : list Z -> num.
Variable quantile : float -> list Z -> num.

Lemma comprehension_ok {X Y} (f : X -> result Y) (g : X -> Y) xs :
  Forall (fun x => f x = inr (g x)) xs -> comprehension f xs = inr (map g xs).
Proof.
  induction 1 as [|x xs Hx _ IH]; [done|]. cbn [comprehension map]. by rewrite Hx, IH.
Qed.

Lemma foldr_min_le (rest : list (list Snapshot)) (n0 : nat) :
  (foldr (fun r' acc => Nat.min (length r') acc) n0 rest <= n0)%nat
  /\ forall r, r ∈ rest ->
       (foldr (fun r' acc => Nat.min (length r') acc) n0 rest <= length r)%nat.
Proof.
  induction rest as [|x rest [IH0 IH]]; cbn [foldr].
  - split; [lia|]. by intros r ?%elem_of_nil.
  - split; [lia|]. intros r [->|Hin]%elem_of_cons; [lia|].
    specialize (IH r Hin). lia.
Qed.

Lemma min_len_le runs r : r ∈ runs -> (min_len runs <= length r)%nat.
Proof.
  destruct runs as [|r0 rest]; [by intros ?%elem_of_nil|]. cbn [min_len].
  destruct (foldr_min_le rest (length r0)) as [H0 Hrest].
  intros [->|Hin]%elem_of_cons; [exact H0|by apply Hrest].
Qed.

Lemma vals_of_ok runs T key :
  (forall r, r ∈ runs -> (T <= length r)%nat) ->
  Forall (fun r => Forall (fun d : Snapshot => is_Some (d !! key)) (take T r)) runs ->
  vals_of runs T key
  = inr (map (fun r => map (fun week => cell_value r week key) (seq 0 T)) runs).
Proof.
  intros Hlen Hkeys. unfold vals_of. apply comprehension_ok.
  apply Forall_forall. intros r Hr. apply comprehension_ok.
  apply Forall_forall. intros week Hweek%elem_of_seq.
  rewrite Forall_forall in Hkeys. specialize (Hkeys r Hr). specialize (Hlen r Hr).
  destruct (lookup_lt_is_Some_2 r week) as [d Hd]; [lia|].
  unfold list_index, dict_index, cell_value. rewrite Hd.
  rewrite Forall_lookup in Hkeys.
  destruct (Hkeys week d) as [v Hv]; [rewrite lookup_take_lt by lia; done|].
  by rewrite Hv.
Qed.

Lemma along_axis0_series (f : list Z -> num) runs T key :
  along_axis0 num f (map (fun r => map (fun week => cell_value r week key) (seq 0 T)) runs) T
  = map (fun week => f (series runs week key)) (seq 0 T).
Proof.
  unfold along_axis0. apply map_ext_in. intros week Hweek%in_seq.
  f_equal. unfold column, series. rewrite map_map. apply map_ext. intros r.
  rewrite (nth_indep _ 0 (cell_value r 0 key)) by (rewrite length_map, length_seq; lia).
  rewrite (map_nth (fun week => cell_value r week key)).
  by rewrite seq_nth by lia.
Qed.

Lemma plot_keys_ok runs T colors keys :
  (forall r, r ∈ runs -> (T <= length r)%nat) ->
  keys_present runs T keys ->
  plot_keys num median quantile runs T colors keys
  = (flat_map (fun key =>
       [Plot (seq 0 T) (map (fun week => median (series runs week key)) (seq 0 T))
          (capitalize key +:+ " (median)") (color_of colors key);
        FillBetween (seq 0 T)
          (map (fun week => quantile 0.25%float (series runs week key)) (seq 0 T))
          (map (fun week => quantile 0.75%float (series runs week key)) (seq 0 T))
          0.2%float (color_of colors key)]) keys,
     inr tt).
Proof.
  intros Hlen Hkeys. induction keys as [|key keys IH]; [done|].
  cbn [plot_keys flat_map].
  rewrite vals_of_ok; [|done|].
  - rewrite IH.
    + by rewrite !along_axis0_series.
    + unfold keys_present in *. eapply Forall_impl; [exact Hkeys|]. intros r Hr.
      eapply Forall_impl; [exact Hr|]. intros d Hd. by inversion Hd.
  - unfold keys_present in Hkeys. eapply Forall_impl; [exact Hkeys|]. intros r Hr.
    eapply Forall_impl; [exact Hr|]. intros d Hd. by inversion Hd.
Qed.

(** C8. For a non-empty ensemble whose runs all have a first week and whose
    snapshots list the plotted keys, [plot_states] clears the axes and draws,
    for every key in turn, one line through the per-week medians across the
    runs of that key's counts and one band between the per-week 0.25 and 0.75
    quantiles, over the weeks every run has, and then the legend.  It returns
    drawing calls only; [redraw_stats] hands it the histories of the models
    and leaves the models as they are. *)
Theorem plot_states_statistics {Model : Type} (states_per_time : Model -> list Snapshot)
    (s : Session) (keys : list string) (colors : option (gmap string string)) :
  let runs := map states_per_time (models s) in
  let T := min_len runs in
  models s <> [] -> T <> 0%nat -> keys_present runs T keys ->
  plot_states num median quantile (stats_data states_per_time s) keys colors
  = (Clear
       :: flat_map (fun key =>
            [Plot (seq 0 T) (map (fun week => median (series runs week key)) (seq 0 T))
               (capitalize key +:+ " (median)") (color_of colors key);
             FillBetween (seq 0 T)
               (map (fun week => quantile 0.25%float (series runs week key)) (seq 0 T))
               (map (fun week => quantile 0.75%float (series runs week key)) (seq 0 T))
               0.2%float (color_of colors key)]) keys
       ++ [Legend],
     inr tt)
  /\ models (fst (redraw_stats s)) = models s.
Proof.
  intros runs T Hne HT Hkeys. split; [|done].
  unfold plot_states, stats_data. fold runs.
  assert (Hruns : runs <> []).
  { unfold runs. destruct (models s); [done|]. done. }
  destruct runs as [|r0 rest] eqn:E; [done|]. cbn [is_empty_data]. fold T.
  destruct (T =? 0)%nat eqn:HT0; [apply Nat.eqb_eq in HT0; done|].
  rewrite plot_keys_ok; [done| |done].
  intros r Hr. unfold T. by apply min_len_le.
Qed.

End PlottingFacts.

Lemma plot_states_statistics_witness :
  models Demo.week1 <> []
  /\ min_len (map Engine.states_per_time (models Demo.week1)) <> 0%nat
  /\ keys_present (map Engine.states_per_time (models Demo.week1))
       (min_len (map Engine.states_per_time (models Demo.week1))) PLOT_3_KEYS
  /\ models (fst (redraw_stats Demo.week1)) = models Demo.week1.
Proof.
  assert (H1 : models Demo.week1 <> []) by (vm_compute; discriminate).
  assert (H2 : min_len (map Engine.states_per_time (models Demo.week1)) <> 0%nat)
    by (vm_compute; discriminate).
  assert (H3 : keys_present (map Engine.states_per_time (models Demo.week1))
                 (min_len (map Engine.states_per_time (models Demo.week1))) PLOT_3_KEYS).
  { unfold keys_present. apply (bool_decide_unpack _). vm_compute. reflexivity. }
  split; [exact H1|]. split; [exact H2|]. split; [exact H3|].
  exact (proj2 (plot_states_statistics (fun xs : list Z => xs) (fun _ xs => xs)
                  Engine.states_per_time Demo.week1 PLOT_3_KEYS (Some state_colors)
                  H1 H2 H3)).
Defined.

(** ** The edges of [plot_states] *)

Section PlottingEdges.

Context {num : Type}.
Variable median : list Z -> num.
Variable quantile : float -> list Z -> num.

(** What the loop of [plot_states] draws for one key. *)
Definition key_draws (runs : list (list Snapshot)) (T : nat)
    (colors : option (gmap string string)) (key : string) : list (draw num) :=
  [Plot (seq 0 T) (map (fun week => median (series runs week key)) (seq 0 T))
     (capitalize key +:+ " (median)") (color_of colors key);
   FillBetween (seq 0 T)
     (map (fun week => quantile 0.25%float (series runs week key)) (seq 0 T))
     (map (fun week => quantile 0.75%float (series runs week key)) (seq 0 T))
     0.2%float (color_of colors key)].

Lemma comprehension_ext_in {X Y} (f g : X -> result Y) xs :
  (forall x, x ∈ xs -> f x = g x) -> comprehension f xs = comprehension g xs.
Proof.
  induction xs as [|x xs IH]; intros H; [done|]. cbn [comprehension].
  rewrite (H x) by apply list_elem_of_here.
  rewrite IH; [done|]. intros y Hy. apply H. by apply list_elem_of_further.
Qed.

Lemma comprehension_map {X Y W} (f : X -> result Y) (h : W -> X) ws :
  comprehension f (map h ws) = comprehension (fun w => f (h w)) ws.
Proof. induction ws as [|w ws IH]; [done|]. cbn [map comprehension]. by rewrite IH. Qed.

(** A comprehension that raises raises what one of its elements raised. *)
Lemma comprehension_raised {X Y} (f : X -> result Y) xs e :
  comprehension f xs = inl e -> exists x, x ∈ xs /\ f x = inl e.
Proof.
  induction xs as [|x xs IH]; [done|]. cbn [comprehension].
  destruct (f x) as [e1|y] eqn:Hx.
  - intros [= <-]. exists x. split; [apply list_elem_of_here|done].
  - destruct (comprehension f xs) as [e2|ys]; [|done].
    intros [= <-]. destruct (IH eq_refl) as (x' & Hin & Hx').
    exists x'. split; [by apply list_elem_of_further|done].
Qed.

(** A comprehension with a raising element raises. *)
Lemma comprehension_raises {X Y} (f : X -> result Y) xs x e :
  x ∈ xs -> f x = inl e -> exists e', comprehension f xs = inl e'.
Proof.
  induction xs as [|x0 xs IH]; [by intros ?%elem_of_nil|].
  intros Hin Hx. cbn [comprehension]. destruct (f x0) as [e0|y] eqn:H0; [by eexists|].
  apply elem_of_cons in Hin as [->|Hin]; [congruence|].
  destruct (IH Hin Hx) as [e' ->]. by eexists.
Qed.

Lemma foldr_min_take (rest : list (list Snapshot)) (n n0 : nat) :
  foldr (fun r' acc => Nat.min (length r') acc) (Nat.min n n0) (map (take n) rest)
  = Nat.min n (foldr (fun r' acc => Nat.min (length r') acc) n0 rest).
Proof.
  induction rest as [|x rest IH]; [done|]. cbn [map foldr].
  rewrite IH, length_take. lia.
Qed.

Lemma min_len_map_take runs :
  min_len (map (take (min_len runs)) runs) = min_len runs.
Proof.
  destruct runs as [|r0 rest]; [done|].
  set (T := min_len (r0 :: rest)). cbn [map min_len].
  rewrite length_take, foldr_min_take. fold (min_len (r0 :: rest)). fold T. lia.
Qed.

Lemma vals_of_take runs T key :
  vals_of (map (take T) runs) T key = vals_of runs T key.
Proof.
  unfold vals_of. rewrite comprehension_map. apply comprehension_ext_in.
  intros r _. apply comprehension_ext_in. intros week Hweek%elem_of_seq.
  unfold list_index. by rewrite lookup_take_lt by lia.
Qed.

Lemma series_take runs T week key :
  (week < T)%nat -> series (map (take T) runs) week key = series runs week key.
Proof.
  intros Hweek. unfold series. rewrite map_map. apply map_ext. intros r.
  unfold cell_value. by rewrite lookup_take_lt by lia.
Qed.

Lemma plot_keys_take runs T colors keys :
  plot_keys num median quantile (map (take T) runs) T colors keys
  = plot_keys num median quantile runs T colors keys.
Proof.
  induction keys as [|key keys IH]; [done|]. cbn [plot_keys].
  by rewrite vals_of_take, IH.
Qed.

(** X14. Only the weeks every run has are looked at: [plot_states] draws the same,
    and raises the same, when every run is cut down to the length of the
    shortest.  Snapshots past that length, whatever they hold, play no part. *)
Theorem plot_states_common_weeks runs keys colors :
  plot_states num median quantile (Runs (map (take (min_len runs)) runs)) keys colors
  = plot_states num median quantile (Runs runs) keys colors.
Proof.
  unfold plot_states. destruct runs as [|r0 rest] eqn:E; [done|]. rewrite <- E.
  assert (Hne : is_empty_data (Runs (map (take (min_len runs)) runs)) = false)
    by (by rewrite E).
  assert (Hne' : is_empty_data (Runs runs) = false) by (by rewrite E).
  rewrite Hne, Hne', min_len_map_take, plot_keys_take. done.
Qed.

(** X15. With no run at all, or with a run that has no snapshot yet, [plot_states]
    clears the axes and returns: no line, no band, no legend, and no
    exception even for keys no snapshot lists. *)
Theorem plot_states_nothing_to_plot runs keys colors :
  runs = [] \/ [] ∈ runs ->
  plot_states num median quantile (Runs runs) keys colors = ([Clear], inr tt).
Proof.
  intros [->|Hin]; [done|]. unfold plot_states.
  destruct (is_empty_data (Runs runs)); [done|].
  apply min_len_le in Hin. simpl in Hin.
  by replace (min_len runs) with 0%nat by lia.
Qed.

Lemma vals_of_missing runs T key r week d :
  (forall r, r ∈ runs -> (T <= length r)%nat) ->
  r ∈ runs -> (week < T)%nat -> r !! week = Some d -> d !! key = None ->
  vals_of runs T key = inl (OtherError "KeyError" key).
Proof.
  intros Hlen Hr Hweek Hd Hkey.
  set (cell := fun (r : list Snapshot) (week : nat) =>
         match list_index r week with
         | inl e => inl e
         | inr d => dict_index d key
         end).
  assert (Hcell : forall r week e, r ∈ runs -> week ∈ seq 0 T -> cell r week = inl e ->
            e = OtherError "KeyError" key).
  { intros r1 week1 e Hr1 Hw1%elem_of_seq. unfold cell, list_index.
    destruct (lookup_lt_is_Some_2 r1 week1) as [d1 ->]; [specialize (Hlen r1 Hr1); lia|].
    unfold dict_index. destruct (d1 !! key); [done|]. by intros [= <-]. }
  assert (Hrun : forall r e, r ∈ runs -> comprehension (cell r) (seq 0 T) = inl e ->
            e = OtherError "KeyError" key).
  { intros r1 e Hr1 H. apply comprehension_raised in H as (week1 & Hw1 & H). by eapply Hcell. }
  assert (Hbad : exists e, comprehension (cell r) (seq 0 T) = inl e).
  { apply (comprehension_raises _ _ week (OtherError "KeyError" key)).
    - apply elem_of_seq. lia.
    - unfold cell, list_index, dict_index. by rewrite Hd, Hkey. }
  destruct Hbad as [e He].
  destruct (comprehension_raises (fun r => comprehension (cell r) (seq 0 T)) runs r e Hr He)
    as [e' He'].
  change (vals_of runs T key)
    with (comprehension (fun r => comprehension (cell r) (seq 0 T)) runs).
  rewrite He'. f_equal.
  apply comprehension_raised in He' as (r1 & Hr1 & H1). by eapply Hrun.
Qed.

Lemma plot_keys_stops runs T colors pre key post e :
  (forall r, r ∈ runs -> (T <= length r)%nat) ->
  keys_present runs T pre -> vals_of runs T key = inl e ->
  plot_keys num median quantile runs T colors (pre ++ key :: post)
  = (flat_map (key_draws runs T colors) pre, inl e).
Proof.
  intros Hlen Hpre Hkey. induction pre as [|k pre IH]; cbn [app plot_keys flat_map].
  - by rewrite Hkey.
  - rewrite vals_of_ok; [|done|].
    + rewrite IH.
      * by rewrite !along_axis0_series.
      * unfold keys_present in *. eapply Forall_impl; [exact Hpre|]. intros r Hr.
        eapply Forall_impl; [exact Hr|]. intros d Hd. by inversion Hd.
    + unfold keys_present in Hpre. eapply Forall_impl; [exact Hpre|]. intros r Hr.
      eapply Forall_impl; [exact Hr|]. intros d Hd. by inversion Hd.
Qed.

(** X16. A key that some snapshot of the plotted weeks does not list stops
    [plot_states] with [KeyError] for that key: the keys in front of it have
    been drawn, the key itself and those after it have not, and the legend is
    not drawn.  (The export writes 0 in the same situation.) *)
Theorem plot_states_missing_key runs pre key post colors r week d :
  r ∈ runs -> (week < min_len runs)%nat -> r !! week = Some d -> d !! key = None ->
  keys_present runs (min_len runs) pre ->
  plot_states num median quantile (Runs runs) (pre ++ key :: post) colors
  = (Clear :: flat_map (key_draws runs (min_len runs) colors) pre,
     inl (OtherError "KeyError" key)).
Proof.
  intros Hr Hweek Hd Hkey Hpre. unfold plot_states.
  destruct runs as [|r0 rest] eqn:E; [by apply elem_of_nil in Hr|]. rewrite <- E in *.
  assert (Hne : is_empty_data (Runs runs) = false) by (by rewrite E).
  rewrite Hne. destruct (min_len runs =? 0)%nat eqn:HT; [apply Nat.eqb_eq in HT; lia|].
  assert (Hlen : forall r, r ∈ runs -> (min_len runs <= length r)%nat)
    by (intros; by apply min_len_le).
  rewrite (plot_keys_stops _ _ _ _ _ _ _ Hlen Hpre
             (vals_of_missing _ _ _ _ _ _ Hlen Hr Hweek Hd Hkey)).
  done.
Qed.

End PlottingEdges.

(** ** Further concrete sessions *)

Module Cases.

(** The small settings with the iterations field at 0, and with one week per
    tick. *)
Definition no_runs : Inputs := {|
  num_nodes_input := 20;
  delay_input := 50;
  initial_outbreak_prop_input := 0.11%float;
  seed_input := 42;
  use_seed_var := true;
  network_seed_input := 67;
  max_t_input := 3;
  iterations_input := 0;
  steps_per_update_input := 2;
  prep_amount_input := 0.1%float;
  mode_var := "standard"
|}.

Definition week_by_week : Inputs := {|
  num_nodes_input := 20;
  delay_input := 50;
  initial_outbreak_prop_input := 0.11%float;
  seed_input := 42;
  use_seed_var := true;
  network_seed_input := 67;
  max_t_input := 3;
  iterations_input := 2;
  steps_per_update_input := 1;
  prep_amount_input := 0.1%float;
  mode_var := "standard"
|}.

(** The week-1 session with the iterations field at 0, and the fresh session
    running week by week. *)
Definition emptied : Session := set_inputs no_runs Demo.week1.
Definition playing : Session := set_running true (set_inputs week_by_week Demo.fresh).

(** Histories for the statistics: two runs of different lengths that list one
    state only, and an ensemble whose second run has no snapshot yet. *)
Definition histories : list (list Snapshot) :=
  [[{["acute" := 1]}; {["acute" := 2]}]; [{["acute" := 3]}]].
Definition unstarted : list (list Snapshot) := [[{["acute" := 1]}]; []].

End Cases.

Lemma apply_settings_no_runs_witness :
  iterations_input (inputs Cases.emptied) <= 0
  /\ snd (apply_settings Demo.NetworkModel Cases.emptied)
     = inl (IndexError "list index out of range")
  /\ models (fst (apply_settings Demo.NetworkModel Cases.emptied)) = [].
Proof.
  assert (H : iterations_input (inputs Cases.emptied) <= 0)
    by (apply Z.leb_le; vm_compute; reflexivity).
  split; [exact H|].
  rewrite (apply_settings_no_runs Demo.NetworkModel Cases.emptied H).
  split; reflexivity.
Defined.

Lemma tick_schedules_witness :
  tick Demo.step (set_running true Demo.fresh)
  = (fst (tick Demo.step (set_running true Demo.fresh)), inr tt)
  /\ trace (fst (tick Demo.step (set_running true Demo.fresh)))
     = trace Demo.fresh ++ [SetTitle (TitleWeek 2); Redraw; After 50].
Proof.
  assert (H : tick Demo.step (set_running true Demo.fresh)
              = (fst (tick Demo.step (set_running true Demo.fresh)), inr tt))
    by (apply pair_snd; vm_compute; reflexivity).
  split; [exact H|].
  rewrite (tick_schedules Demo.step _ _ H). vm_compute. reflexivity.
Defined.

Lemma tick_single_step_witness :
  running Cases.playing = true /\ at_ceiling Cases.playing = false
  /\ steps_per_update_input (inputs Cases.playing) <= 1
  /\ tick Demo.step Cases.playing
     = bind (step_once Demo.step)
         (fun _ => bind get (fun s1 => emit (After (delay_input (inputs s1)))))
         Cases.playing.
Proof.
  assert (H1 : running Cases.playing = true) by reflexivity.
  assert (H2 : at_ceiling Cases.playing = false) by (vm_compute; reflexivity).
  assert (H3 : steps_per_update_input (inputs Cases.playing) <= 1)
    by (apply Z.leb_le; vm_compute; reflexivity).
  split; [exact H1|]. split; [exact H2|]. split; [exact H3|].
  exact (tick_single_step Demo.step Cases.playing H1 H2 H3).
Defined.

Lemma batch_steps_exact_witness :
  batch_steps Demo.step 2 Demo.fresh = (fst (batch_steps Demo.step 2 Demo.fresh), inr tt)
  /\ t (fst (batch_steps Demo.step 2 Demo.fresh)) = 2%nat.
Proof.
  assert (H : batch_steps Demo.step 2 Demo.fresh
              = (fst (batch_steps Demo.step 2 Demo.fresh), inr tt))
    by (apply pair_snd; vm_compute; reflexivity).
  split; [exact H|].
  rewrite (proj1 (batch_steps_exact Demo.step 2 _ _ H)). vm_compute. reflexivity.
Defined.


Lemma plot_states_nothing_to_plot_witness :
  [] ∈ Cases.unstarted
  /\ plot_states (list Z) (fun xs => xs) (fun _ xs => xs) (Runs Cases.unstarted)
       PLOT_2_KEYS (Some state_colors)
     = ([Clear], inr tt).
Proof.
  assert (H : [] ∈ Cases.unstarted).
  { unfold Cases.unstarted. apply list_elem_of_further, list_elem_of_here. }
  split; [exact H|].
  exact (plot_states_nothing_to_plot (fun xs : list Z => xs) (fun _ xs => xs)
           Cases.unstarted PLOT_2_KEYS (Some state_colors) (or_intror H)).
Defined.

Lemma plot_states_missing_key_witness :
  [{["acute" := 3]}] ∈ Cases.histories
  /\ (0 < min_len Cases.histories)%nat
  /\ ({["acute" := 3]} : Snapshot) !! "dead" = None
  /\ keys_present Cases.histories (min_len Cases.histories) ["acute"]
  /\ snd (plot_states (list Z) (fun xs => xs) (fun _ xs => xs) (Runs Cases.histories)
            ["acute"; "dead"] (Some state_colors))
     = inl (OtherError "KeyError" "dead").
Proof.
  assert (H1 : [({["acute" := 3]} : Snapshot)] ∈ Cases.histories).
  { unfold Cases.histories. apply list_elem_of_further, list_elem_of_here. }
  assert (H2 : (0 < min_len Cases.histories)%nat) by (vm_compute; constructor).
  assert (H3 : ({["acute" := 3]} : Snapshot) !! "dead" = None) by (vm_compute; reflexivity).
  assert (H4 : keys_present Cases.histories (min_len Cases.histories) ["acute"]).
  { unfold keys_present. apply (bool_decide_unpack _). vm_compute. reflexivity. }
  split; [exact H1|]. split; [exact H2|]. split; [exact H3|]. split; [exact H4|].
  change ["acute"; "dead"] with (["acute"] ++ "dead" :: []).
  rewrite (plot_states_missing_key (fun xs : list Z => xs) (fun _ xs => xs)
             Cases.histories ["acute"] "dead" [] (Some state_colors)
             [{["acute" := 3]}] 0%nat {["acute" := 3]} H1 H2 eq_refl H3 H4).
  reflexivity.
Defined.

Lemma batch_job_propagates_witness :
  batch_try Demo.NetworkModel Demo.step Engine.states_per_time Demo.now "data/standard" 2
    (batch_job_start "standard" 1 1 0.5%float Cases.emptied)
  = (fst (batch_try Demo.NetworkModel Demo.step Engine.states_per_time Demo.now
            "data/standard" 2 (batch_job_start "standard" 1 1 0.5%float Cases.emptied)),
     inl (IndexError "list index out of range"))
  /\ snd (batch_preps Demo.NetworkModel Demo.step Engine.states_per_time Demo.now
            "standard" "data/standard" 2 1 1 [0.5; 0.6]%float Cases.emptied)
     = inl (IndexError "list index out of range").
Proof.
  assert (H : batch_try Demo.NetworkModel Demo.step Engine.states_per_time Demo.now
                "data/standard" 2 (batch_job_start "standard" 1 1 0.5%float Cases.emptied)
              = (fst (batch_try Demo.NetworkModel Demo.step Engine.states_per_time Demo.now
                        "data/standard" 2
                        (batch_job_start "standard" 1 1 0.5%float Cases.emptied)),
                 inl (IndexError "list index out of range")))
    by (apply pair_snd; vm_compute; reflexivity).
  split; [exact H|].
  rewrite (batch_job_propagates Demo.NetworkModel Demo.step Engine.states_per_time Demo.now
             "standard" "data/standard" 2 1 1 0.5%float [0.6%float] Cases.emptied _ _
             H eq_refl).
  reflexivity.
Defined.

(** ** Sessions with events dispatched by [window.update()] *)

Module Clicks.

Definition is_update (e : effect) : bool :=
  match e with Update => true | _ => false end.

(** The number of [window.update()] calls a session has made so far. *)
Definition updates {Model : Type} (s : @Session Model) : nat :=
  length (filter (fun e => is_update e = true) (trace s)).

(** The events [evs] are pending at the [n]-th call of [window.update()], and
    nothing is pending at the other calls. *)
Definition at_update {Model : Type} (n : nat) (evs : list event) (s : @Session Model)
    : list event :=
  if (updates s =? n)%nat then evs else [].

(** An engine that keeps nothing but the arguments it was built with. *)
Definition remember (a : ModelArgs) : result ModelArgs := inr a.
Definition stay (a : ModelArgs) : result ModelArgs := inr a.
Definition no_history (a : ModelArgs) : list Snapshot := [].

(** The user retypes both seed fields while the first run is being built: the
    edit is pending at the second [window.update()]. *)
Definition retyped : Inputs := {|
  num_nodes_input := 20;
  delay_input := 50;
  initial_outbreak_prop_input := 0.11%float;
  seed_input := 7;
  use_seed_var := true;
  network_seed_input := 99;
  max_t_input := 3;
  iterations_input := 2;
  steps_per_update_input := 2;
  prep_amount_input := 0.1%float;
  mode_var := "standard"
|}.

Definition typing : @Session ModelArgs -> list event := at_update 2 [EvInput retyped].

(** The user switches to the statistics and exports at that moment instead. *)
Definition looking {Model : Type} : @Session Model -> list event :=
  at_update 2 [EvStatsView; EvExport].

(** The small settings typed in, nothing built yet. *)
Definition unbuilt : @Session ModelArgs := set_inputs Demo.small blank.

Definition created (pending : @Session ModelArgs -> list event)
    : @Session ModelArgs * result (list ModelArgs) :=
  Live.create_models remember
    (Live.window_update remember stay no_history Demo.now pending 1)
    unbuilt.

(** The runs [create_models] returned. *)
Definition runs_of (pending : @Session ModelArgs -> list event) : list ModelArgs :=
  match snd (created pending) with inr ms => ms | inl _ => [] end.

(** A click on STEP while APPLY is building the first run of a new ensemble,
    on the fresh session (which has called [window.update()] twice) and on
    the session after the module's start and the small settings (three
    calls). *)
Definition step_click : @Session Engine.Run -> list event := at_update 3 [EvStep].
Definition late_click : @Session Engine.Run -> list event := at_update 4 [EvStep].
Definition view_click : @Session Engine.Run -> list event :=
  at_update 3 [EvStatsView; EvExport].

Abbreviation apply_with pending s :=
  (Live.callback Demo.NetworkModel Demo.step Engine.states_per_time Demo.now
     (Live.window_update Demo.NetworkModel Demo.step Engine.states_per_time Demo.now
        pending 1)
     EvApply s).

Definition early : Session := fst (apply_with step_click Demo.fresh).

Definition started : Session :=
  fst (Live.startup Demo.NetworkModel
         (Live.window_update Demo.NetworkModel Demo.step Engine.states_per_time Demo.now
            late_click 0)
         blank).

Definition surprised : Session :=
  Live.dispatch Demo.NetworkModel Demo.step Engine.states_per_time Demo.now late_click 1
    EvApply
    (Live.dispatch Demo.NetworkModel Demo.step Engine.states_per_time Demo.now late_click 0
       (EvInput Demo.small) started).

(** The same session when the click at that moment is on the statistics view
    and on EXPORT instead. *)
Definition late_view : @Session Engine.Run -> list event :=
  at_update 4 [EvStatsView; EvExport].

Definition watched : Session :=
  Live.dispatch Demo.NetworkModel Demo.step Engine.states_per_time Demo.now late_view 1
    EvApply
    (Live.dispatch Demo.NetworkModel Demo.step Engine.states_per_time Demo.now late_view 0
       (EvInput Demo.small)
       (fst (Live.startup Demo.NetworkModel
               (Live.window_update Demo.NetworkModel Demo.step Engine.states_per_time
                  Demo.now late_view 0)
               blank))).

(** The rows of the files written so far. *)
Definition rows_written (tr : list effect) : list (list (list cell)) :=
  omap (fun e => match e with WriteCsv _ _ rows => Some rows | _ => None end) tr.

(** Batches whose block is misconfigured: no iterations, an infinite prep
    value, a prep value that is not a number. *)
Definition no_iterations : Batch.Config := {|
  Batch.prep_values := [0.5; 0.6]%float;
  Batch.modes := ["standard"];
  Batch.max_t := 1;
  Batch.iterations := 0;
  Batch.num_nodes := 5;
  Batch.network_seed := 67
|}.

Definition infinite_prep : Batch.Config := {|
  Batch.prep_values := [infinity; 0.5%float];
  Batch.modes := ["standard"];
  Batch.max_t := 1;
  Batch.iterations := 1;
  Batch.num_nodes := 5;
  Batch.network_seed := 67
|}.

Definition nan_prep : Batch.Config := {|
  Batch.prep_values := [nan; 0.5%float];
  Batch.modes := ["standard"];
  Batch.max_t := 1;
  Batch.iterations := 1;
  Batch.num_nodes := 5;
  Batch.network_seed := 67
|}.

Definition batch (cfg : Batch.Config) : Session * result unit :=
  batch_export_with Demo.NetworkModel Demo.step Engine.states_per_time Demo.now cfg
    Demo.fresh.

End Clicks.

Lemma at_update_kind {Model : Type} (kind : event -> bool) n evs (s : @Session Model) :
  forallb kind evs = true -> Forall (fun ev => kind ev = true) (Clicks.at_update n evs s).
Proof.
  intros H. unfold Clicks.at_update. destruct (Clicks.updates s =? n)%nat; [|constructor].
  apply Forall_forall. intros ev Hin. rewrite forallb_forall in H. apply H.
  by apply list_elem_of_In.
Qed.

Lemma surprised_reachable :
  Live.reachable Demo.NetworkModel Demo.step Engine.states_per_time Demo.now
    Clicks.late_click Clicks.surprised.
Proof.
  unfold Clicks.surprised. do 2 apply Live.reachable_dispatch.
  apply (Live.reachable_startup _ _ _ _ _ 0%nat).
  exact (pair_snd _ _
           (@eq_refl (result unit) (inr tt)
              <: snd (Live.startup Demo.NetworkModel
                        (Live.window_update Demo.NetworkModel Demo.step
                           Engine.states_per_time Demo.now Clicks.late_click 0)
                        blank) = inr tt)).
Defined.

Lemma watched_reachable :
  Live.reachable Demo.NetworkModel Demo.step Engine.states_per_time Demo.now
    Clicks.late_view Clicks.watched.
Proof.
  unfold Clicks.watched. do 2 apply Live.reachable_dispatch.
  apply (Live.reachable_startup _ _ _ _ _ 0%nat).
  exact (pair_snd _ _
           (@eq_refl (result unit) (inr tt)
              <: snd (Live.startup Demo.NetworkModel
                        (Live.window_update Demo.NetworkModel Demo.step
                           Engine.states_per_time Demo.now Clicks.late_view 0)
                        blank) = inr tt)).
Defined.





(** C6, the claim as stated fails. With the iterations of the block at 0 the
    first job raises [IndexError], which the [except] clause does not catch:
    the batch is left, no job is skipped and no file is written.  With an
    infinite prep value the first job's export raises [OverflowError], with
    the same outcome.  A prep value that is not a number makes the export
    raise [ValueError]: that job is skipped and the next one writes its
    file. *)
Lemma configuration_errors_abort_the_batch :
  (snd (Clicks.batch Clicks.no_iterations) = inl (IndexError "list index out of range")
   /\ written_paths (trace (fst (Clicks.batch Clicks.no_iterations))) = []
   /\ skips (fst (Clicks.batch Clicks.no_iterations)) = 0%nat)
  /\ (snd (Clicks.batch Clicks.infinite_prep)
      = inl (OverflowError "cannot convert float infinity to integer")
      /\ written_paths (trace (fst (Clicks.batch Clicks.infinite_prep))) = []
      /\ skips (fst (Clicks.batch Clicks.infinite_prep)) = 0%nat)
  /\ (snd (Clicks.batch Clicks.nan_prep) = inr tt
      /\ written_paths (trace (fst (Clicks.batch Clicks.nan_prep)))
         = ["data/standard/standard_prep50_weeks1_nodes5_netseed67_iters1_RAW__20260128_101939.csv"]
      /\ skips (fst (Clicks.batch Clicks.nan_prep)) = 1%nat).
Proof.
  split; [|split];
    (split; [vm_compute; reflexivity|]; split; vm_compute; reflexivity).
Qed.


